(** * Video generation pipeline: duration policy, caption segmenter,
      media post-processors and the job orchestrator

    A shallow embedding of the TypeScript services under [server/services]
    (durationPolicy, audioUtils, videoUtils, subtitleUtils, ttsService,
    soraApi, videoProcessor) together with the properties they are expected
    to satisfy.

    Conventions of the embedding.
    - A JavaScript [number] that stands for a duration or a percentage is an
      exact rational ([Q]); IEEE-754 rounding of the individual operations is
      not modelled.  [Math.round], [Math.ceil], [Math.floor], [Math.max] and
      [Math.min] are the exact functions.
    - A JavaScript string is the list of its UTF-16 code units ([list N]).
    - Calls that leave the process (speech, music and video providers, ffmpeg,
      ffprobe, the project database, the drive upload) take their outcome from
      an explicit environment record; the file system, the status store and
      the progress callbacks are explicit state. *)

From Stdlib Require Import QArith Qround Qminmax Qabs Lqa ZArith NArith Lia.
From Stdlib Require Import List Sorted String Ascii DecimalString.
From stdpp Require Import gmap list.

Import ListNotations.
Local Open Scope Q_scope.

(* ===================================================================== *)
(** ** JavaScript primitives used by the services                        *)
(* ===================================================================== *)

Module Js.

(** UTF-16 code units and strings. *)
Definition char := N.
Definition jsstring := list char.

Definition lit (s : string) : jsstring :=
  List.map N_of_ascii (list_ascii_of_string s).

(** [x.length], [a + b]. *)
Definition strlen (s : jsstring) : nat := List.length s.

(** A string is truthy when it is not empty. *)
Definition truthy (s : jsstring) : bool :=
  match s with [] => false | _ :: _ => true end.

(** ECMAScript WhiteSpace and LineTerminator code points: what [\s]
    matches and what [String.prototype.trim] strips. *)
Definition isSpace (c : char) : bool :=
  ((9 <=? c) && (c <=? 13))%N
  || N.eqb c 32 || N.eqb c 160 || N.eqb c 5760
  || ((8192 <=? c) && (c <=? 8202))%N
  || N.eqb c 8232 || N.eqb c 8233 || N.eqb c 8239
  || N.eqb c 8287 || N.eqb c 12288 || N.eqb c 65279.

Fixpoint trimStart (s : jsstring) : jsstring :=
  match s with
  | [] => []
  | c :: s' => if isSpace c then trimStart s' else s
  end.

Definition trimEnd (s : jsstring) : jsstring :=
  List.rev (trimStart (List.rev s)).

Definition trim (s : jsstring) : jsstring := trimEnd (trimStart s).

(** [Array.prototype.join]. *)
Fixpoint join (sep : jsstring) (l : list jsstring) : jsstring :=
  match l with
  | [] => []
  | [x] => x
  | x :: rest => x ++ sep ++ join sep rest
  end.

(** *** [String.prototype.split] with a regular expression

    The regular expressions of the services have no capture group and
    are used without a limit.  A regular expression is given by its
    sticky matcher: from the code unit before the position (what a
    lookbehind sees) and the rest of the string at the position, the
    length of the match that starts there. *)
Definition matcher := option char -> jsstring -> option nat.

(** The loop of [RegExp.prototype[Symbol.split]].  [piece] holds the code
    units between [p] and [q] in reverse; [skip] counts the code units of
    the last match that are still to be passed, during which [p] and [q]
    move together.  A match that ends at [p] (empty, with nothing
    pending) only advances [q]. *)
Fixpoint splitLoop (m : matcher) (prev : option char) (piece : jsstring)
         (skip : nat) (s : jsstring) : list jsstring :=
  match s with
  | [] => [List.rev piece]
  | c :: s' =>
      match skip with
      | S k => splitLoop m (Some c) [] k s'
      | O =>
          match m prev s with
          | None => splitLoop m (Some c) (c :: piece) 0 s'
          | Some O =>
              match piece with
              | [] => splitLoop m (Some c) [c] 0 s'
              | _ :: _ => List.rev piece :: splitLoop m (Some c) [c] 0 s'
              end
          | Some (S k) => List.rev piece :: splitLoop m (Some c) [] k s'
          end
      end
  end.

Definition split (m : matcher) (s : jsstring) : list jsstring :=
  match s with
  | [] => match m None [] with Some _ => [] | None => [[]] end
  | _ :: _ => splitLoop m None [] 0 s
  end.

(** Length of the run of white space at the head of a string. *)
Fixpoint spanSpaces (s : jsstring) : nat :=
  match s with
  | c :: s' => if isSpace c then S (spanSpaces s') else O
  | [] => O
  end.

Definition isOneOf (set : jsstring) (c : char) : bool :=
  existsb (N.eqb c) set.

(** [/\s+/] *)
Definition re_spaces : matcher := fun _ s =>
  match spanSpaces s with O => None | S n => Some (S n) end.

(** [/(?<=[.!?])\s+/] *)
Definition re_after_sentence : matcher := fun prev s =>
  match prev with
  | Some p => if isOneOf (lit ".!?") p then re_spaces prev s else None
  | None => None
  end.

(** [/(?<=[,;:])\s*/] *)
Definition re_after_clause : matcher := fun prev s =>
  match prev with
  | Some p => if isOneOf (lit ",;:") p then Some (spanSpaces s) else None
  | None => None
  end.

(** [s.substring(0, n)] for [0 <= n]. *)
Definition substring0 (n : nat) (s : jsstring) : jsstring := firstn n s.

(** [Math.round]: nearest integer, a tie goes up. *)
Definition Math_round (x : Q) : Q := inject_Z (Qfloor (x + (1 # 2))).
Definition Math_ceil (x : Q) : Q := inject_Z (Qceiling x).
Definition Math_floor (x : Q) : Q := inject_Z (Qfloor x).
Definition Math_max (x y : Q) : Q := Qmax x y.
Definition Math_min (x y : Q) : Q := Qmin x y.

(** The remainder operator [x % y] on numbers: the sign follows the
    dividend. *)
Definition Qtrunc (x : Q) : Z :=
  if Qle_bool 0 x then Qfloor x else Qceiling x.
Definition rem (x y : Q) : Q := x - inject_Z (Qtrunc (x / y)) * y.

(** Decimal digits of a natural number ("0" for 0). *)
Definition digits (n : N) : jsstring :=
  lit (NilEmpty.string_of_uint (N.to_uint n)).

(** [n.toString()] for an integer-valued number. *)
Definition intToString (z : Z) : jsstring :=
  if (z <? 0)%Z then lit "-" ++ digits (Z.to_N (- z)) else digits (Z.to_N z).

(** [\w] *)
Definition isWordChar (c : char) : bool :=
  ((48 <=? c) && (c <=? 57))%N || ((65 <=? c) && (c <=? 90))%N
  || ((97 <=? c) && (c <=? 122))%N || N.eqb c 95.

(** Where [/\.\w+$/] matches: at the last full stop, when one or more
    word characters and nothing else follow it.  The result is the text
    before the match and the matched extension (with its full stop). *)
Fixpoint splitExt (s : jsstring) : option (jsstring * jsstring) :=
  match s with
  | [] => None
  | c :: s' =>
      match splitExt s' with
      | Some (stem, ext) => Some (c :: stem, ext)
      | None =>
          if N.eqb c 46 && truthy s' && forallb isWordChar s'
          then Some ([], s) else None
      end
  end.

(** [s.replace(/\.\w+$/, ext)] *)
Definition replaceExt (ext : jsstring) (s : jsstring) : jsstring :=
  match splitExt s with
  | Some (stem, _) => stem ++ ext
  | None => s
  end.

(** [s.replace(/(\.\w+)$/, suffix + "$1")] *)
Definition insertBeforeExt (suffix : jsstring) (s : jsstring) : jsstring :=
  match splitExt s with
  | Some (stem, ext) => stem ++ suffix ++ ext
  | None => s
  end.

(** [s.replace(/c/g, r)] for a single code unit [c]... and in general a
    global replacement that rewrites each code unit on its own. *)
Definition replaceEach (f : char -> jsstring) (s : jsstring) : jsstring :=
  List.concat (List.map f s).

Fixpoint startsWith (pat s : jsstring) : bool :=
  match pat, s with
  | [], _ => true
  | p :: pat', c :: s' => N.eqb p c && startsWith pat' s'
  | _ :: _, [] => false
  end.

(** [s.replace(pat, rep)] with a string pattern: the first occurrence. *)
Fixpoint replaceFirst (pat rep s : jsstring) : jsstring :=
  if startsWith pat s then rep ++ skipn (List.length pat) s
  else match s with
       | [] => []
       | c :: s' => c :: replaceFirst pat rep s'
       end.

(** [outputPath || fallback] for an optional string argument. *)
Definition orElse (o : option jsstring) (fallback : jsstring) : jsstring :=
  match o with
  | Some p => if truthy p then p else fallback
  | None => fallback
  end.

(** [s.padStart(w, "0")]. *)
Definition padStart0 (w : nat) (s : jsstring) : jsstring :=
  List.repeat 48%N (w - List.length s) ++ s.

(** [x.toFixed(1)] for [|x| < 10^21]: the sign, then the integer [n]
    nearest to [10 |x|] (the larger one on a tie) printed with a point
    before its last digit. *)
Definition toFixed1 (x : Q) : jsstring :=
  let neg := negb (Qle_bool 0 x) in
  let ax := Qabs x in
  let n := Z.to_N (Qfloor (ax * 10 + (1 # 2))) in
  let m := padStart0 2 (digits n) in
  let k := List.length m in
  (if neg then lit "-" else []) ++ firstn (k - 1) m ++ lit "." ++ skipn (k - 1) m.

End Js.

(* ===================================================================== *)
(** ** The process state and the outside world                            *)
(* ===================================================================== *)

Module Runtime.
Import Js.

(** What a media file holds: the duration of its picture stream and of
    its sound stream, when present. *)
Record Media := {
  video : option Q;
  audio : option Q
}.

Inductive File :=
| MediaFile (m : Media)
| TextFile (content : jsstring).

Definition audioOnly (d : Q) : File := MediaFile {| video := None; audio := Some d |}.

(** [metadata.format.duration] as ffprobe reports it: the longest stream;
    absent when the container has no stream. *)
Definition formatDuration (m : Media) : option Q :=
  match video m, audio m with
  | Some v, Some a => Some (Qmax v a)
  | Some v, None => Some v
  | None, Some a => Some a
  | None, None => None
  end.

(** A settled promise: a value, or a thrown [Error] with its message. *)
Inductive Result (A : Type) :=
| Ok (a : A)
| Throw (message : jsstring).
Arguments Ok {A} a.
Arguments Throw {A} message.

Inductive ProcessingStage :=
| analyzing | generating_tts | generating_music | generating_video
| composing | complete | error.

Record ProcessingStatus := {
  projectId : jsstring;
  stage : ProcessingStage;
  progress : Z;
  currentStep : jsstring;
  error_ : option jsstring
}.

(** The columns of a [video_projects] row that the processor writes. *)
Record ProjectRow := {
  driveFileId : option jsstring;
  driveWebViewLink : option jsstring;
  videoUrl : option jsstring
}.

Record UploadVideoResult := {
  fileId : jsstring;
  webViewLink : jsstring;
  webContentLink : jsstring
}.

(** Calls that are billed or leave the process; the compositing run of
    ffmpeg is kept with its three inputs and its two filters. *)
Inductive ExternalCall :=
| CallEdgeTTS | CallK2FSA | CallOpenAI
| CallSora (seconds : Q)
| CallFfmpegCompose (bg speech music : Media) (audioFilter videoFilter : jsstring)
| CallDriveUpload (fileName : jsstring) (content : File).

(** The outcome of every call of one job that leaves the process.  Each
    call site runs at most once per job. *)
Record Env := {
  cwd : jsstring;
  edgeTTS : Result Q;             (* duration of the speech returned *)
  edgeConvert : Result unit;      (* ffmpeg: mp3 to wav *)
  k2fsaTTS : Result Q;
  openaiTTS : Result Q;
  openaiConvert : Result unit;
  openaiKey : bool;               (* OPENAI_API_KEY is configured *)
  silenceFfmpeg : Result unit;    (* ffmpeg: lavfi silence to wav *)
  mediaError : jsstring;          (* what ffprobe and ffmpeg report for an
                                     input they cannot read *)
  musicFfmpeg : Result unit;      (* ffmpeg: lavfi silence to mp3 *)
  cometApiKey : bool;             (* COMETAPI_API_KEY is configured *)
  sora : Q -> Result (Q * bool);  (* for the seconds requested, the clip that Sora
                                     returns and the download stores: its
                                     duration, whether it has sound *)
  extendFfmpeg : Result unit;     (* ffmpeg: freeze-frame extension *)
  padFfmpeg : Result unit;        (* ffmpeg: apad *)
  subtitleWrite : Result unit;    (* fs.writeFile of the caption track *)
  composeFfmpeg : Result unit;    (* ffmpeg: the compositing pass *)
  driveUpload : Result UploadVideoResult;
  dbUpdateAfterUpload : Result unit;   (* storage.updateProject in the try block *)
  dbUpdateLocal : Result unit          (* storage.updateProject in the catch block *)
}.

Record World := {
  fs : gmap jsstring File;
  processingStatuses : gmap jsstring ProcessingStatus;
  projects : gmap jsstring ProjectRow;
  activeJobs : gmap jsstring bool;
  notifications : list ProcessingStatus;   (* calls of onProgress, oldest first *)
  calls : list ExternalCall                (* oldest first *)
}.

Definition emptyWorld : World :=
  {| fs := ∅; processingStatuses := ∅; projects := ∅; activeJobs := ∅;
     notifications := []; calls := [] |}.

(** Computations of the server: state passing with exceptions. *)
Definition M (A : Type) : Type := World -> Result A * World.

Definition ret {A} (a : A) : M A := fun w => (Ok a, w).
Definition throw {A} (message : jsstring) : M A := fun w => (Throw message, w).
Definition bind {A B} (m : M A) (k : A -> M B) : M B :=
  fun w => match m w with
           | (Ok a, w') => k a w'
           | (Throw e, w') => (Throw e, w')
           end.
Definition tryCatch {A} (m : M A) (handler : jsstring -> M A) : M A :=
  fun w => match m w with
           | (Ok a, w') => (Ok a, w')
           | (Throw e, w') => handler e w'
           end.
(** [try { m } finally { f }] where [f] does not throw. *)
Definition tryFinally {A} (m : M A) (f : World -> World) : M A :=
  fun w => let '(r, w') := m w in (r, f w').
Definition lift {A} (r : Result A) : M A := fun w => (r, w).
Definition modify (f : World -> World) : M unit := fun w => (Ok tt, f w).
Definition get : M World := fun w => (Ok w, w).

Definition setFs (f : gmap jsstring File -> gmap jsstring File) (w : World) : World :=
  {| fs := f (fs w); processingStatuses := processingStatuses w;
     projects := projects w; activeJobs := activeJobs w;
     notifications := notifications w; calls := calls w |}.
Definition setStatuses (f : gmap jsstring ProcessingStatus -> gmap jsstring ProcessingStatus)
           (w : World) : World :=
  {| fs := fs w; processingStatuses := f (processingStatuses w);
     projects := projects w; activeJobs := activeJobs w;
     notifications := notifications w; calls := calls w |}.
Definition setProjects (f : gmap jsstring ProjectRow -> gmap jsstring ProjectRow)
           (w : World) : World :=
  {| fs := fs w; processingStatuses := processingStatuses w;
     projects := f (projects w); activeJobs := activeJobs w;
     notifications := notifications w; calls := calls w |}.
Definition setActiveJobs (f : gmap jsstring bool -> gmap jsstring bool) (w : World) : World :=
  {| fs := fs w; processingStatuses := processingStatuses w;
     projects := projects w; activeJobs := f (activeJobs w);
     notifications := notifications w; calls := calls w |}.
Definition notify (st : ProcessingStatus) (w : World) : World :=
  {| fs := fs w; processingStatuses := processingStatuses w;
     projects := projects w; activeJobs := activeJobs w;
     notifications := notifications w ++ [st]; calls := calls w |}.
Definition record (c : ExternalCall) (w : World) : World :=
  {| fs := fs w; processingStatuses := processingStatuses w;
     projects := projects w; activeJobs := activeJobs w;
     notifications := notifications w; calls := calls w ++ [c] |}.

(** [fs.writeFile] and the file an ffmpeg run saves. *)
Definition writeFile (path : jsstring) (f : File) : M unit :=
  modify (setFs (insert path f)).
(** [fs.unlink]; it throws when the file is absent. *)
Definition unlink (path : jsstring) : M unit :=
  fun w => match fs w !! path with
           | Some _ => (Ok tt, setFs (delete path) w)
           | None => (Throw (lit "ENOENT: no such file or directory"), w)
           end.
(** [fs.access] *)
Definition access (path : jsstring) : M unit :=
  fun w => match fs w !! path with
           | Some _ => (Ok tt, w)
           | None => (Throw (lit "ENOENT: no such file or directory"), w)
           end.

(** [ffmpeg.ffprobe(path, cb)]: the error, or the format duration (absent
    when the file has no stream). *)
Definition ffprobe (env : Env) (path : jsstring) : M (option Q) :=
  fun w => match fs w !! path with
           | Some (MediaFile m) => (Ok (formatDuration m), w)
           | _ => (Throw (mediaError env), w)
           end.

(** The media behind an input of an ffmpeg run; the run fails when the
    input cannot be read. *)
Definition readMedia (env : Env) (path : jsstring) : M Media :=
  fun w => match fs w !! path with
           | Some (MediaFile m) => (Ok m, w)
           | _ => (Throw (mediaError env), w)
           end.

(** [path.join(process.cwd(), "temp_videos", name)] for a plain file name. *)
Definition TEMP_DIR (env : Env) : jsstring := cwd env ++ lit "/temp_videos".
Definition tempPath (env : Env) (name : jsstring) : jsstring :=
  TEMP_DIR env ++ lit "/" ++ name.

End Runtime.

Declare Scope js_scope.
Delimit Scope js_scope with js.
Notation "x <- m ;; k" := (Runtime.bind m (fun x => k))
  (at level 100, m at next level, right associativity) : js_scope.
Notation "m ;; k" := (Runtime.bind m (fun _ => k))
  (at level 100, right associativity) : js_scope.


(* ===================================================================== *)
(** ** durationPolicy.ts                                                  *)
(* ===================================================================== *)

Module DurationPolicy.
Import Js.

(** [type SoraDuration = 4 | 8 | 12]. *)
Inductive SoraDuration := Sora4 | Sora8 | Sora12.

Definition seconds (t : SoraDuration) : Q :=
  match t with Sora4 => 4 | Sora8 => 8 | Sora12 => 12 end.

Record DurationDecision := {
  targetDuration : SoraDuration;
  actualDuration : Q;
  extensionNeeded : Q;
  shouldWarn : bool;
  warningMessage : option jsstring
}.

Definition decideSoraDuration (actualDuration : Q) : DurationDecision :=
  let rounded := Math_round (actualDuration * 10) / 10 in
  let targetDuration :=
    if Qle_bool rounded 4 then Sora4
    else if Qle_bool rounded 8 then Sora8
    else Sora12 in
  let extensionNeeded := Math_max 0 (actualDuration - seconds targetDuration) in
  let shouldWarn := negb (Qle_bool actualDuration 12) in
  let warningMessage :=
    if shouldWarn
    then Some (lit "Script is " ++ toFixed1 actualDuration
               ++ lit "s long. Video will be extended with freeze-frame to match.")
    else None in
  {| targetDuration := targetDuration;
     actualDuration := actualDuration;
     extensionNeeded := extensionNeeded;
     shouldWarn := shouldWarn;
     warningMessage := warningMessage |}.

Definition estimateSpeechDuration (script : jsstring) : DurationDecision :=
  let words := List.length (split re_spaces (trim script)) in
  let estimatedSeconds := inject_Z (Z.of_nat words) / (5 # 2) in
  decideSoraDuration estimatedSeconds.

End DurationPolicy.

(* ===================================================================== *)
(** ** subtitleUtils.ts                                                   *)
(* ===================================================================== *)

Module SubtitleUtils.
Import Js Runtime.

Record SubtitleSegment := {
  text : jsstring;
  startTime : Q;
  endTime : Q
}.

Definition WORDS_PER_MINUTE : Q := 150.
Definition WORDS_PER_SECOND : Q := WORDS_PER_MINUTE / 60.
Definition MAX_CHARS_PER_LINE : nat := 40.
Definition MAX_WORDS_PER_SEGMENT : nat := 8.

(** State of the clause loop of [splitIntoSegments]. *)
Record ClauseState := {
  segments_ : list jsstring;
  currentSegment : list jsstring;
  currentLength : nat
}.

Definition clauseStep (st : ClauseState) (clause : jsstring) : ClauseState :=
  let clauseWords := split re_spaces (trim clause) in
  let st1 :=
    if (MAX_WORDS_PER_SEGMENT <? currentLength st + List.length clauseWords)%nat
       && (0 <? List.length (currentSegment st))%nat
    then {| segments_ := segments_ st ++ [trim (join (lit " ") (currentSegment st))];
            currentSegment := [];
            currentLength := 0 |}
    else st in
  if truthy (trim clause)
  then {| segments_ := segments_ st1;
          currentSegment := currentSegment st1 ++ [trim clause];
          currentLength := (currentLength st1 + List.length clauseWords)%nat |}
  else st1.

Definition sentenceStep (segments : list jsstring) (sentence : jsstring)
  : list jsstring :=
  let words := split re_spaces (trim sentence) in
  if (List.length words <=? MAX_WORDS_PER_SEGMENT)%nat then
    if truthy (trim sentence) then segments ++ [trim sentence] else segments
  else
    let clauses := split re_after_clause sentence in
    let st := fold_left clauseStep clauses
                {| segments_ := segments; currentSegment := []; currentLength := 0 |} in
    if (0 <? List.length (currentSegment st))%nat
    then segments_ st ++ [trim (join (lit " ") (currentSegment st))]
    else segments_ st.

Definition splitIntoSegments (script : jsstring) : list jsstring :=
  let sentences := split re_after_sentence script in
  let segments := fold_left sentenceStep sentences [] in
  List.filter (fun s => (0 <? List.length s)%nat) segments.

Definition sumQ (l : list Q) : Q := fold_left Qplus l 0.

(** The loop that builds the timed segments: [i] is the index of the
    head of [rest], [n] is [segments.length]; [rest] pairs [segments[i]]
    with [rawDurations[i]]. *)
Fixpoint timeLoop (totalDuration endBuffer : Q) (n i : nat) (currentTime : Q)
         (rest : list (jsstring * Q)) : list SubtitleSegment :=
  match rest with
  | [] => []
  | (seg, duration) :: rest' =>
      let overlapBuffer := if (i <? n - 1)%nat then 1 # 10 else 0 in
      let endTime := Math_min (currentTime + duration + overlapBuffer)
                              (totalDuration - endBuffer) in
      {| text := seg; startTime := currentTime; endTime := endTime |}
      :: timeLoop totalDuration endBuffer n (S i) (currentTime + duration) rest'
  end.

Definition calculateTiming (segments : list jsstring) (totalDuration : Q)
  : list SubtitleSegment :=
  if (List.length segments =? 0)%nat || Qle_bool totalDuration 0 then []
  else
    let wordCounts := List.map (fun s => List.length (split re_spaces s)) segments in
    let totalWords :=
      match fold_left Nat.add wordCounts 0%nat with O => 1%nat | w => w end in
    let startBuffer := 1 # 2 in
    let endBuffer := 1 # 5 in
    let availableDuration := Math_max 1 (totalDuration - startBuffer - endBuffer) in
    let secondsPerWord := availableDuration / inject_Z (Z.of_nat totalWords) in
    let minDuration := 6 # 5 in
    let rawDurations :=
      imap (fun i _ =>
              let wordCount := nth i wordCounts 0%nat in
              let baseDuration := inject_Z (Z.of_nat wordCount) * secondsPerWord in
              Math_max minDuration baseDuration) segments in
    let totalRawDuration := sumQ rawDurations in
    let rawDurations :=
      if negb (Qle_bool totalRawDuration availableDuration) then
        let scaleFactor := availableDuration / totalRawDuration in
        List.map (fun d => Math_max (4 # 5) (d * scaleFactor)) rawDurations
      else rawDurations in
    timeLoop totalDuration endBuffer (List.length segments) 0 startBuffer
             (combine segments rawDurations).


(** [formatASSTime]: H:MM:SS.cc *)
Definition formatASSTime (seconds : Q) : jsstring :=
  let hours := Qfloor (seconds / 3600) in
  let mins := Qfloor (rem seconds 3600 / 60) in
  let secs := Qfloor (rem seconds 60) in
  let centisecs := Qfloor (rem seconds 1 * 100) in
  intToString hours ++ lit ":" ++ padStart0 2 (intToString mins) ++ lit ":"
    ++ padStart0 2 (intToString secs) ++ lit "." ++ padStart0 2 (intToString centisecs).

(** State of the loop of [wrapText]. *)
Definition wrapStep (maxChars : nat) (st : list jsstring * jsstring) (word : jsstring)
  : list jsstring * jsstring :=
  let '(lines, currentLine) := st in
  if (List.length currentLine + List.length word + 1 <=? maxChars)%nat
  then (lines, currentLine ++ (if truthy currentLine then lit " " else []) ++ word)
  else ((if truthy currentLine then lines ++ [currentLine] else lines), word).

Definition wrapLines (text : jsstring) (maxChars : nat) : list jsstring :=
  let words := split re_spaces text in
  let '(lines, currentLine) := fold_left (wrapStep maxChars) words ([], []) in
  if truthy currentLine then lines ++ [currentLine] else lines.

(** ASS uses a backslash followed by N for a line break. *)
Definition wrapText (text : jsstring) (maxChars : nat) : jsstring :=
  join [92%N; 78%N] (wrapLines text maxChars).

Definition assHeader : jsstring := lit
"[Script Info]
Title: AI Video Studio Subtitles
ScriptType: v4.00+
PlayResX: 1080
PlayResY: 1920
WrapStyle: 0

[V4+ Styles]
Format: Name, Fontname, Fontsize, PrimaryColour, SecondaryColour, OutlineColour, BackColour, Bold, Italic, Underline, StrikeOut, ScaleX, ScaleY, Spacing, Angle, BorderStyle, Outline, Shadow, Alignment, MarginL, MarginR, MarginV, Encoding
Style: Default,Arial,56,&H00FFFFFF,&H000000FF,&H00000000,&H80000000,-1,0,0,0,100,100,0,0,1,3,2,2,40,40,120,1

[Events]
Format: Layer, Start, End, Style, Name, MarginL, MarginR, MarginV, Effect, Text
".

Definition nl : jsstring := [10%N].

Definition assEvent (segment : SubtitleSegment) : jsstring :=
  let startTime := formatASSTime (startTime segment) in
  let endTime := formatASSTime (endTime segment) in
  let wrappedText := wrapText (text segment) MAX_CHARS_PER_LINE in
  lit "Dialogue: 0," ++ startTime ++ lit "," ++ endTime
    ++ lit ",Default,,0,0,0,," ++ wrappedText.

Definition generateASSContent (segments : list SubtitleSegment) : jsstring :=
  let events := join nl (List.map assEvent segments) in
  assHeader ++ events ++ nl.

Definition formatSRTTime (seconds : Q) : jsstring :=
  let hours := Qfloor (seconds / 3600) in
  let mins := Qfloor (rem seconds 3600 / 60) in
  let secs := Qfloor (rem seconds 60) in
  let ms := Qfloor (rem seconds 1 * 1000) in
  padStart0 2 (intToString hours) ++ lit ":" ++ padStart0 2 (intToString mins)
    ++ lit ":" ++ padStart0 2 (intToString secs) ++ lit "," ++ padStart0 3 (intToString ms).

Definition generateSRTContent (segments : list SubtitleSegment) : jsstring :=
  join nl
    (imap (fun index segment =>
             intToString (Z.of_nat index + 1) ++ nl
               ++ formatSRTTime (startTime segment) ++ lit " --> "
               ++ formatSRTTime (endTime segment) ++ nl
               ++ text segment ++ nl) segments).

(** [escapeSubtitlePath]: three global replacements in a row: backslashes
    become slashes, then every colon gets a backslash, then every single
    quote is closed, escaped and reopened. *)
Definition escapeSubtitlePath (filePath : jsstring) : jsstring :=
  let s1 := replaceEach (fun c => if N.eqb c 92 then [47%N] else [c]) filePath in
  let s2 := replaceEach (fun c => if N.eqb c 58 then [92%N; 58%N] else [c]) s1 in
  replaceEach (fun c => if N.eqb c 39 then [39%N; 92%N; 39%N; 39%N] else [c]) s2.

Definition generateSubtitleFile (env : Env) (script : jsstring) (audioDuration : Q)
           (outputPath : jsstring) : M (option jsstring) :=
  if negb (truthy script) || negb (truthy (trim script)) then ret None
  else
    let segments := splitIntoSegments script in
    if (List.length segments =? 0)%nat then ret None
    else
      let timedSegments := calculateTiming segments audioDuration in
      if (List.length timedSegments =? 0)%nat then ret None
      else
        let assContent := generateASSContent timedSegments in
        let assPath := replaceExt (lit ".ass") outputPath in
        (lift (subtitleWrite env) ;;
         writeFile assPath (TextFile assContent) ;;
         ret (Some assPath))%js.

End SubtitleUtils.


(* ===================================================================== *)
(** ** audioUtils.ts and videoUtils.ts                                    *)
(* ===================================================================== *)

Module AudioUtils.
Import Js Runtime.
Local Open Scope js_scope.

(** The value [getAudioDuration] resolves with for a probed duration. *)
Definition roundUpDuration (duration : Q) : Q :=
  Math_ceil (duration * 10) / 10 + (1 # 10).

Definition getAudioDuration (env : Env) (audioPath : jsstring) : M Q :=
  (duration <- ffprobe env audioPath ;;
   match duration with
   | None => throw (lit "Could not determine audio duration")
   | Some duration =>
       if Qeq_bool duration 0
       then throw (lit "Could not determine audio duration")
       else ret (roundUpDuration duration)
   end)%js.

(** [apad=whole_dur=t]: silence is appended until the stream lasts [t]. *)
Definition apad (targetDuration : Q) (d : Q) : Q := Qmax d targetDuration.

Definition padAudioWithSilence (env : Env) (inputPath : jsstring) (targetDuration : Q)
           (outputPath : option jsstring) : M jsstring :=
  let output := orElse outputPath (insertBeforeExt (lit "_padded") inputPath) in
  (m <- readMedia env inputPath ;;
   match audio m with
   | None => throw (mediaError env)
   | Some d =>
       lift (padFfmpeg env) ;;
       writeFile output (audioOnly (apad targetDuration d)) ;;
       ret output
   end)%js.

End AudioUtils.

Module VideoUtils.
Import Js Runtime.
Local Open Scope js_scope.

(** The picture stream that the filter graph of [extendVideoToAudioLength]
    produces: the original, then its last tenth of a second with the final
    frame held for [extensionNeeded]. *)
Definition freezeFrame (v inputDuration targetDuration : Q) : Q :=
  let extensionNeeded := targetDuration - inputDuration in
  v + ((1 # 10) + extensionNeeded).

Definition extendVideoToAudioLength (env : Env) (inputPath : jsstring)
           (targetDuration : Q) (outputPath : option jsstring) : M jsstring :=
  let output := orElse outputPath (insertBeforeExt (lit "_extended") inputPath) in
  (duration <- ffprobe env inputPath ;;
   let inputDuration := match duration with Some d => d | None => 0 end in
   if Qle_bool targetDuration inputDuration then ret inputPath
   else
     m <- readMedia env inputPath ;;
     match video m with
     | None => throw (mediaError env)
     | Some v =>
         lift (extendFfmpeg env) ;;
         writeFile output
           (MediaFile {| video := Some (freezeFrame v inputDuration targetDuration);
                         audio := audio m |}) ;;
         ret output
     end)%js.

End VideoUtils.

(* ===================================================================== *)
(** ** ttsService.ts                                                      *)
(* ===================================================================== *)

Module TTSService.
Import Js Runtime.
Local Open Scope js_scope.

(** [EmotionSettings]: six sliders, 0 to 100. *)
Record EmotionSettings := {
  happy : Q; sad : Q; angry : Q; fearful : Q; surprised : Q; calm : Q
}.

Record EmotionVectors := {
  vec1 : Q; vec2 : Q; vec3 : Q; vec4 : Q;
  vec5 : Q; vec6 : Q; vec7 : Q; vec8 : Q;
  emoWeight : Q
}.

Definition toVector (value : Q) : Q :=
  if Qle_bool value 20 then 0
  else Math_min (7 # 5) (((value - 20) / 80) * (7 # 5)).

Definition maxEmotion (e : EmotionSettings) : Q :=
  Math_max (happy e) (Math_max (sad e) (Math_max (angry e)
    (Math_max (fearful e) (Math_max (surprised e) (calm e))))).

Definition mapEmotionsToVectors (emotions : option EmotionSettings) : EmotionVectors :=
  match emotions with
  | None =>
      {| vec1 := 0; vec2 := 0; vec3 := 0; vec4 := 0;
         vec5 := 0; vec6 := 0; vec7 := 0; vec8 := 0; emoWeight := 3 # 5 |}
  | Some emotions =>
      let maxEmotion := maxEmotion emotions in
      let emoWeight :=
        if negb (Qle_bool maxEmotion 70) then 1
        else if negb (Qle_bool maxEmotion 40) then 17 # 20 else 7 # 10 in
      {| vec1 := toVector (happy emotions);
         vec2 := toVector (angry emotions);
         vec3 := toVector (sad emotions);
         vec4 := toVector (fearful emotions);
         vec5 := 0;
         vec6 := 0;
         vec7 := toVector (surprised emotions);
         vec8 := toVector (calm emotions);
         emoWeight := emoWeight |}
  end.







(** Errors are rethrown with the provider's prefix. *)
Definition wrapError {A} (prefix : string) (m : M A) : M A :=
  tryCatch m (fun message => throw (lit prefix ++ message)).

Definition generateSpeechWithEdgeTTS (env : Env) (text outputPath : jsstring)
           (emotions : option EmotionSettings) : M jsstring :=
  wrapError "Edge TTS generation failed: "
    (modify (record CallEdgeTTS) ;;
     d <- lift (edgeTTS env) ;;
     let mp3Path := replaceFirst (lit ".wav") (lit "_temp.mp3") outputPath in
     writeFile mp3Path (audioOnly d) ;;
     lift (edgeConvert env) ;;
     writeFile outputPath (audioOnly d) ;;
     tryCatch (unlink mp3Path) (fun _ => ret tt) ;;
     ret outputPath)%js.

Definition generateSpeechWithK2FSA (env : Env) (text outputPath : jsstring) : M jsstring :=
  wrapError "K2FSA TTS generation failed: "
    (modify (record CallK2FSA) ;;
     d <- lift (k2fsaTTS env) ;;
     writeFile outputPath (audioOnly d) ;;
     ret outputPath)%js.

Inductive OpenAIVoice := alloy | echo | fable | onyx | nova | shimmer.

Definition openaiParams (emotions : option EmotionSettings) : OpenAIVoice * Q :=
  match emotions with
  | None => (nova, 1)
  | Some emotions =>
      if negb (Qle_bool (maxEmotion emotions) 50) then
        if negb (Qle_bool (happy emotions) 70) then (shimmer, 11 # 10)
        else if negb (Qle_bool (sad emotions) 70) then (fable, 9 # 10)
        else if negb (Qle_bool (angry emotions) 70) then (onyx, 21 # 20)
        else if negb (Qle_bool (fearful emotions) 70) then (echo, 23 # 20)
        else if negb (Qle_bool (calm emotions) 70) then (alloy, 19 # 20)
        else (nova, 1)
      else (nova, 1)
  end.

Definition generateSpeechWithOpenAI (env : Env) (text outputPath : jsstring)
           (emotions : option EmotionSettings) : M jsstring :=
  (if openaiKey env then
     wrapError "OpenAI TTS generation failed: "
       (modify (record CallOpenAI) ;;
        d <- lift (openaiTTS env) ;;
        let mp3Path := replaceFirst (lit ".wav") (lit "_openai_temp.mp3") outputPath in
        writeFile mp3Path (audioOnly d) ;;
        lift (openaiConvert env) ;;
        writeFile outputPath (audioOnly d) ;;
        tryCatch (unlink mp3Path) (fun _ => ret tt) ;;
        ret outputPath)
   else throw (lit "OPENAI_API_KEY not configured"))%js.

Definition generateSilentAudio (env : Env) (outputPath : jsstring) (duration : option Q)
  : M jsstring :=
  let duration := match duration with Some d => d | None => 10 end in
  (lift (silenceFfmpeg env) ;;
   writeFile outputPath (audioOnly duration) ;;
   ret outputPath)%js.

End TTSService.

(* ===================================================================== *)
(** ** videoProcessor.ts                                                  *)
(* ===================================================================== *)

Module VideoProcessor.
Import Js Runtime DurationPolicy SubtitleUtils AudioUtils VideoUtils TTSService.
Local Open Scope js_scope.

Inductive VideoType := emotive | informative.

(** [ProcessingJob]; the calls of [onProgress] are kept in
    [notifications]. *)
Record ProcessingJob := {
  job_projectId : jsstring;
  title : jsstring;
  script : jsstring;
  videoType : VideoType;
  emotions : option EmotionSettings
}.

Definition updateProgress (projectId : jsstring) (stage : ProcessingStage)
           (progress : Z) (currentStep : jsstring) (error : option jsstring) : M unit :=
  let status := {| projectId := projectId; stage := stage; progress := progress;
                   currentStep := currentStep; error_ := error |} in
  (modify (setStatuses (insert projectId status)) ;;
   modify (notify status))%js.

Definition generateTTSPlaceholder (env : Env) (projectId script : jsstring)
           (emotions : option EmotionSettings) : M jsstring :=
  let audioPath := tempPath env (projectId ++ lit "_audio.wav") in
  tryCatch
    (generateSpeechWithEdgeTTS env script audioPath emotions ;;
     ret audioPath)%js
    (fun edgeError =>
       tryCatch
         (generateSpeechWithK2FSA env script audioPath ;;
          ret audioPath)%js
         (fun k2fsaError =>
            let estimation := estimateSpeechDuration script in
            (lift (silenceFfmpeg env) ;;
             writeFile audioPath (audioOnly (seconds (targetDuration estimation))) ;;
             ret audioPath)%js)).

Definition generateMusicPlaceholder (env : Env) (projectId : jsstring)
           (videoType : VideoType) (duration : Q) : M jsstring :=
  let musicPath := tempPath env (projectId ++ lit "_music.mp3") in
  (lift (musicFfmpeg env) ;;
   writeFile musicPath (audioOnly duration) ;;
   ret musicPath)%js.

Definition generateVideoPlaceholder (env : Env) (projectId script : jsstring)
           (audioDuration : Q) : M jsstring :=
  if negb (cometApiKey env)
  then throw (lit "COMETAPI_API_KEY environment variable is required")
  else
    let videoPath := tempPath env (projectId ++ lit "_bg.mp4") in
    wrapError "Failed to generate video with Sora 2: "
      (modify (record (CallSora audioDuration)) ;;
       clip <- lift (sora env audioDuration) ;;
       let '(d, sound) := clip in
       writeFile videoPath
         (MediaFile {| video := Some d; audio := if sound then Some d else None |}) ;;
       ret videoPath)%js.

Definition cleanupTempFiles (files : list jsstring) : M unit :=
  fold_right (fun file rest => (tryCatch (unlink file) (fun _ => ret tt) ;; rest)%js)
             (ret tt) files.

(** The [amix] filter of the compositing pass. *)
Inductive AmixDuration := longest | shortest | first.

Record Amix := {
  amixInputs : list nat;       (* the input files whose sound is mixed *)
  amixDuration : AmixDuration;
  amixWeights : list jsstring
}.

Definition amixDurationName (d : AmixDuration) : jsstring :=
  match d with
  | longest => lit "longest" | shortest => lit "shortest" | first => lit "first"
  end.

Definition renderAmix (f : Amix) : jsstring :=
  List.concat (List.map (fun i => lit "[" ++ intToString (Z.of_nat i) ++ lit ":a]")
                        (amixInputs f))
    ++ lit "amix=inputs=" ++ intToString (Z.of_nat (List.length (amixInputs f)))
    ++ lit ":duration=" ++ amixDurationName (amixDuration f)
    ++ lit ":weights=" ++ join (lit " ") (amixWeights f) ++ lit "[audio]".

Definition audioMix : Amix :=
  {| amixInputs := [1%nat; 2%nat]; amixDuration := first;
     amixWeights := [lit "1"; lit "0.2"] |}.

Definition audioFilter : jsstring :=
  lit "[1:a][2:a]amix=inputs=2:duration=first:weights=1 0.2[audio]".

(** How long the output of [amix] lasts, from the durations of its
    inputs in order. *)
Definition amixLength (d : AmixDuration) (lengths : list Q) : Q :=
  match lengths with
  | [] => 0
  | l :: rest =>
      match d with
      | longest => fold_left Qmax rest l
      | shortest => fold_left Qmin rest l
      | first => l
      end
  end.

Definition escapeText (text : jsstring) : jsstring :=
  let s1 := replaceEach (fun c => if N.eqb c 92 then [92%N; 92%N] else [c]) text in
  replaceEach (fun c => if N.eqb c 39
                        then [39%N; 92%N; 92%N; 92%N; 39%N; 39%N] else [c]) s1.

Definition titleOverlay (cleanTitle : jsstring) : jsstring :=
  lit "drawtext=text='" ++ cleanTitle
    ++ lit "':fontfile=/usr/share/fonts/truetype/dejavu/DejaVuSans-Bold.ttf:fontsize=48:fontcolor=white:x=(w-text_w)/2:y=100:shadowcolor=black:shadowx=2:shadowy=2".

Definition staticSubtitleOverlay (cleanSubtitle : jsstring) : jsstring :=
  lit "drawtext=text='" ++ cleanSubtitle
    ++ lit "':fontfile=/usr/share/fonts/truetype/dejavu/DejaVuSans.ttf:fontsize=32:fontcolor=white:x=(w-text_w)/2:y=h-200:shadowcolor=black:shadowx=2:shadowy=2".

Definition staticSubtitleText (script : jsstring) : jsstring :=
  substring0 100 script ++ (if (100 <? List.length script)%nat then lit "..." else []).

Definition videoFilter (script title : jsstring) (subtitlePath : option jsstring)
  : jsstring :=
  let cleanTitle := escapeText title in
  match subtitlePath with
  | Some subtitlePath =>
      if truthy subtitlePath then
        let escapedSubPath := escapeSubtitlePath subtitlePath in
        lit "[0:v]ass='" ++ escapedSubPath ++ lit "'," ++ titleOverlay cleanTitle
          ++ lit "[video]"
      else
        lit "[0:v]" ++ titleOverlay cleanTitle ++ lit ","
          ++ staticSubtitleOverlay (escapeText (staticSubtitleText script)) ++ lit "[video]"
  | None =>
      lit "[0:v]" ++ titleOverlay cleanTitle ++ lit ","
        ++ staticSubtitleOverlay (escapeText (staticSubtitleText script)) ++ lit "[video]"
  end.

Record ComposeOptions := {
  c_projectId : jsstring;
  c_audioPath : jsstring;
  c_musicPath : jsstring;
  c_bgVideoPath : jsstring;
  c_script : jsstring;
  c_title : jsstring;
  c_subtitlePath : option jsstring;
  c_audioDuration : option Q
}.

(** One ffmpeg run over the background video (input 0), the speech
    (input 1) and the music (input 2).  The picture of the output is the
    [[video]] pad, filtered from [[0:v]]; its sound is the [[audio]] pad.
    The temporary inputs are unlinked once the run has ended; the source
    starts that clean-up without awaiting it, and no later step reads the
    files it removes. *)
Definition composeVideo (env : Env) (options : ComposeOptions) : M jsstring :=
  let outputPath := tempPath env (c_projectId options ++ lit "_final.mp4") in
  (bg <- readMedia env (c_bgVideoPath options) ;;
   speech <- readMedia env (c_audioPath options) ;;
   music <- readMedia env (c_musicPath options) ;;
   match video bg, audio speech, audio music with
   | Some v, Some a1, Some a2 =>
       modify (record (CallFfmpegCompose bg speech music audioFilter
                         (videoFilter (c_script options) (c_title options)
                                      (c_subtitlePath options)))) ;;
       lift (composeFfmpeg env) ;;
       writeFile outputPath
         (MediaFile {| video := Some v;
                       audio := Some (amixLength (amixDuration audioMix) [a1; a2]) |}) ;;
       let filesToClean :=
         [c_audioPath options; c_musicPath options; c_bgVideoPath options]
           ++ match c_subtitlePath options with
              | Some p => if truthy p then [p] else []
              | None => []
              end in
       cleanupTempFiles filesToClean ;;
       ret outputPath
   | _, _, _ => throw (mediaError env)
   end)%js.

Definition videoUrlOf (projectId : jsstring) : jsstring :=
  lit "/api/projects/" ++ projectId ++ lit "/video".

(** [storage.updateProject(id, updates)]: the row, when there is one, takes
    the columns that [updates] names. *)
Definition updateProject (r : Result unit) (id : jsstring)
           (updates : ProjectRow) : M unit :=
  (lift r ;;
   modify (setProjects (alter (fun row =>
     {| driveFileId := match driveFileId updates with
                       | Some x => Some x | None => driveFileId row end;
        driveWebViewLink := match driveWebViewLink updates with
                            | Some x => Some x | None => driveWebViewLink row end;
        videoUrl := match videoUrl updates with
                    | Some x => Some x | None => videoUrl row end |}) id)))%js.

(** [uploadVideoToDrive] of googleDrive.ts: the file is streamed to the
    drive under [fileName]. *)
Definition uploadVideoToDrive (env : Env) (filePath fileName : jsstring)
  : M UploadVideoResult :=
  fun w => match fs w !! filePath with
           | Some content =>
               (modify (record (CallDriveUpload fileName content)) ;;
                lift (driveUpload env))%js w
           | None => (Throw (lit "ENOENT: no such file or directory"), w)
           end.

(** [/[^a-z0-9]/gi] *)
Definition isAlnum (c : char) : bool :=
  ((48 <=? c) && (c <=? 57))%N || ((65 <=? c) && (c <=? 90))%N
  || ((97 <=? c) && (c <=? 122))%N.

Definition driveFileName (title projectId : jsstring) : jsstring :=
  replaceEach (fun c => if isAlnum c then [c] else lit "_") title
    ++ lit "_" ++ projectId ++ lit ".mp4".

(** The body of the [try] block of [executeJob]. *)
Definition runStages (env : Env) (job : ProcessingJob) : M jsstring :=
  let projectId := job_projectId job in
  (modify (setActiveJobs (insert projectId true)) ;;

   updateProgress projectId analyzing 10
     (lit "Extracting key themes and emotional beats") None ;;

   updateProgress projectId generating_tts 30
     (lit "Synthesizing voiceover narration") None ;;
   audioPath <- generateTTSPlaceholder env projectId (script job) (emotions job) ;;

   actualAudioDuration <- getAudioDuration env audioPath ;;

   let durationDecision := decideSoraDuration actualAudioDuration in
   let targetDuration := seconds (targetDuration durationDecision) in

   let videoExtensionNeeded := Math_max 0 (actualAudioDuration - targetDuration) in

   updateProgress projectId generating_music 50
     (lit "Composing background music") None ;;
   musicPath <- generateMusicPlaceholder env projectId (videoType job)
                  actualAudioDuration ;;

   updateProgress projectId generating_video 70
     (lit "Creating visual content with Sora 2") None ;;
   bgVideoPath <- generateVideoPlaceholder env projectId (script job) targetDuration ;;

   bgVideoPath <- (if negb (Qle_bool videoExtensionNeeded (1 # 10))
                   then extendVideoToAudioLength env bgVideoPath actualAudioDuration None
                   else ret bgVideoPath) ;;

   updateProgress projectId composing 85
     (lit "Adding subtitles and compositing layers") None ;;

   let subtitleBasePath := tempPath env (projectId ++ lit "_subtitles.ass") in
   subtitlePath <- generateSubtitleFile env (script job) actualAudioDuration
                     subtitleBasePath ;;

   outputPath <- composeVideo env
     {| c_projectId := projectId;
        c_audioPath := audioPath;
        c_musicPath := musicPath;
        c_bgVideoPath := bgVideoPath;
        c_script := script job;
        c_title := title job;
        c_subtitlePath := subtitlePath;
        c_audioDuration := Some actualAudioDuration |} ;;

   updateProgress projectId composing 95 (lit "Finalizing video") None ;;
   let fileName := driveFileName (title job) projectId in

   tryCatch
     (driveResult <- uploadVideoToDrive env outputPath fileName ;;
      updateProject (dbUpdateAfterUpload env) projectId
        {| driveFileId := Some (fileId driveResult);
           driveWebViewLink := Some (webViewLink driveResult);
           videoUrl := Some (videoUrlOf projectId) |} ;;
      cleanupTempFiles [outputPath])
     (fun driveError =>
        updateProject (dbUpdateLocal env) projectId
          {| driveFileId := None; driveWebViewLink := None;
             videoUrl := Some (videoUrlOf projectId) |}) ;;

   updateProgress projectId complete 100 (lit "Video generation complete") None ;;

   ret projectId)%js.

Definition executeJob (env : Env) (job : ProcessingJob) : M jsstring :=
  let projectId := job_projectId job in
  tryFinally
    (tryCatch (runStages env job)
       (fun errorMessage =>
          (updateProgress projectId error 0 errorMessage (Some errorMessage) ;;
           throw errorMessage)%js))
    (setActiveJobs (delete projectId)).

Definition getVideoPath (env : Env) (projectId : jsstring) : M (option jsstring) :=
  let outputPath := tempPath env (projectId ++ lit "_final.mp4") in
  tryCatch (access outputPath ;; ret (Some outputPath))%js (fun _ => ret None).

Definition cleanupProject (env : Env) (projectId : jsstring) : M unit :=
  let patterns :=
    [projectId ++ lit "_audio.wav";
     projectId ++ lit "_audio.mp3";
     projectId ++ lit "_music.mp3";
     projectId ++ lit "_bg.mp4";
     projectId ++ lit "_final.mp4";
     projectId ++ lit "_subtitles.ass"] in
  fold_right (fun pattern rest =>
                (tryCatch (unlink (tempPath env pattern)) (fun _ => ret tt) ;; rest)%js)
             (ret tt) patterns.

End VideoProcessor.

(* ===================================================================== *)
(** ** The job queue of [VideoProcessor]                                  *)
(* ===================================================================== *)

(** [processVideo], [processQueue] and the settling of [executeJob] as the
    event loop runs them: each step below is one run-to-completion section
    of the source, and steps of different invocations interleave freely. *)
Module JobQueue.
Import Js Runtime VideoProcessor.

(** The notifications of a job that meets no error, in program order. *)
Definition stagePlan : list (ProcessingStage * Z) :=
  [(analyzing, 10%Z); (generating_tts, 30%Z); (generating_music, 50%Z);
   (generating_video, 70%Z); (composing, 85%Z); (composing, 95%Z);
   (complete, 100%Z)].

(** A submitted job with the rank of its submission. *)
Record Ticketed := {
  ticket : nat;
  qjob : ProcessingJob
}.

(** Where an invocation of [executeJob] stands: [Running pc] has made the
    first [pc] notifications of the plan; [Finishing] has made its last
    notification ([complete] or [error]) and has yet to run its [finally]
    block; [Settled] has left [executeJob], and the [processQueue] that
    awaits it has yet to resume. *)
Inductive Phase := Running (pc : nat) | Finishing | Settled.

Record Exec := {
  exec_job : Ticketed;
  phase : Phase
}.

Inductive Event :=
| Started (t : nat)
| Callback (t : nat) (stage : ProcessingStage) (progress : Z).

Definition ev_ticket (e : Event) : nat :=
  match e with Started t => t | Callback t _ _ => t end.

Definition terminal (e : Event) : bool :=
  match e with
  | Callback _ complete _ | Callback _ error _ => true
  | _ => false
  end.

Record State := {
  jobQueue : list Ticketed;
  isProcessingQueue : bool;
  activeJobs : gmap jsstring bool;
  executing : list Exec;       (* invocations of [executeJob] not yet resumed from *)
  immediates : nat;            (* pending [setImmediate] callbacks *)
  nextTicket : nat;
  trace : list Event           (* oldest first *)
}.

Definition MAX_CONCURRENT_JOBS : nat := 1.

Definition stage_is_complete (st : ProcessingStage) : bool :=
  match st with complete => true | _ => false end.

Definition init : State :=
  {| jobQueue := []; isProcessingQueue := false; activeJobs := ∅;
     executing := []; immediates := 0; nextTicket := 0; trace := [] |}.

(** [processQueue] up to its [await]: the guard, the shift, the flag, and
    the synchronous head of [executeJob] ([activeJobs.set]). *)
Definition processQueue (s : State) : State :=
  if isProcessingQueue s || (MAX_CONCURRENT_JOBS <=? size (activeJobs s))%nat then s
  else
    match jobQueue s with
    | [] => s
    | queuedJob :: rest =>
        {| jobQueue := rest;
           isProcessingQueue := true;
           activeJobs := <[job_projectId (qjob queuedJob) := true]> (activeJobs s);
           executing := executing s ++ [{| exec_job := queuedJob; phase := Running 0 |}];
           immediates := immediates s;
           nextTicket := nextTicket s;
           trace := trace s ++ [Started (ticket queuedJob)] |}
    end.

(** [processVideo]: push, then [processQueue]. *)
Definition processVideo (job : ProcessingJob) (s : State) : State :=
  processQueue
    {| jobQueue := jobQueue s ++ [{| ticket := nextTicket s; qjob := job |}];
       isProcessingQueue := isProcessingQueue s;
       activeJobs := activeJobs s;
       executing := executing s;
       immediates := immediates s;
       nextTicket := S (nextTicket s);
       trace := trace s |}.

Definition setExec (l : list Exec) (evs : list Event) (s : State) : State :=
  {| jobQueue := jobQueue s; isProcessingQueue := isProcessingQueue s;
     activeJobs := activeJobs s; executing := l; immediates := immediates s;
     nextTicket := nextTicket s; trace := trace s ++ evs |}.

Inductive step : State -> State -> Prop :=
(** A request handler submits a job. *)
| step_submit s job :
    step s (processVideo job s)
(** A running job makes its next notification. *)
| step_callback s l1 j pc l2 stage progress :
    executing s = l1 ++ {| exec_job := j; phase := Running pc |} :: l2 ->
    nth_error stagePlan pc = Some (stage, progress) ->
    step s (setExec (l1 ++ {| exec_job := j;
                              phase := if stage_is_complete stage then Finishing
                                       else Running (S pc) |} :: l2)
                    [Callback (ticket j) stage progress] s)
(** A stage of a running job throws: the [catch] block notifies [error]. *)
| step_fail s l1 j pc l2 :
    executing s = l1 ++ {| exec_job := j; phase := Running pc |} :: l2 ->
    (2 <= pc)%nat ->
    step s (setExec (l1 ++ {| exec_job := j; phase := Finishing |} :: l2)
                    [Callback (ticket j) error 0%Z] s)
(** The [finally] block of [executeJob]. *)
| step_finally s l1 j l2 :
    executing s = l1 ++ {| exec_job := j; phase := Finishing |} :: l2 ->
    step s {| jobQueue := jobQueue s; isProcessingQueue := isProcessingQueue s;
              activeJobs := delete (job_projectId (qjob j)) (activeJobs s);
              executing := l1 ++ {| exec_job := j; phase := Settled |} :: l2;
              immediates := immediates s; nextTicket := nextTicket s;
              trace := trace s |}
(** [processQueue] resumes after its [await]: the [finally] block. *)
| step_resume s l1 j l2 :
    executing s = l1 ++ {| exec_job := j; phase := Settled |} :: l2 ->
    step s {| jobQueue := jobQueue s; isProcessingQueue := false;
              activeJobs := activeJobs s;
              executing := l1 ++ l2;
              immediates := if (0 <? List.length (jobQueue s))%nat
                            then S (immediates s) else immediates s;
              nextTicket := nextTicket s;
              trace := trace s |}
(** A [setImmediate] callback runs [processQueue]. *)
| step_immediate s n :
    immediates s = S n ->
    step s (processQueue
              {| jobQueue := jobQueue s; isProcessingQueue := isProcessingQueue s;
                 activeJobs := activeJobs s; executing := executing s;
                 immediates := n; nextTicket := nextTicket s; trace := trace s |}).

Inductive reachable : State -> Prop :=
| reach_init : reachable init
| reach_step s s' : reachable s -> step s s' -> reachable s'.

End JobQueue.

(* ===================================================================== *)
(** ** soraApi.ts: the request headers of [SoraVideoService]              *)
(* ===================================================================== *)

Module SoraApi.
Import Js.

(** [s.includes(pat)] *)
Fixpoint includes (pat s : jsstring) : bool :=
  startsWith pat s
  || match s with
     | [] => false
     | _ :: s' => includes pat s'
     end.

Record Headers := {
  contentType : option jsstring;
  authorization : option jsstring
}.

(** [getHeaders], for the requests that submit and poll a task. *)
Definition getHeaders (apiKey : jsstring) : Headers :=
  let authHeader :=
    if startsWith (lit "Bearer ") apiKey then apiKey else lit "Bearer " ++ apiKey in
  {| contentType := Some (lit "application/json");
     authorization := Some authHeader |}.

(** The headers that [downloadVideo] sends with its request. *)
Definition downloadVideo_headers (apiKey url : jsstring) : Headers :=
  {| contentType := None;
     authorization := if includes (lit "cometapi.com") url
                      then Some (lit "Bearer " ++ apiKey) else None |}.

End SoraApi.

(* ===================================================================== *)
(** ** Vocabulary of the properties                                       *)
(* ===================================================================== *)

Module Vocabulary.
Import Js Runtime DurationPolicy SubtitleUtils AudioUtils VideoUtils TTSService VideoProcessor.

(** A string has ink when one of its code units is not white space. *)
Definition hasInk (s : jsstring) : bool := existsb (fun c => negb (isSpace c)) s.

(** A matcher consumes white space only when its match never extends past
    the run of white space at the position. *)
Definition spaceMatcher (m : matcher) : Prop :=
  forall prev s n, m prev s = Some n -> (n <= spanSpaces s)%nat.

(** Some string of the list has ink. *)
Definition inked (l : list jsstring) : Prop := Exists (fun s => hasInk s = true) l.

(** Invariant of the clause loop of [splitIntoSegments]: it only appends to
    [segments], what it keeps in [currentSegment] has ink, and once a clause
    with ink has been seen a segment with ink is appended or pending. *)
Record clauseInv (base : list jsstring) (seen : bool) (st : ClauseState) : Prop := {
  ci_ext : exists extra, segments_ st = base ++ extra
                         /\ (seen = true -> inked extra \/ currentSegment st <> []);
  ci_cur : Forall (fun s => hasInk s = true) (currentSegment st)
}.

(** The files of a project in the temporary directory. *)
Definition audioPathOf (env : Env) (pid : jsstring) : jsstring :=
  tempPath env (pid ++ lit "_audio.wav").
Definition musicPathOf (env : Env) (pid : jsstring) : jsstring :=
  tempPath env (pid ++ lit "_music.mp3").
Definition bgPathOf (env : Env) (pid : jsstring) : jsstring :=
  tempPath env (pid ++ lit "_bg.mp4").
Definition bgExtendedPathOf (env : Env) (pid : jsstring) : jsstring :=
  tempPath env (pid ++ lit "_bg_extended.mp4").
Definition subtitlePathOf (env : Env) (pid : jsstring) : jsstring :=
  tempPath env (pid ++ lit "_subtitles.ass").
Definition finalPathOf (env : Env) (pid : jsstring) : jsstring :=
  tempPath env (pid ++ lit "_final.mp4").

(** A step leaves the job bookkeeping alone. *)
Definition sameStatus (w w' : World) : Prop :=
  processingStatuses w' = processingStatuses w
  /\ projects w' = projects w
  /\ activeJobs w' = activeJobs w
  /\ notifications w' = notifications w.

(** The speech that Edge TTS delivers, conversion included. *)
Definition edgeSpeech (env : Env) : option Q :=
  match edgeTTS env, edgeConvert env with
  | Ok d, Ok _ => Some d
  | _, _ => None
  end.

(** The duration of the speech artifact that the fallback chain leaves,
    when it leaves one. *)
Definition speechOf (env : Env) (script : jsstring) : option Q :=
  match edgeSpeech env with
  | Some d => Some d
  | None =>
      match k2fsaTTS env with
      | Ok d => Some d
      | Throw _ =>
          match silenceFfmpeg env with
          | Ok _ => Some (seconds (targetDuration (estimateSpeechDuration script)))
          | Throw _ => None
          end
      end
  end.

(** The speech providers that the fallback chain calls, in order. *)
Definition ttsCalls (env : Env) : list ExternalCall :=
  match edgeSpeech env with
  | Some _ => [CallEdgeTTS]
  | None => [CallEdgeTTS; CallK2FSA]
  end.

(** The clip that the video stage stores for a request of [target] seconds. *)
Definition clipOf (env : Env) (target : Q) : option (Q * bool) :=
  if cometApiKey env then
    match sora env target with
    | Ok c => Some c
    | Throw _ => None
    end
  else None.

Definition clipMedia (d : Q) (sound : bool) : Media :=
  {| video := Some d; audio := if sound then Some d else None |}.

(** The length of the picture that reaches the compositing pass. *)
Definition pictureOf (env : Env) (clip : Q) (sound : bool) (measured target : Q)
  : option Q :=
  if negb (Qle_bool (Qmax 0 (measured - target)) (1 # 10)) then
    match formatDuration (clipMedia clip sound) with
    | Some inputDuration =>
        if Qle_bool measured inputDuration then Some clip
        else match extendFfmpeg env with
             | Ok _ => Some (freezeFrame clip inputDuration measured)
             | Throw _ => None
             end
    | None => None
    end
  else Some clip.

(** Whether a caption track is written ([Some true]), skipped
    ([Some false]) or fails to be written ([None]). *)
Definition captionsOf (env : Env) (script : jsstring) (measured : Q) : option bool :=
  if hasInk script && negb (Qle_bool measured 0) then
    match subtitleWrite env with
    | Ok _ => Some true
    | Throw _ => None
    end
  else Some false.

(** The final asset reaches the drive and the project row records it. *)
Definition uploaded (env : Env) : bool :=
  match driveUpload env, dbUpdateAfterUpload env with
  | Ok _, Ok _ => true
  | _, _ => false
  end.

Definition storeOk (env : Env) : bool :=
  uploaded env || match dbUpdateLocal env with Ok _ => true | Throw _ => false end.

(** A computation that makes no notification and leaves the status store
    and the active-job table alone. *)
Definition quiet {A} (m : M A) : Prop :=
  forall w r w', m w = (r, w') ->
    notifications w' = notifications w
    /\ processingStatuses w' = processingStatuses w
    /\ activeJobs w' = activeJobs w.

(** The sizes that bind the artifacts of one job together. *)
Record Sizing := {
  sz_speech : Q;            (* duration of the speech artifact *)
  sz_measured : Q;          (* what [getAudioDuration] reports for it *)
  sz_target : SoraDuration; (* the clip tier requested from Sora *)
  sz_clip : Q;              (* duration of the clip Sora delivered *)
  sz_sound : bool;          (* whether the clip has sound *)
  sz_picture : Q;           (* picture length given to the compositing pass *)
  sz_captions : bool        (* whether a timed caption track was written *)
}.

(** The sizes of a job as the outcomes of its external calls determine
    them; there are none when some stage of the job throws. *)
Definition sizing (env : Env) (job : ProcessingJob) : option Sizing :=
  match speechOf env (script job) with
  | None => None
  | Some speech =>
      if Qeq_bool speech 0 then None
      else
        let measured := roundUpDuration speech in
        let target := targetDuration (decideSoraDuration measured) in
        match musicFfmpeg env with
        | Throw _ => None
        | Ok _ =>
            match clipOf env (seconds target) with
            | None => None
            | Some (clip, sound) =>
                match pictureOf env clip sound measured (seconds target) with
                | None => None
                | Some picture =>
                    match captionsOf env (script job) measured with
                    | None => None
                    | Some captions =>
                        match composeFfmpeg env with
                        | Throw _ => None
                        | Ok _ =>
                            if storeOk env
                            then Some {| sz_speech := speech;
                                         sz_measured := measured;
                                         sz_target := target;
                                         sz_clip := clip;
                                         sz_sound := sound;
                                         sz_picture := picture;
                                         sz_captions := captions |}
                            else None
                        end
                    end
                end
            end
        end
  end.

(** The notifications of a job that meets no error. *)
Definition planStatuses (pid : jsstring) : list ProcessingStatus :=
  [ {| projectId := pid; stage := analyzing; progress := 10;
       currentStep := lit "Extracting key themes and emotional beats"; error_ := None |};
    {| projectId := pid; stage := generating_tts; progress := 30;
       currentStep := lit "Synthesizing voiceover narration"; error_ := None |};
    {| projectId := pid; stage := generating_music; progress := 50;
       currentStep := lit "Composing background music"; error_ := None |};
    {| projectId := pid; stage := generating_video; progress := 70;
       currentStep := lit "Creating visual content with Sora 2"; error_ := None |};
    {| projectId := pid; stage := composing; progress := 85;
       currentStep := lit "Adding subtitles and compositing layers"; error_ := None |};
    {| projectId := pid; stage := composing; progress := 95;
       currentStep := lit "Finalizing video"; error_ := None |};
    {| projectId := pid; stage := complete; progress := 100;
       currentStep := lit "Video generation complete"; error_ := None |} ].

(** The notification of the [catch] block of [executeJob]. *)
Definition errorStatus (pid message : jsstring) : ProcessingStatus :=
  {| projectId := pid; stage := error; progress := 0;
     currentStep := message; error_ := Some message |}.

(** How many notifications of the plan a job makes before it completes or
    throws, as the outcomes of its external calls determine it. *)
Definition stagesReached (env : Env) (job : ProcessingJob) : nat :=
  match speechOf env (script job) with
  | None => 2
  | Some speech =>
      if Qeq_bool speech 0 then 2
      else
        let measured := roundUpDuration speech in
        let target := targetDuration (decideSoraDuration measured) in
        match musicFfmpeg env with
        | Throw _ => 3
        | Ok _ =>
            match clipOf env (seconds target) with
            | None => 4
            | Some (clip, sound) =>
                match pictureOf env clip sound measured (seconds target) with
                | None => 4
                | Some picture =>
                    match captionsOf env (script job) measured with
                    | None => 5
                    | Some captions =>
                        match composeFfmpeg env with
                        | Throw _ => 5
                        | Ok _ => if storeOk env then 7 else 6
                        end
                    end
                end
            end
        end
  end%nat.

(** The compositing run of a job with sizes. *)
Definition composeCall (env : Env) (job : ProcessingJob) (sz : Sizing) : ExternalCall :=
  CallFfmpegCompose
    {| video := Some (sz_picture sz);
       audio := audio (clipMedia (sz_clip sz) (sz_sound sz)) |}
    {| video := None; audio := Some (sz_speech sz) |}
    {| video := None; audio := Some (sz_measured sz) |}
    audioFilter
    (videoFilter (script job) (title job)
       (if sz_captions sz then Some (subtitlePathOf env (job_projectId job)) else None)).

(** The composed asset: the picture of the background video and the
    speech-length mix. *)
Definition finalAsset (sz : Sizing) : File :=
  MediaFile {| video := Some (sz_picture sz); audio := Some (sz_speech sz) |}.

(** An environment in which every step succeeds except as its arguments
    say: the two speech providers, Sora, and the drive upload. *)
Definition sampleEnv (edge k2fsa : Result Q) (soraClip : Q -> Result (Q * bool))
           (upload : Result UploadVideoResult) : Env :=
  {| cwd := lit "/app";
     edgeTTS := edge;
     edgeConvert := Ok tt;
     k2fsaTTS := k2fsa;
     openaiTTS := Ok 3;
     openaiConvert := Ok tt;
     openaiKey := true;
     silenceFfmpeg := Ok tt;
     mediaError := lit "Invalid data found when processing input";
     musicFfmpeg := Ok tt;
     cometApiKey := true;
     sora := soraClip;
     extendFfmpeg := Ok tt;
     padFfmpeg := Ok tt;
     subtitleWrite := Ok tt;
     composeFfmpeg := Ok tt;
     driveUpload := upload;
     dbUpdateAfterUpload := Ok tt;
     dbUpdateLocal := Ok tt |}.

Definition sampleJob (script : jsstring) : ProcessingJob :=
  {| job_projectId := lit "p1";
     title := lit "Demo";
     script := script;
     videoType := informative;
     emotions := None |}.

Definition sampleUpload : UploadVideoResult :=
  {| fileId := lit "f1"; webViewLink := lit "view"; webContentLink := lit "content" |}.

(** Sora delivers a silent clip of exactly the seconds requested. *)
Definition exactSora (secs : Q) : Result (Q * bool) := Ok (secs, false).

(** The place of a stage on the forward path. *)
Definition stageRank (s : ProcessingStage) : nat :=
  match s with
  | analyzing => 0
  | generating_tts => 1
  | generating_music => 2
  | generating_video => 3
  | composing => 4
  | complete => 5
  | error => 6
  end.

(** A later notification reports no earlier stage and no smaller progress. *)
Definition inOrder (a b : ProcessingStatus) : Prop :=
  (progress a <= progress b)%Z /\ (stageRank (stage a) <= stageRank (stage b))%nat.

(** The calls to speech providers among the external calls. *)
Definition isSpeechCall (c : ExternalCall) : bool :=
  match c with
  | CallEdgeTTS | CallK2FSA | CallOpenAI => true
  | _ => false
  end.

(** The number of jobs that have left the queue. *)
Definition started (s : JobQueue.State) : nat :=
  JobQueue.nextTicket s - List.length (JobQueue.jobQueue s).

(** The job with ticket [t] has notified [complete] or [error]. *)
Definition finishedIn (tr : list JobQueue.Event) (t : nat) : Prop :=
  exists e, In e tr /\ JobQueue.ev_ticket e = t /\ JobQueue.terminal e = true.

Definition ticketOrder (a b : JobQueue.Event) : Prop :=
  (JobQueue.ev_ticket a <= JobQueue.ev_ticket b)%nat.

(** What holds of the queue between any two steps of the event loop. *)
Record queueInv (s : JobQueue.State) : Prop := {
  qi_one : (List.length (JobQueue.executing s) <= 1)%nat;
  qi_flag : JobQueue.isProcessingQueue s
            = match JobQueue.executing s with [] => false | _ :: _ => true end;
  qi_bound : (List.length (JobQueue.jobQueue s) <= JobQueue.nextTicket s)%nat;
  qi_fifo : List.map JobQueue.ticket (JobQueue.jobQueue s)
            = seq (started s) (List.length (JobQueue.jobQueue s));
  qi_current : forall e, In e (JobQueue.executing s) ->
                         S (JobQueue.ticket (JobQueue.exec_job e)) = started s;
  qi_active : JobQueue.activeJobs s
              = match JobQueue.executing s with
                | {| JobQueue.exec_job := j; JobQueue.phase := JobQueue.Running _ |} :: _
                | {| JobQueue.exec_job := j; JobQueue.phase := JobQueue.Finishing |} :: _ =>
                    {[ job_projectId (JobQueue.qjob j) := true ]}
                | _ => ∅
                end;
  qi_events : Forall (fun e => (JobQueue.ev_ticket e < started s)%nat) (JobQueue.trace s);
  qi_sorted : StronglySorted ticketOrder (JobQueue.trace s);
  qi_finished : forall t,
      (t < started s - List.length (JobQueue.executing s))%nat ->
      finishedIn (JobQueue.trace s) t;
  qi_ending : forall e, In e (JobQueue.executing s) ->
                        JobQueue.phase e = JobQueue.Finishing
                        \/ JobQueue.phase e = JobQueue.Settled ->
                        finishedIn (JobQueue.trace s)
                                   (JobQueue.ticket (JobQueue.exec_job e))
}.

(** An idle processor with waiting jobs has a [processQueue] call pending. *)
Definition queueLive (s : JobQueue.State) : Prop :=
  JobQueue.executing s = [] -> JobQueue.jobQueue s <> [] ->
  (1 <= JobQueue.immediates s)%nat.

(** A deployment in which every external step succeeds except the writing
    of caption files. *)
Definition noCaptionFilesEnv : Env :=
  {| cwd := lit "/app"; edgeTTS := Ok 5; edgeConvert := Ok tt; k2fsaTTS := Ok 5;
     openaiTTS := Ok 5; openaiConvert := Ok tt; openaiKey := false;
     silenceFfmpeg := Ok tt; mediaError := lit "Invalid data found";
     musicFfmpeg := Ok tt; cometApiKey := true; sora := exactSora;
     extendFfmpeg := Ok tt; padFfmpeg := Ok tt;
     subtitleWrite := Throw (lit "EACCES: permission denied");
     composeFfmpeg := Ok tt; driveUpload := Ok sampleUpload;
     dbUpdateAfterUpload := Ok tt; dbUpdateLocal := Ok tt |}.

(** The time stamp of an ASS event from its four fields. *)
Definition assStamp (h m s c : Z) : jsstring :=
  intToString h ++ lit ":" ++ padStart0 2 (intToString m) ++ lit ":"
    ++ padStart0 2 (intToString s) ++ lit "." ++ padStart0 2 (intToString c).

(** What [escapeSubtitlePath] and [escapeText] put in the place of one
    code unit of their argument. *)
Definition escapedPathUnit (c : char) : jsstring :=
  if N.eqb c 92 then [47%N]
  else if N.eqb c 58 then [92%N; 58%N]
  else if N.eqb c 39 then [39%N; 92%N; 39%N; 39%N]
  else [c].

Definition escapedTextUnit (c : char) : jsstring :=
  if N.eqb c 92 then [92%N; 92%N]
  else if N.eqb c 39 then [39%N; 92%N; 92%N; 92%N; 39%N; 39%N]
  else [c].

(** A computation leaves a view of the state as it was, whatever its
    outcome. *)
Definition frames {X A} (view : World -> X) (m : M A) : Prop :=
  forall w r w', m w = (r, w') -> view w' = view w.

(** The file at a path, as a view of the state. *)
Definition fileAt (q : jsstring) (w : World) : option File := fs w !! q.

(** A view that does not depend on the file system or on the log of
    external calls. *)
Definition offDisk {X} (view : World -> X) : Prop :=
  (forall f w, view (setFs f w) = view w)
  /\ (forall c w, view (record c w) = view w).

(** The values a computation can resolve with. *)
Definition yields {A} (P : A -> Prop) (m : M A) : Prop :=
  forall w a w', m w = (Ok a, w') -> P a.

(** The MP3 that Edge TTS stores before the conversion. *)
Definition edgeMp3PathOf (env : Env) (pid : jsstring) : jsstring :=
  replaceFirst (lit ".wav") (lit "_temp.mp3") (audioPathOf env pid).

(** The temporary files of a job. *)
Definition jobFiles (env : Env) (pid : jsstring) : list jsstring :=
  [audioPathOf env pid; edgeMp3PathOf env pid; musicPathOf env pid;
   bgPathOf env pid; bgExtendedPathOf env pid; subtitlePathOf env pid;
   finalPathOf env pid].

(** The freeze-frame extension runs: the measured speech exceeds the tier
    by more than a tenth of a second and the clip delivered is shorter
    than the speech. *)
Definition stretched (sz : Sizing) : bool :=
  negb (Qle_bool (Qmax 0 (sz_measured sz - seconds (sz_target sz))) (1 # 10))
  && negb (Qle_bool (sz_measured sz) (sz_clip sz)).

(** The row of a project once the upload stage has run. *)
Definition recordedRow (env : Env) (pid : jsstring) (row : ProjectRow) : ProjectRow :=
  match driveUpload env, dbUpdateAfterUpload env with
  | Ok result, Ok _ =>
      {| driveFileId := Some (fileId result);
         driveWebViewLink := Some (webViewLink result);
         videoUrl := Some (videoUrlOf pid) |}
  | _, _ =>
      {| driveFileId := driveFileId row;
         driveWebViewLink := driveWebViewLink row;
         videoUrl := Some (videoUrlOf pid) |}
  end.

(** What is left at the path of the MP3 of Edge TTS. *)
Definition edgeMp3Left (env : Env) (before : option File) : option File :=
  match edgeTTS env, edgeConvert env with
  | Ok _, Ok _ => None
  | Ok d, Throw _ => Some (audioOnly d)
  | Throw _, _ => before
  end.



End Vocabulary.
Import Vocabulary.

(* ===================================================================== *)
(** * Properties                                                          *)
(* ===================================================================== *)

Section NumberFacts.
Import Js.

Lemma Qfloor_le_iff (y : Q) (z : Z) :
  (Qfloor y <= z)%Z <-> y < inject_Z (z + 1).
Proof.
  split; intros H.
  - apply Qlt_le_trans with (inject_Z (Qfloor y + 1)); [apply Qlt_floor|].
    rewrite <- Zle_Qle. lia.
  - assert (Hlt : inject_Z (Qfloor y) < inject_Z (z + 1)).
    { apply Qle_lt_trans with y; [apply Qfloor_le | exact H]. }
    rewrite <- Zlt_Qlt in Hlt. lia.
Qed.

Lemma Qle_bool_true_iff (x y : Q) : Qle_bool x y = true <-> x <= y.
Proof. apply Qle_bool_iff. Qed.

Lemma Qle_bool_false_iff (x y : Q) : Qle_bool x y = false <-> y < x.
Proof.
  rewrite <- Bool.not_true_iff_false, Qle_bool_iff. split.
  - apply Qnot_le_lt.
  - apply Qlt_not_le.
Qed.

(** The tenth-rounded duration is at most an integer [k] exactly when the
    duration is below [k + 0.05]. *)
Lemma rounded_le_iff (d : Q) (k : Z) :
  Math_round (d * 10) / 10 <= inject_Z k <-> d < inject_Z k + (1 # 20).
Proof.
  unfold Math_round.
  assert (E : inject_Z (Qfloor (d * 10 + (1 # 2))) / 10 <= inject_Z k
              <-> (Qfloor (d * 10 + (1 # 2)) <= 10 * k)%Z).
  { rewrite Zle_Qle, inject_Z_mult. change (inject_Z 10) with 10.
    generalize (inject_Z (Qfloor (d * 10 + (1 # 2)))) (inject_Z k).
    intros f q. unfold Qdiv. change (/ 10) with (1 # 10).
    split; intros H; lra. }
  rewrite E, Qfloor_le_iff, inject_Z_plus, inject_Z_mult.
  change (inject_Z 10) with 10. change (inject_Z 1) with 1.
  split; intros H; lra.
Qed.

End NumberFacts.

Section DurationPolicyFacts.
Import Js DurationPolicy.

Lemma decide_target_cases (d : Q) :
  (d < 81 # 20 /\ targetDuration (decideSoraDuration d) = Sora4)
  \/ (81 # 20 <= d /\ d < 161 # 20 /\ targetDuration (decideSoraDuration d) = Sora8)
  \/ (161 # 20 <= d /\ targetDuration (decideSoraDuration d) = Sora12).
Proof.
  unfold decideSoraDuration; cbn [targetDuration].
  pose proof (rounded_le_iff d 4) as H4. pose proof (rounded_le_iff d 8) as H8.
  change (inject_Z 4) with 4 in H4. change (inject_Z 8) with 8 in H8.
  destruct (Qle_bool (Math_round (d * 10) / 10) 4) eqn:E4.
  - left. apply Qle_bool_true_iff in E4. apply H4 in E4. split; [lra | reflexivity].
  - apply Qle_bool_false_iff in E4.
    assert (~ d < 4 + (1 # 20)) by (intros X; apply H4 in X; lra).
    destruct (Qle_bool (Math_round (d * 10) / 10) 8) eqn:E8.
    + right; left. apply Qle_bool_true_iff in E8. apply H8 in E8.
      repeat split; [lra | lra].
    + right; right. apply Qle_bool_false_iff in E8.
      assert (~ d < 8 + (1 # 20)) by (intros X; apply H8 in X; lra).
      split; [lra | reflexivity].
Qed.

Lemma decide_extension (d : Q) :
  extensionNeeded (decideSoraDuration d)
  = Qmax 0 (d - seconds (targetDuration (decideSoraDuration d))).
Proof. reflexivity. Qed.

Lemma decide_warn (d : Q) :
  shouldWarn (decideSoraDuration d) = negb (Qle_bool d 12).
Proof. reflexivity. Qed.

End DurationPolicyFacts.

Section Claim1.
Import Js DurationPolicy.

(** What [decideSoraDuration] computes.  The tier is chosen by the duration
    rounded to the nearest tenth: 4 below 4.05, 8 from 4.05 to below 8.05,
    12 from 8.05 on.  It is the smallest tier that is at least [d],
    boundaries included, for every positive [d] up to 12 that does not lie
    within 0.05 above 4 or above 8; a [d] in one of these two bands gets the
    tier just below it.  Above 12 the result is 12 with
    [extensionNeeded = d - 12], [shouldWarn = true] and a non-empty
    message. *)
Lemma decideSoraDuration_bands (d : Q) :
  0 < d ->
  let dec := decideSoraDuration d in
  let t := seconds (targetDuration dec) in
  (targetDuration dec = Sora4 <-> d < 81 # 20)
  /\ (targetDuration dec = Sora8 <-> 81 # 20 <= d /\ d < 161 # 20)
  /\ (targetDuration dec = Sora12 <-> 161 # 20 <= d)
  /\ (d <= 12 -> ~ (4 < d /\ d < 81 # 20) -> ~ (8 < d /\ d < 161 # 20) ->
      d <= t /\ forall t' : SoraDuration, d <= seconds t' -> t <= seconds t')
  /\ ((4 < d /\ d < 81 # 20) \/ (8 < d /\ d < 161 # 20) ->
      t < d /\ extensionNeeded dec == d - t)
  /\ (12 < d ->
      targetDuration dec = Sora12 /\ extensionNeeded dec == d - 12
      /\ shouldWarn dec = true
      /\ exists m, warningMessage dec = Some m /\ m <> [])
  /\ (d <= 12 -> shouldWarn dec = false /\ warningMessage dec = None)
  /\ actualDuration dec = d.
Proof.
  intros Hpos dec t. subst t dec.
  pose proof (decide_target_cases d) as Hc.
  pose proof (decide_extension d) as He.
  pose proof (decide_warn d) as Hw.
  assert (Hmsg : warningMessage (decideSoraDuration d)
                 = if shouldWarn (decideSoraDuration d)
                   then Some (lit "Script is " ++ toFixed1 d
                              ++ lit "s long. Video will be extended with freeze-frame to match.")
                   else None) by reflexivity.
  set (dec := decideSoraDuration d) in *.
  assert (Hwarn : 12 < d -> shouldWarn dec = true).
  { intros H. rewrite Hw. apply Bool.negb_true_iff, Qle_bool_false_iff. exact H. }
  assert (Hquiet : d <= 12 -> shouldWarn dec = false).
  { intros H. rewrite Hw. apply Bool.negb_false_iff, Qle_bool_true_iff. exact H. }
  split; [|split; [|split; [|split; [|split; [|split; [|split]]]]]].
  - split; intros H;
      destruct Hc as [[? E']|[[? [? E']]|[? E']]]; try assumption; try congruence; lra.
  - split; [intros H | intros [? ?]];
      destruct Hc as [[? E']|[[? [? E']]|[? E']]]; try assumption; try congruence;
      try (split; assumption); lra.
  - split; intros H;
      destruct Hc as [[? E']|[[? [? E']]|[? E']]]; try assumption; try congruence; lra.
  - intros Hle Hb1 Hb2.
    assert (Hn1 : d <= 4 \/ 81 # 20 <= d).
    { destruct (Qlt_le_dec 4 d); [|left; assumption].
      destruct (Qlt_le_dec d (81 # 20)); [|right; assumption].
      exfalso; apply Hb1; split; assumption. }
    assert (Hn2 : d <= 8 \/ 161 # 20 <= d).
    { destruct (Qlt_le_dec 8 d); [|left; assumption].
      destruct (Qlt_le_dec d (161 # 20)); [|right; assumption].
      exfalso; apply Hb2; split; assumption. }
    split.
    + destruct Hc as [[? E']|[[? [? E']]|[? E']]]; rewrite E'; cbn [seconds];
        destruct Hn1, Hn2; lra.
    + intros t' Ht'.
      destruct Hc as [[? E']|[[? [? E']]|[? E']]]; rewrite E';
        destruct t'; cbn [seconds] in *; destruct Hn1, Hn2; lra.
  - intros H. rewrite He.
    destruct H as [[? ?]|[? ?]];
      destruct Hc as [[? E']|[[? [? E']]|[? E']]]; rewrite E'; cbn [seconds];
      try lra; (split; [lra | apply Q.max_r; lra]).
  - intros H. split; [|split; [|split]].
    + destruct Hc as [[? E']|[[? [? E']]|[? E']]]; try assumption; lra.
    + rewrite He.
      destruct Hc as [[? E']|[[? [? E']]|[? E']]]; try lra.
      rewrite E'; cbn [seconds]. apply Q.max_r; lra.
    + apply Hwarn. exact H.
    + rewrite Hmsg, (Hwarn H). eexists; split; [reflexivity | discriminate].
  - intros H. rewrite Hmsg, (Hquiet H). split; reflexivity.
  - reflexivity.
Qed.

(** C1.  The tier chosen for 4.04 s is 4, which is shorter than the
    duration; the comment in [decideSoraDuration] asks for the smallest tier
    that fits the audio, which is 8.  The same happens at 8.04 s, where the
    tier chosen is 8 and the smallest that fits is 12.  The excess is
    reported as [extensionNeeded] without a warning. *)
Theorem C1_tier_below_duration :
  targetDuration (decideSoraDuration (101 # 25)) = Sora4
  /\ seconds (targetDuration (decideSoraDuration (101 # 25))) < 101 # 25
  /\ 101 # 25 <= seconds Sora8
  /\ extensionNeeded (decideSoraDuration (101 # 25)) == 1 # 25
  /\ shouldWarn (decideSoraDuration (101 # 25)) = false
  /\ targetDuration (decideSoraDuration (201 # 25)) = Sora8
  /\ seconds (targetDuration (decideSoraDuration (201 # 25))) < 201 # 25
  /\ 201 # 25 <= seconds Sora12.
Proof.
  repeat split; try reflexivity; try discriminate.
Qed.

End Claim1.

Section StringFacts.
Import Js.

Lemma hasInk_app (s t : jsstring) : hasInk (s ++ t) = hasInk s || hasInk t.
Proof. apply existsb_app. Qed.

Lemma hasInk_rev (s : jsstring) : hasInk (List.rev s) = hasInk s.
Proof.
  induction s as [|c s IH]; [reflexivity|].
  cbn [List.rev]. rewrite hasInk_app, IH. cbn. rewrite Bool.orb_false_r.
  apply Bool.orb_comm.
Qed.

Lemma hasInk_nonempty (s : jsstring) : hasInk s = true -> s <> [].
Proof. destruct s; [discriminate | discriminate]. Qed.

Lemma hasInk_trimStart (s : jsstring) : hasInk (trimStart s) = hasInk s.
Proof.
  induction s as [|c s IH]; [reflexivity|].
  cbn [trimStart]. destruct (isSpace c) eqn:E; [|reflexivity].
  rewrite IH. cbn. rewrite E. reflexivity.
Qed.

Lemma hasInk_trim (s : jsstring) : hasInk (trim s) = hasInk s.
Proof.
  unfold trim, trimEnd.
  rewrite hasInk_rev, hasInk_trimStart, hasInk_rev, hasInk_trimStart.
  reflexivity.
Qed.

(** [trimStart] leaves either nothing or a string that starts with ink. *)
Lemma trimStart_head (s : jsstring) :
  match trimStart s with [] => True | c :: _ => isSpace c = false end.
Proof.
  induction s as [|c s IH]; [exact I|].
  cbn [trimStart]. destruct (isSpace c) eqn:E; [exact IH | exact E].
Qed.

Lemma trimStart_truthy (s : jsstring) : truthy (trimStart s) = hasInk s.
Proof.
  rewrite <- hasInk_trimStart.
  pose proof (trimStart_head s) as H.
  destruct (trimStart s) as [|c r]; [reflexivity|].
  cbn. rewrite H. reflexivity.
Qed.

Lemma truthy_rev (s : jsstring) : truthy (List.rev s) = truthy s.
Proof.
  destruct s as [|c s]; [reflexivity|].
  cbn [List.rev truthy]. destruct (List.rev s); reflexivity.
Qed.

(** [script.trim()] is truthy exactly when the script has ink. *)
Lemma trim_truthy (s : jsstring) : truthy (trim s) = hasInk s.
Proof.
  unfold trim, trimEnd.
  rewrite truthy_rev, trimStart_truthy, hasInk_rev, hasInk_trimStart.
  reflexivity.
Qed.

Lemma truthy_length (s : jsstring) : truthy s = (0 <? List.length s)%nat.
Proof. destruct s; reflexivity. Qed.

Lemma hasInk_join (sep : jsstring) (l : list jsstring) :
  Exists (fun s => hasInk s = true) l -> hasInk (join sep l) = true.
Proof.
  induction l as [|x l IH]; intros H; [inversion H|].
  cbn [join]. destruct l as [|y l].
  - inversion H as [? ? Hx|? ? Hx]; [exact Hx | inversion Hx].
  - rewrite !hasInk_app.
    inversion H as [? ? Hx|? ? Hx]; subst.
    + rewrite Hx. reflexivity.
    + rewrite (IH Hx). rewrite !Bool.orb_true_r. reflexivity.
Qed.

Lemma re_spaces_spaceMatcher : spaceMatcher re_spaces.
Proof.
  intros prev s n. unfold re_spaces.
  destruct (spanSpaces s); intros H; inversion H; subst; lia.
Qed.

Lemma re_after_sentence_spaceMatcher : spaceMatcher re_after_sentence.
Proof.
  intros prev s n. unfold re_after_sentence.
  destruct prev as [p|]; [|discriminate].
  destruct (isOneOf (lit ".!?") p); [|discriminate].
  apply re_spaces_spaceMatcher.
Qed.

Lemma re_after_clause_spaceMatcher : spaceMatcher re_after_clause.
Proof.
  intros prev s n. unfold re_after_clause.
  destruct prev as [p|]; [|discriminate].
  destruct (isOneOf (lit ",;:") p); [|discriminate].
  intros H; inversion H; subst; lia.
Qed.

Lemma spanSpaces_cons_pos (c : char) (s : jsstring) (k : nat) :
  (S k <= spanSpaces (c :: s))%nat -> isSpace c = true /\ (k <= spanSpaces s)%nat.
Proof.
  cbn [spanSpaces]. destruct (isSpace c); intros H; [split; [reflexivity | lia] | lia].
Qed.

(** Splitting on white space loses no ink: the ink of the input is in one
    of the pieces. *)
Lemma splitLoop_keeps_ink (m : matcher) :
  spaceMatcher m ->
  forall s prev piece skip,
    (skip <= spanSpaces s)%nat ->
    (skip = 0%nat \/ piece = []) ->
    hasInk piece || hasInk s = true ->
    Exists (fun p => hasInk p = true) (splitLoop m prev piece skip s).
Proof.
  intros Hm. induction s as [|c s IH]; intros prev piece skip Hskip Hpiece Hink.
  - cbn. constructor. rewrite hasInk_rev. cbn in Hink.
    rewrite Bool.orb_false_r in Hink. exact Hink.
  - cbn [splitLoop]. destruct skip as [|k].
    + destruct (m prev (c :: s)) as [[|n]|] eqn:Em.
      * destruct piece as [|p piece].
        -- apply IH; [lia | left; reflexivity |].
           cbn in Hink. cbn. rewrite Bool.orb_false_r. exact Hink.
        -- destruct (hasInk (p :: piece)) eqn:Ep.
           ++ apply Exists_cons_hd. rewrite hasInk_rev. exact Ep.
           ++ apply Exists_cons_tl. apply IH; [lia | left; reflexivity |].
              cbn [orb] in Hink. cbn in Hink. cbn. rewrite Bool.orb_false_r. exact Hink.
      * apply Hm in Em. apply spanSpaces_cons_pos in Em. destruct Em as [Ec Hn].
        destruct (hasInk piece) eqn:Ep.
        -- apply Exists_cons_hd. rewrite hasInk_rev. exact Ep.
        -- apply Exists_cons_tl. apply IH; [exact Hn | right; reflexivity |].
           cbn in Hink. rewrite Ec in Hink. exact Hink.
      * apply IH; [lia | left; reflexivity |].
        cbn. cbn in Hink.
        destruct (isSpace c); cbn in *; [|reflexivity].
        exact Hink.
    + apply spanSpaces_cons_pos in Hskip. destruct Hskip as [Ec Hk].
      destruct Hpiece as [Hp|Hp]; [discriminate|]. subst piece.
      apply IH; [exact Hk | right; reflexivity |].
      cbn in Hink. rewrite Ec in Hink. exact Hink.
Qed.

Lemma split_keeps_ink (m : matcher) (s : jsstring) :
  spaceMatcher m -> hasInk s = true ->
  Exists (fun p => hasInk p = true) (split m s).
Proof.
  intros Hm Hink. destruct s as [|c s]; [discriminate|].
  unfold split. apply splitLoop_keeps_ink; [exact Hm | lia | left; reflexivity |].
  exact Hink.
Qed.

End StringFacts.

Section SegmenterFacts.
Import Js SubtitleUtils.

(** *** [splitIntoSegments] *)

Lemma inked_app_l (l1 l2 : list jsstring) : inked l1 -> inked (l1 ++ l2).
Proof. intros H. apply Exists_app. left. exact H. Qed.

Lemma inked_app_r (l1 l2 : list jsstring) : inked l2 -> inked (l1 ++ l2).
Proof. intros H. apply Exists_app. right. exact H. Qed.

Lemma clauseStep_inv (base : list jsstring) (seen : bool) (st : ClauseState)
      (clause : jsstring) :
  clauseInv base seen st ->
  clauseInv base (seen || hasInk clause) (clauseStep st clause).
Proof.
  intros [[extra [Hseg Hseen]] Hcur].
  unfold clauseStep.
  set (push := ((MAX_WORDS_PER_SEGMENT <?
                 currentLength st + List.length (split re_spaces (trim clause)))%nat
                && (0 <? List.length (currentSegment st))%nat)).
  assert (Hst1 : clauseInv base seen
            (if push
             then {| segments_ := segments_ st ++ [trim (join (lit " ") (currentSegment st))];
                     currentSegment := []; currentLength := 0 |}
             else st)).
  { destruct push eqn:Ep.
    - split; cbn [segments_ currentSegment]; [|constructor].
      exists (extra ++ [trim (join (lit " ") (currentSegment st))]).
      split; [rewrite Hseg, <- app_assoc; reflexivity|].
      intros _. left. apply inked_app_r. constructor.
      rewrite hasInk_trim. apply hasInk_join.
      subst push. apply andb_prop in Ep. destruct Ep as [_ Ep].
      apply Nat.ltb_lt in Ep.
      destruct (currentSegment st) as [|x r]; [cbn in Ep; lia|].
      inversion Hcur as [|? ? Hx Hr]. apply Exists_cons_hd. exact Hx.
    - split; [exists extra; split; assumption | assumption]. }
  clearbody push.
  destruct Hst1 as [[extra1 [Hseg1 Hseen1]] Hcur1].
  rewrite trim_truthy.
  destruct (hasInk clause) eqn:Ei.
  - split; cbn [segments_ currentSegment].
    + exists extra1. split; [exact Hseg1|].
      intros _. right. intros E. apply app_eq_nil in E. destruct E as [_ E]. discriminate.
    + apply Forall_app. split; [exact Hcur1|]. constructor; [|constructor].
      rewrite hasInk_trim. exact Ei.
  - rewrite Bool.orb_false_r.
    split; [exists extra1; split; assumption | assumption].
Qed.

Lemma clauseLoop_inv (base : list jsstring) (clauses : list jsstring) :
  forall seen st,
    clauseInv base seen st ->
    clauseInv base (seen || existsb hasInk clauses) (fold_left clauseStep clauses st).
Proof.
  induction clauses as [|c clauses IH]; intros seen st H.
  - cbn. rewrite Bool.orb_false_r. exact H.
  - cbn [fold_left existsb]. rewrite Bool.orb_assoc.
    apply IH. apply clauseStep_inv. exact H.
Qed.

Lemma inked_existsb (l : list jsstring) : inked l -> existsb hasInk l = true.
Proof.
  intros H. apply existsb_exists. apply Stdlib.Lists.List.Exists_exists in H.
  destruct H as [x [Hin Hx]]. exists x. split; assumption.
Qed.

(** A sentence only appends segments, and a sentence with ink appends one
    with ink. *)
Lemma sentenceStep_ext (segments : list jsstring) (sentence : jsstring) :
  exists extra, sentenceStep segments sentence = segments ++ extra
                /\ (hasInk sentence = true -> inked extra).
Proof.
  unfold sentenceStep.
  destruct (List.length (split re_spaces (trim sentence)) <=? MAX_WORDS_PER_SEGMENT)%nat.
  - rewrite trim_truthy. destruct (hasInk sentence) eqn:Ei.
    + exists [trim sentence]. split; [reflexivity|].
      intros _. constructor. rewrite hasInk_trim. exact Ei.
    + exists []. split; [rewrite app_nil_r; reflexivity | discriminate].
  - set (st0 := {| segments_ := segments; currentSegment := []; currentLength := 0 |}).
    assert (H0 : clauseInv segments false st0).
    { split; cbn; [|constructor]. exists []. split; [rewrite app_nil_r; reflexivity|discriminate]. }
    pose proof (clauseLoop_inv segments (split re_after_clause sentence) false st0 H0) as H.
    cbn [orb] in H. destruct H as [[extra [Hseg Hseen]] Hcur].
    set (st := fold_left clauseStep (split re_after_clause sentence) st0) in *.
    destruct (0 <? List.length (currentSegment st))%nat eqn:El.
    + exists (extra ++ [trim (join (lit " ") (currentSegment st))]).
      split; [rewrite Hseg, <- app_assoc; reflexivity|].
      intros _. apply inked_app_r. constructor.
      rewrite hasInk_trim. apply hasInk_join.
      apply Nat.ltb_lt in El.
      destruct (currentSegment st) as [|x r]; [cbn in El; lia|].
      inversion Hcur as [|? ? Hx Hr]. apply Exists_cons_hd. exact Hx.
    + exists extra. split; [exact Hseg|].
      intros Hi.
      assert (Hex : existsb hasInk (split re_after_clause sentence) = true).
      { apply inked_existsb. apply split_keeps_ink;
          [apply re_after_clause_spaceMatcher | exact Hi]. }
      destruct (Hseen Hex) as [Hk|Hk]; [exact Hk|].
      apply Nat.ltb_ge in El.
      destruct (currentSegment st); [congruence | cbn in El; lia].
Qed.

Lemma sentenceLoop_ext (sentences : list jsstring) :
  forall segments,
  exists extra, fold_left sentenceStep sentences segments = segments ++ extra
                /\ (inked sentences -> inked extra).
Proof.
  induction sentences as [|s sentences IH]; intros segments.
  - exists []. split; [rewrite app_nil_r; reflexivity|]. intros H; inversion H.
  - cbn [fold_left].
    destruct (sentenceStep_ext segments s) as [e1 [E1 H1]].
    destruct (IH (sentenceStep segments s)) as [e2 [E2 H2]].
    exists (e1 ++ e2). split; [rewrite E2, E1, <- app_assoc; reflexivity|].
    intros H. inversion H; subst.
    + apply inked_app_l. apply H1. assumption.
    + apply inked_app_r. apply H2. assumption.
Qed.

(** A script with ink yields at least one segment. *)
Lemma splitIntoSegments_nonempty (script : jsstring) :
  hasInk script = true -> (1 <= List.length (splitIntoSegments script))%nat.
Proof.
  intros Hi. unfold splitIntoSegments.
  destruct (sentenceLoop_ext (split re_after_sentence script) []) as [extra [E H]].
  rewrite E. cbn [app].
  assert (Hk : inked extra).
  { apply H. apply split_keeps_ink; [apply re_after_sentence_spaceMatcher | exact Hi]. }
  clear E H. induction Hk as [x l Hx|x l Hk IH].
  - cbn [List.filter]. apply hasInk_nonempty in Hx.
    destruct x; [congruence|]. cbn. lia.
  - cbn [List.filter]. destruct (0 <? List.length x)%nat; cbn [List.length]; lia.
Qed.

(** Every segment is non-empty. *)
Lemma splitIntoSegments_nonblank (script : jsstring) :
  Forall (fun s => s <> []) (splitIntoSegments script).
Proof.
  unfold splitIntoSegments. apply Stdlib.Lists.List.Forall_forall. intros x Hx.
  apply filter_In in Hx. destruct Hx as [_ Hx].
  destruct x; [discriminate | discriminate].
Qed.

End SegmenterFacts.

Section TimingFacts.
Import Js SubtitleUtils.

(** *** [calculateTiming] *)

Lemma Forall_imap {A B} (P : B -> Prop) (f : nat -> A -> B) (l : list A) :
  (forall i x, P (f i x)) -> Forall P (imap f l).
Proof.
  revert f. induction l as [|x l IH]; intros f H; cbn; constructor.
  - apply H.
  - apply IH. intros i y. apply H.
Qed.

Lemma overlap_bounds (n i : nat) :
  0 <= (if (i <? n - 1)%nat then 1 # 10 else 0)
  /\ (if (i <? n - 1)%nat then 1 # 10 else 0) <= 1 # 10.
Proof. destruct (i <? n - 1)%nat; split; lra. Qed.

Lemma Qmin_lt_iff (x a b : Q) : x < Qmin a b <-> x < a /\ x < b.
Proof.
  destruct (Q.min_spec a b) as [[H E]|[H E]]; rewrite E; split;
    [intros ?; split; lra | intros [? ?]; lra | intros ?; split; lra | intros [? ?]; lra].
Qed.

Lemma Qmin_le_compat (a a' b : Q) : a <= a' -> Qmin a b <= Qmin a' b.
Proof. intros H. apply Q.min_le_compat_r. exact H. Qed.

Lemma timeLoop_length T eb n rest : forall i ct,
  List.length (timeLoop T eb n i ct rest) = List.length rest.
Proof.
  induction rest as [|[seg d] rest IH]; intros i ct; cbn; [reflexivity|].
  rewrite IH. reflexivity.
Qed.

Lemma timeLoop_texts T eb n rest : forall i ct,
  List.map text (timeLoop T eb n i ct rest) = List.map fst rest.
Proof.
  induction rest as [|[seg d] rest IH]; intros i ct; cbn; [reflexivity|].
  rewrite IH. reflexivity.
Qed.

Lemma timeLoop_end_le T eb n rest : forall i ct,
  Forall (fun s => endTime s <= T - eb) (timeLoop T eb n i ct rest).
Proof.
  induction rest as [|[seg d] rest IH]; intros i ct; cbn [timeLoop]; constructor.
  - cbn [endTime startTime]. unfold Math_min. apply Q.le_min_r.
  - apply IH.
Qed.

Lemma timeLoop_start_ge T eb n rest :
  Forall (fun p => 4 # 5 <= snd p) rest ->
  forall i ct, Forall (fun s => ct <= startTime s) (timeLoop T eb n i ct rest).
Proof.
  induction rest as [|[seg d] rest IH]; intros Hd i ct; cbn [timeLoop]; constructor.
  - cbn [endTime startTime]. unfold Math_min. lra.
  - inversion Hd as [|? ? Hd1 Hd2]; subst. cbn in Hd1.
    eapply Stdlib.Lists.List.Forall_impl; [|apply (IH Hd2 (S i) (ct + d))].
    cbn beta. cbn [endTime startTime]. intros s Hs. lra.
Qed.

Lemma timeLoop_end_ge T eb n rest :
  Forall (fun p => 4 # 5 <= snd p) rest ->
  forall i ct,
    Forall (fun s => Qmin (ct + (4 # 5)) (T - eb) <= endTime s)
           (timeLoop T eb n i ct rest).
Proof.
  induction rest as [|[seg d] rest IH]; intros Hd i ct; cbn [timeLoop]; constructor.
  - cbn [endTime startTime]. unfold Math_min. inversion Hd as [|? ? Hd1 Hd2]; subst. cbn in Hd1.
    apply Qmin_le_compat. pose proof (overlap_bounds n i). lra.
  - inversion Hd as [|? ? Hd1 Hd2]; subst. cbn in Hd1.
    eapply Stdlib.Lists.List.Forall_impl; [|apply (IH Hd2 (S i) (ct + d))].
    cbn beta. cbn [endTime startTime]. intros s Hs.
    eapply Qle_trans; [|exact Hs]. apply Qmin_le_compat. lra.
Qed.

(** Starts are at least 0.8 s apart, so strictly increasing. *)
Lemma timeLoop_sorted_start T eb n rest :
  Forall (fun p => 4 # 5 <= snd p) rest ->
  forall i ct,
    StronglySorted (fun a b => startTime a + (4 # 5) <= startTime b)
                   (timeLoop T eb n i ct rest).
Proof.
  induction rest as [|[seg d] rest IH]; intros Hd i ct; cbn [timeLoop]; constructor.
  - inversion Hd; subst. apply IH. assumption.
  - inversion Hd as [|? ? Hd1 Hd2]; subst. cbn in Hd1.
    eapply Stdlib.Lists.List.Forall_impl; [|apply (timeLoop_start_ge T eb n rest Hd2 (S i) (ct + d))].
    cbn beta. cbn [endTime startTime]. intros s Hs. lra.
Qed.

Lemma timeLoop_sorted_end T eb n rest :
  Forall (fun p => 4 # 5 <= snd p) rest ->
  forall i ct,
    StronglySorted (fun a b => endTime a <= endTime b) (timeLoop T eb n i ct rest).
Proof.
  induction rest as [|[seg d] rest IH]; intros Hd i ct; cbn [timeLoop]; constructor.
  - inversion Hd; subst. apply IH. assumption.
  - inversion Hd as [|? ? Hd1 Hd2]; subst. cbn in Hd1.
    eapply Stdlib.Lists.List.Forall_impl; [|apply (timeLoop_end_ge T eb n rest Hd2 (S i) (ct + d))].
    cbn beta. cbn [endTime startTime]. intros s Hs.
    eapply Qle_trans; [|exact Hs]. apply Qmin_le_compat.
    pose proof (overlap_bounds n i). lra.
Qed.

(** A segment is shown for a positive time exactly when it starts before
    the end of the budget. *)
Lemma timeLoop_start_lt_end T eb n rest :
  Forall (fun p => 4 # 5 <= snd p) rest ->
  forall i ct,
    Forall (fun s => startTime s < endTime s <-> startTime s < T - eb)
           (timeLoop T eb n i ct rest).
Proof.
  induction rest as [|[seg d] rest IH]; intros Hd i ct; cbn [timeLoop]; constructor.
  - cbn [endTime startTime]. unfold Math_min. inversion Hd as [|? ? Hd1 Hd2]; subst. cbn in Hd1.
    unfold Math_min. rewrite Qmin_lt_iff. pose proof (overlap_bounds n i).
    split; [intros [_ H']; exact H' | intros H'; split; [lra | exact H']].
  - inversion Hd; subst. apply IH. assumption.
Qed.

Lemma Forall_combine_snd {A} (P : Q -> Prop) (l : list A) (durs : list Q) :
  Forall P durs -> Forall (fun p => P (snd p)) (combine l durs).
Proof.
  revert durs. induction l as [|x l IH]; intros durs H; cbn; [constructor|].
  destruct durs as [|d durs]; [constructor|].
  inversion H; subst. constructor; [assumption | apply IH; assumption].
Qed.

Lemma map_fst_combine_same {A B} (l : list A) (l' : list B) :
  List.length l' = List.length l -> List.map fst (combine l l') = l.
Proof.
  revert l'. induction l as [|x l IH]; intros l' H; [reflexivity|].
  destruct l' as [|y l']; [discriminate|]. cbn. f_equal. apply IH.
  cbn in H. lia.
Qed.

(** [calculateTiming] on a non-empty list and a positive duration runs the
    timing loop from the start buffer over durations of at least 0.8 s, one
    for each segment. *)
Lemma calculateTiming_loop (segments : list jsstring) (totalDuration : Q) :
  segments <> [] -> 0 < totalDuration ->
  exists durs,
    List.length durs = List.length segments
    /\ Forall (fun d => 4 # 5 <= d) durs
    /\ calculateTiming segments totalDuration
       = timeLoop totalDuration (1 # 5) (List.length segments) 0 (1 # 2)
                  (combine segments durs).
Proof.
  intros Hne Hpos. unfold calculateTiming.
  assert (E0 : (List.length segments =? 0)%nat = false).
  { apply Nat.eqb_neq. destruct segments; [congruence | cbn; lia]. }
  assert (E1 : Qle_bool totalDuration 0 = false) by (apply Qle_bool_false_iff; exact Hpos).
  rewrite E0, E1. cbn [orb].
  set (wordCounts := List.map (fun s => List.length (split re_spaces s)) segments).
  set (totalWords := match fold_left Nat.add wordCounts 0%nat with O => 1%nat | w => w end).
  set (availableDuration := Math_max 1 (totalDuration - (1 # 2) - (1 # 5))).
  set (raw := imap _ segments).
  assert (Hraw : Forall (fun d => 6 # 5 <= d) raw).
  { subst raw. apply Forall_imap. intros i x. apply Q.le_max_l. }
  assert (Lraw : List.length raw = List.length segments).
  { subst raw. apply length_imap. }
  destruct (negb (Qle_bool (sumQ raw) availableDuration)).
  - eexists. split; [|split; [|reflexivity]].
    + rewrite length_map. exact Lraw.
    + apply Forall_map. apply Forall_forall. intros d _. apply Q.le_max_l.
  - exists raw. split; [exact Lraw | split; [|reflexivity]].
    eapply Stdlib.Lists.List.Forall_impl; [|exact Hraw]. cbn. intros d Hd. lra.
Qed.

End TimingFacts.

Section Claim5.
Import Js SubtitleUtils.

(** X25.  For a script with at least one character that is not white
    space and a positive total duration, the segmenter produces at least
    one timed segment, one per text segment and in the same order; the
    first starts at the start buffer (0.5 s); every segment, the last
    included, ends at or before [totalDuration - 0.2]; start times increase
    strictly (by at least 0.8 s) and end times never decrease. *)
Theorem X25_caption_layout (script : jsstring) (totalDuration : Q) :
  hasInk script = true ->
  0 < totalDuration ->
  let segs := calculateTiming (splitIntoSegments script) totalDuration in
  (1 <= List.length segs)%nat
  /\ List.map text segs = splitIntoSegments script
  /\ (exists s0 rest, segs = s0 :: rest /\ startTime s0 = 1 # 2)
  /\ Forall (fun s => endTime s <= totalDuration - (1 # 5)) segs
  /\ StronglySorted (fun a b => startTime a + (4 # 5) <= startTime b) segs
  /\ StronglySorted (fun a b => endTime a <= endTime b) segs.
Proof.
  intros Hink Hpos segs.
  pose proof (splitIntoSegments_nonempty script Hink) as Hlen.
  assert (Hne : splitIntoSegments script <> []).
  { intros E. rewrite E in Hlen. cbn in Hlen. lia. }
  destruct (calculateTiming_loop _ totalDuration Hne Hpos) as [durs [Ld [Hd E]]].
  subst segs. rewrite E.
  set (segments := splitIntoSegments script) in *.
  assert (Hc : Forall (fun p : jsstring * Q => 4 # 5 <= snd p) (combine segments durs)).
  { apply (Forall_combine_snd (fun d => 4 # 5 <= d)). exact Hd. }
  assert (Lc : List.length (combine segments durs) = List.length segments).
  { rewrite length_combine. lia. }
  split; [|split; [|split; [|split; [|split]]]].
  - rewrite timeLoop_length, Lc. exact Hlen.
  - rewrite timeLoop_texts. apply map_fst_combine_same. exact Ld.
  - destruct (combine segments durs) as [|[seg d] rest] eqn:Ec.
    + cbn in Lc. lia.
    + cbn [timeLoop]. eexists. eexists. split; reflexivity.
  - apply timeLoop_end_le.
  - apply timeLoop_sorted_start. exact Hc.
  - apply timeLoop_sorted_end. exact Hc.
Qed.

(** Two short sentences over five seconds. *)
Lemma X25_caption_layout_witness :
  (1 <= List.length (calculateTiming (splitIntoSegments (lit "Hello world. Bye.")) 5))%nat.
Proof.
  exact (proj1 (X25_caption_layout (lit "Hello world. Bye.") 5 eq_refl eq_refl)).
Defined.

(** C5.  Six one-word sentences over 4.1 s (what the silent fallback
    measures for them): the durations are floored at 0.8 s each, so the
    sixth caption starts at 4.5 s, while its end is clamped to 3.9 s.  It
    ends before it starts, and it starts after the end of the audio. *)
Theorem C5_caption_ends_before_it_starts :
  hasInk (lit "One. Two. Three. Four. Five. Six.") = true
  /\ exists s,
       nth_error (calculateTiming
                    (splitIntoSegments (lit "One. Two. Three. Four. Five. Six."))
                    (41 # 10)) 5 = Some s
       /\ startTime s == 9 # 2
       /\ endTime s == 39 # 10
       /\ endTime s < startTime s
       /\ 41 # 10 < startTime s.
Proof.
  split; [reflexivity|].
  eexists. split; [vm_compute; reflexivity|].
  repeat split; vm_compute; reflexivity.
Qed.

End Claim5.

Section PathFacts.
Import Js Runtime.

Lemma splitExt_app (p s stem ext : jsstring) :
  splitExt s = Some (stem, ext) -> splitExt (p ++ s) = Some (p ++ stem, ext).
Proof.
  intros H. induction p as [|c p IH]; [exact H|].
  cbn [app splitExt]. rewrite IH. reflexivity.
Qed.

Lemma insertBeforeExt_mp4 (p suffix : jsstring) :
  insertBeforeExt suffix (p ++ lit ".mp4") = p ++ suffix ++ lit ".mp4".
Proof.
  unfold insertBeforeExt.
  rewrite (splitExt_app p (lit ".mp4") [] (lit ".mp4")) by reflexivity.
  rewrite app_nil_r. reflexivity.
Qed.

Lemma replaceExt_ass (p : jsstring) :
  replaceExt (lit ".ass") (p ++ lit ".ass") = p ++ lit ".ass".
Proof.
  unfold replaceExt.
  rewrite (splitExt_app p (lit ".ass") [] (lit ".ass")) by reflexivity.
  rewrite app_nil_r. reflexivity.
Qed.

Lemma tempPath_inj (env : Env) (a b : jsstring) :
  tempPath env a = tempPath env b -> a = b.
Proof.
  unfold tempPath, TEMP_DIR. rewrite <- !app_assoc. intros H.
  apply app_inv_head in H. apply app_inv_head in H. apply app_inv_head in H.
  exact H.
Qed.

Lemma tempPath_ne (env : Env) (pid a b : jsstring) :
  a <> b -> tempPath env (pid ++ a) <> tempPath env (pid ++ b).
Proof.
  intros Hab H. apply tempPath_inj in H. apply app_inv_head in H. contradiction.
Qed.

Lemma startsWith_app (pat s : jsstring) : startsWith pat (pat ++ s) = true.
Proof.
  induction pat as [|p pat IH]; [destruct s; reflexivity|].
  cbn. rewrite N.eqb_refl, IH. reflexivity.
Qed.

Lemma startsWith_length (pat s : jsstring) :
  startsWith pat s = true -> (List.length pat <= List.length s)%nat.
Proof.
  revert s. induction pat as [|p pat IH]; intros s H; [cbn; lia|].
  destruct s as [|c s]; [discriminate|].
  cbn in H. apply andb_prop in H. destruct H as [_ H]. apply IH in H. cbn. lia.
Qed.

(** Replacing the first occurrence of a pattern changes the length by the
    difference between the replacement and the pattern. *)
Lemma replaceFirst_length (pat rep a b : jsstring) :
  (List.length (replaceFirst pat rep (a ++ pat ++ b)) + List.length pat
   = List.length (a ++ pat ++ b) + List.length rep)%nat.
Proof.
  induction a as [|c a IH].
  - cbn [app]. destruct (pat ++ b) as [|x r] eqn:E.
    + destruct pat; [|discriminate]. cbn. rewrite length_app. cbn. lia.
    + cbn [replaceFirst]. rewrite <- E, startsWith_app.
      rewrite length_app, length_skipn, !length_app. lia.
  - cbn [app replaceFirst].
    destruct (startsWith pat (c :: a ++ pat ++ b)) eqn:E.
    + pose proof (startsWith_length _ _ E) as L.
      rewrite length_app, length_skipn. lia.
    + cbn [List.length]. lia.
Qed.

Lemma replaceFirst_wav_ne (p rep : jsstring) :
  List.length rep <> 4%nat ->
  replaceFirst (lit ".wav") rep (p ++ lit ".wav") <> p ++ lit ".wav".
Proof.
  intros Hlen E.
  pose proof (replaceFirst_length (lit ".wav") rep p []) as L.
  rewrite app_nil_r in L. rewrite E in L.
  change (List.length (lit ".wav")) with 4%nat in L. lia.
Qed.

End PathFacts.

Section StageFacts.
Import Js Runtime DurationPolicy SubtitleUtils AudioUtils VideoUtils TTSService VideoProcessor.
Local Open Scope js_scope.

Lemma sameStatus_refl (w : World) : sameStatus w w.
Proof. repeat split. Qed.

Lemma sameStatus_trans (w1 w2 w3 : World) :
  sameStatus w1 w2 -> sameStatus w2 w3 -> sameStatus w1 w3.
Proof.
  intros (a1 & b1 & c1 & d1) (a2 & b2 & c2 & d2).
  repeat split; congruence.
Qed.

Lemma audioPath_wav (env : Env) (pid : jsstring) :
  audioPathOf env pid = (TEMP_DIR env ++ lit "/" ++ pid ++ lit "_audio") ++ lit ".wav".
Proof.
  unfold audioPathOf, tempPath. rewrite <- !app_assoc. reflexivity.
Qed.

Lemma generateTTSPlaceholder_spec env pid script emo w r w' :
  generateTTSPlaceholder env pid script emo w = (r, w') ->
  sameStatus w w'
  /\ calls w' = calls w ++ ttsCalls env
  /\ match speechOf env script with
     | Some d => r = Ok (audioPathOf env pid)
                 /\ fs w' !! audioPathOf env pid = Some (audioOnly d)
     | None => exists e, r = Throw e
     end.
Proof.
  unfold generateTTSPlaceholder, generateSpeechWithEdgeTTS, generateSpeechWithK2FSA,
    wrapError, speechOf, ttsCalls, edgeSpeech.
  fold (audioPathOf env pid).
  assert (Hne : replaceFirst (lit ".wav") (lit "_temp.mp3") (audioPathOf env pid)
                <> audioPathOf env pid).
  { rewrite audioPath_wav. apply replaceFirst_wav_ne. cbn. lia. }
  set (mp3 := replaceFirst (lit ".wav") (lit "_temp.mp3") (audioPathOf env pid)) in *.
  unfold tryCatch, bind, modify, lift, writeFile, unlink, ret, throw.
  destruct (edgeTTS env) as [d|e]; [destruct (edgeConvert env) as [[]|e]|];
    cbn -[audioPathOf].
  - rewrite lookup_insert_ne by (intros E; apply Hne; symmetry; exact E).
    rewrite lookup_insert_eq. cbn -[audioPathOf].
    intros H; inversion H; subst; clear H. cbn -[audioPathOf].
    split; [repeat split|]. split; [reflexivity|]. split; [reflexivity|].
    rewrite lookup_delete_ne by exact Hne. apply lookup_insert_eq.
  - destruct (k2fsaTTS env) as [d'|e']; cbn -[audioPathOf].
    + intros H; inversion H; subst; clear H. cbn -[audioPathOf].
      split; [repeat split|]. split; [rewrite <- app_assoc; reflexivity|].
      split; [reflexivity|]. apply lookup_insert_eq.
    + destruct (silenceFfmpeg env) as [[]|e'']; cbn -[audioPathOf];
        intros H; inversion H; subst; clear H; cbn -[audioPathOf];
        (split; [repeat split|]); (split; [rewrite <- app_assoc; reflexivity|]).
      * split; [reflexivity|]. apply lookup_insert_eq.
      * eexists; reflexivity.
  - destruct (k2fsaTTS env) as [d'|e']; cbn -[audioPathOf].
    + intros H; inversion H; subst; clear H. cbn -[audioPathOf].
      split; [repeat split|]. split; [rewrite <- app_assoc; reflexivity|].
      split; [reflexivity|]. apply lookup_insert_eq.
    + destruct (silenceFfmpeg env) as [[]|e'']; cbn -[audioPathOf];
        intros H; inversion H; subst; clear H; cbn -[audioPathOf];
        (split; [repeat split|]); (split; [rewrite <- app_assoc; reflexivity|]).
      * split; [reflexivity|]. apply lookup_insert_eq.
      * eexists; reflexivity.
Qed.

End StageFacts.

Section StageFacts2.
Import Js Runtime DurationPolicy SubtitleUtils AudioUtils VideoUtils TTSService VideoProcessor.
Local Open Scope js_scope.

Lemma updateProgress_run pid st p step e w :
  updateProgress pid st p step e w
  = (Ok tt, notify {| projectId := pid; stage := st; progress := p;
                      currentStep := step; error_ := e |}
              (setStatuses (insert pid {| projectId := pid; stage := st; progress := p;
                                          currentStep := step; error_ := e |}) w)).
Proof. reflexivity. Qed.

Lemma getAudioDuration_known env p d w :
  fs w !! p = Some (audioOnly d) ->
  getAudioDuration env p w
  = (if Qeq_bool d 0 then Throw (lit "Could not determine audio duration")
     else Ok (roundUpDuration d), w).
Proof.
  intros H. unfold getAudioDuration, bind, ffprobe. rewrite H. cbn.
  destruct (Qeq_bool d 0); reflexivity.
Qed.

Lemma generateMusicPlaceholder_run env pid vt d w :
  generateMusicPlaceholder env pid vt d w
  = match musicFfmpeg env with
    | Ok _ => (Ok (musicPathOf env pid),
               setFs (insert (musicPathOf env pid) (audioOnly d)) w)
    | Throw e => (Throw e, w)
    end.
Proof.
  unfold generateMusicPlaceholder, bind, lift, writeFile, modify, ret.
  destruct (musicFfmpeg env) as [[]|e]; reflexivity.
Qed.

Lemma generateVideoPlaceholder_spec env pid script t w r w' :
  generateVideoPlaceholder env pid script t w = (r, w') ->
  (forall q, q <> bgPathOf env pid -> fs w' !! q = fs w !! q)
  /\ match clipOf env t with
     | Some (d, sound) =>
         r = Ok (bgPathOf env pid)
         /\ fs w' !! bgPathOf env pid = Some (MediaFile (clipMedia d sound))
         /\ calls w' = calls w ++ [CallSora t]
     | None => exists e, r = Throw e
     end.
Proof.
  unfold generateVideoPlaceholder, clipOf, wrapError, tryCatch, bind, lift, modify,
    writeFile, ret, throw.
  fold (bgPathOf env pid).
  destruct (cometApiKey env); cbn -[bgPathOf].
  - destruct (sora env t) as [[d sound]|e]; cbn -[bgPathOf];
      intros H; inversion H; subst; clear H; cbn -[bgPathOf].
    + split; [intros q Hq; apply lookup_insert_ne; congruence|].
      split; [reflexivity|]. split; [apply lookup_insert_eq | reflexivity].
    + split; [reflexivity|]. eexists; reflexivity.
  - intros H; inversion H; subst; clear H.
    split; [reflexivity|]. eexists; reflexivity.
Qed.

Lemma bgPath_mp4 (env : Env) (pid : jsstring) :
  bgPathOf env pid = (TEMP_DIR env ++ lit "/" ++ pid ++ lit "_bg") ++ lit ".mp4".
Proof. unfold bgPathOf, tempPath. rewrite <- !app_assoc. reflexivity. Qed.

Lemma bgExtendedPath_eq (env : Env) (pid : jsstring) :
  insertBeforeExt (lit "_extended") (bgPathOf env pid) = bgExtendedPathOf env pid.
Proof.
  rewrite bgPath_mp4, insertBeforeExt_mp4.
  unfold bgExtendedPathOf, tempPath. rewrite <- !app_assoc. reflexivity.
Qed.

(** The step between the video stage and the compositing stage. *)
Lemma extension_spec env pid d sound measured target w r w' :
  fs w !! bgPathOf env pid = Some (MediaFile (clipMedia d sound)) ->
  (if negb (Qle_bool (Math_max 0 (measured - target)) (1 # 10))
   then extendVideoToAudioLength env (bgPathOf env pid) measured None
   else ret (bgPathOf env pid)) w = (r, w') ->
  (forall q, q <> bgExtendedPathOf env pid -> fs w' !! q = fs w !! q)
  /\ calls w' = calls w
  /\ match pictureOf env d sound measured target with
     | Some v =>
         exists p, r = Ok p
                   /\ (p = bgPathOf env pid \/ p = bgExtendedPathOf env pid)
                   /\ fs w' !! p = Some (MediaFile {| video := Some v;
                                                      audio := audio (clipMedia d sound) |})
     | None => exists e, r = Throw e
     end.
Proof.
  intros Hbg. unfold pictureOf, Math_max.
  destruct (negb (Qle_bool (Qmax 0 (measured - target)) (1 # 10))).
  - unfold extendVideoToAudioLength, orElse.
    rewrite bgExtendedPath_eq.
    assert (Hf : exists f, formatDuration (clipMedia d sound) = Some f).
    { destruct sound; cbn; eexists; reflexivity. }
    destruct Hf as [f Hf]. rewrite Hf.
    unfold bind at 1. unfold ffprobe. rewrite Hbg, Hf.
    destruct (Qle_bool measured f).
    + unfold ret. intros H; inversion H; subst; clear H.
      split; [reflexivity|]. split; [reflexivity|].
      eexists. split; [reflexivity|]. split; [left; reflexivity|exact Hbg].
    + unfold bind at 1. unfold readMedia. rewrite Hbg.
      cbn [video clipMedia].
      unfold bind, lift, writeFile, modify, ret, throw.
      destruct (extendFfmpeg env) as [[]|e];
        intros H; inversion H; subst; clear H; cbn -[bgExtendedPathOf].
      * split; [intros q Hq; apply lookup_insert_ne; congruence|].
        split; [reflexivity|].
        eexists. split; [reflexivity|]. split; [right; reflexivity|].
        apply lookup_insert_eq.
      * split; [reflexivity|]. split; [reflexivity|]. eexists; reflexivity.
  - unfold ret. intros H; inversion H; subst; clear H.
    split; [reflexivity|]. split; [reflexivity|].
    eexists. split; [reflexivity|]. split; [left; reflexivity|exact Hbg].
Qed.

End StageFacts2.

Section StageFacts3.
Import Js Runtime DurationPolicy SubtitleUtils AudioUtils VideoUtils TTSService VideoProcessor.
Local Open Scope js_scope.

Lemma unlink_quietly_run (file : jsstring) (w : World) :
  tryCatch (unlink file) (fun _ => ret tt) w = (Ok tt, setFs (delete file) w).
Proof.
  unfold tryCatch, unlink, ret. destruct (fs w !! file) eqn:E; [reflexivity|].
  f_equal. destruct w; unfold setFs; cbn in *. f_equal.
  symmetry. apply delete_id. exact E.
Qed.

(** [cleanupTempFiles] never throws; afterwards none of the files exists
    and no other file has changed. *)
Lemma cleanupTempFiles_run (files : list jsstring) :
  forall w, exists w',
    cleanupTempFiles files w = (Ok tt, w')
    /\ calls w' = calls w
    /\ (forall q, In q files -> fs w' !! q = None)
    /\ (forall q, ~ In q files -> fs w' !! q = fs w !! q).
Proof.
  induction files as [|f files IH]; intros w.
  - exists w. split; [reflexivity|]. split; [reflexivity|].
    split; intros q H; [destruct H | reflexivity].
  - cbn [cleanupTempFiles fold_right]. unfold bind at 1.
    rewrite unlink_quietly_run.
    destruct (IH (setFs (delete f) w)) as (w' & E & Hc & Hin & Hout).
    exists w'. unfold cleanupTempFiles in E. rewrite E.
    split; [reflexivity|]. split; [rewrite Hc; reflexivity|]. split.
    + intros q [Hq|Hq]; [subst q|apply Hin; exact Hq].
      destruct (in_dec (Stdlib.Lists.List.list_eq_dec N.eq_dec) f files) as [Hi|Hi]; [apply Hin; exact Hi|].
      rewrite (Hout f Hi). cbn. apply lookup_delete_eq.
    + intros q Hq. rewrite Hout by (intros X; apply Hq; right; exact X).
      cbn. apply lookup_delete_ne. intros X; apply Hq; left; exact X.
Qed.

Lemma subtitlePath_ass (env : Env) (pid : jsstring) :
  replaceExt (lit ".ass") (subtitlePathOf env pid) = subtitlePathOf env pid.
Proof.
  assert (E : subtitlePathOf env pid
              = (TEMP_DIR env ++ lit "/" ++ pid ++ lit "_subtitles") ++ lit ".ass").
  { unfold subtitlePathOf, tempPath. rewrite <- !app_assoc. reflexivity. }
  rewrite E. apply replaceExt_ass.
Qed.

Lemma calculateTiming_none (segments : list jsstring) (d : Q) :
  d <= 0 -> calculateTiming segments d = [].
Proof.
  intros H. unfold calculateTiming.
  apply Qle_bool_true_iff in H. rewrite H, Bool.orb_true_r. reflexivity.
Qed.

Lemma generateSubtitleFile_spec env pid script measured w r w' :
  generateSubtitleFile env script measured (subtitlePathOf env pid) w = (r, w') ->
  (forall q, q <> subtitlePathOf env pid -> fs w' !! q = fs w !! q)
  /\ calls w' = calls w
  /\ match captionsOf env script measured with
     | Some true => r = Ok (Some (subtitlePathOf env pid))
                    /\ exists content, fs w' !! subtitlePathOf env pid
                                       = Some (TextFile content)
     | Some false => r = Ok None /\ w' = w
     | None => exists e, r = Throw e
     end.
Proof.
  unfold generateSubtitleFile, captionsOf.
  rewrite trim_truthy, subtitlePath_ass.
  destruct (hasInk script) eqn:Hi.
  - assert (Ht : truthy script = true).
    { destruct script; [discriminate | reflexivity]. }
    rewrite Ht. cbn [negb orb andb].
    pose proof (splitIntoSegments_nonempty script Hi) as Hlen.
    destruct (List.length (splitIntoSegments script) =? 0)%nat eqn:E0.
    { apply Nat.eqb_eq in E0. lia. }
    destruct (Qle_bool measured 0) eqn:Em; cbn [negb].
    + apply Qle_bool_true_iff in Em. rewrite calculateTiming_none by exact Em.
      cbn. unfold ret. intros H; inversion H; subst.
      split; [reflexivity|]. split; [reflexivity|]. split; reflexivity.
    + apply Qle_bool_false_iff in Em.
      assert (Hne : splitIntoSegments script <> []).
      { intros X. rewrite X in Hlen. cbn in Hlen. lia. }
      destruct (calculateTiming_loop _ measured Hne Em) as (durs & Ld & _ & Ec).
      assert (Lt : (List.length (calculateTiming (splitIntoSegments script) measured)
                    =? 0)%nat = false).
      { apply Nat.eqb_neq. rewrite Ec, timeLoop_length, length_combine. lia. }
      rewrite Lt.
      unfold bind, lift, writeFile, modify, ret.
      destruct (subtitleWrite env) as [[]|e];
        intros H; inversion H; subst; clear H; cbn -[subtitlePathOf].
      * split; [intros q Hq; apply lookup_insert_ne; congruence|].
        split; [reflexivity|]. split; [reflexivity|].
        eexists. apply lookup_insert_eq.
      * split; [reflexivity|]. split; [reflexivity|]. eexists; reflexivity.
  - rewrite Bool.orb_true_r. cbn [andb].
    unfold ret. intros H; inversion H; subst.
    split; [reflexivity|]. split; [reflexivity|]. split; reflexivity.
Qed.

End StageFacts3.

Section StageFacts4.
Import Js Runtime DurationPolicy SubtitleUtils AudioUtils VideoUtils TTSService VideoProcessor.
Local Open Scope js_scope.

Lemma finalPath_fresh (env : Env) (pid : jsstring) :
  finalPathOf env pid <> audioPathOf env pid
  /\ finalPathOf env pid <> musicPathOf env pid
  /\ finalPathOf env pid <> bgPathOf env pid
  /\ finalPathOf env pid <> bgExtendedPathOf env pid
  /\ finalPathOf env pid <> subtitlePathOf env pid.
Proof.
  unfold finalPathOf, audioPathOf, musicPathOf, bgPathOf, bgExtendedPathOf, subtitlePathOf.
  repeat split; apply tempPath_ne; discriminate.
Qed.

Lemma composeVideo_spec env pid bgp sp script title dur v ab a1 a2 w r w' :
  fs w !! bgp = Some (MediaFile {| video := Some v; audio := ab |}) ->
  fs w !! audioPathOf env pid = Some (audioOnly a1) ->
  fs w !! musicPathOf env pid = Some (audioOnly a2) ->
  bgp = bgPathOf env pid \/ bgp = bgExtendedPathOf env pid ->
  sp = None \/ sp = Some (subtitlePathOf env pid) ->
  composeVideo env
    {| c_projectId := pid;
       c_audioPath := audioPathOf env pid;
       c_musicPath := musicPathOf env pid;
       c_bgVideoPath := bgp;
       c_script := script;
       c_title := title;
       c_subtitlePath := sp;
       c_audioDuration := dur |} w = (r, w') ->
  calls w' = calls w
               ++ [CallFfmpegCompose {| video := Some v; audio := ab |}
                     {| video := None; audio := Some a1 |}
                     {| video := None; audio := Some a2 |}
                     audioFilter (videoFilter script title sp)]
  /\ match composeFfmpeg env with
     | Ok _ =>
         r = Ok (finalPathOf env pid)
         /\ fs w' !! finalPathOf env pid
            = Some (MediaFile {| video := Some v; audio := Some a1 |})
         /\ fs w' !! audioPathOf env pid = None
         /\ fs w' !! musicPathOf env pid = None
         /\ fs w' !! bgp = None
         /\ (sp = Some (subtitlePathOf env pid) -> fs w' !! subtitlePathOf env pid = None)
     | Throw e => r = Throw e
     end.
Proof.
  intros Hbg Ha Hm Hbgp Hsp. unfold audioOnly in Ha, Hm.
  unfold composeVideo. cbn [c_projectId c_audioPath c_musicPath c_bgVideoPath c_subtitlePath].
  fold (finalPathOf env pid).
  unfold bind at 1. unfold readMedia at 1. rewrite Hbg. cbn beta iota.
  unfold bind at 1. unfold readMedia at 1. rewrite Ha. cbn beta iota.
  unfold bind at 1. unfold readMedia at 1. rewrite Hm. cbn beta iota.
  cbn [video audio audioOnly c_script c_title c_subtitlePath].
  unfold bind at 1. unfold modify at 1. cbn beta iota.
  set (w0 := record _ w).
  assert (Hc0 : calls w0 = calls w
                  ++ [CallFfmpegCompose {| video := Some v; audio := ab |}
                        {| video := None; audio := Some a1 |}
                        {| video := None; audio := Some a2 |}
                        audioFilter (videoFilter script title sp)]) by reflexivity.
  assert (Hfs0 : fs w0 = fs w) by reflexivity.
  clearbody w0.
  unfold bind at 1. unfold lift at 1.
  destruct (composeFfmpeg env) as [[]|e]; cbn beta iota.
  2:{ intros H; inversion H; subst. split; [exact Hc0|reflexivity]. }
  unfold bind at 1. unfold writeFile, modify. cbn beta iota.
  set (w1 := setFs _ w0).
  set (files := [audioPathOf env pid; musicPathOf env pid; bgp] ++ _).
  unfold bind at 1.
  destruct (cleanupTempFiles_run files w1) as (w2 & E & Hc & Hin & Hout).
  rewrite E. unfold ret. intros H; inversion H; subst r w'; clear H.
  pose proof (finalPath_fresh env pid) as (F1 & F2 & F3 & F4 & F5).
  assert (Hfinal : ~ In (finalPathOf env pid) files).
  { subst files. intros X. apply in_app_or in X. destruct X as [X|X].
    - cbn in X. destruct X as [X|[X|[X|[]]]]; try congruence.
      destruct Hbgp; subst bgp; congruence.
    - destruct Hsp as [Hsp|Hsp]; subst sp; cbn in X; [destruct X|].
      destruct (truthy (subtitlePathOf env pid)); cbn in X; [|destruct X].
      destruct X as [X|[]]. congruence. }
  split; [rewrite Hc; subst w1; exact Hc0|].
  split; [reflexivity|]. split.
  { rewrite (Hout _ Hfinal). subst w1. cbn. rewrite lookup_insert_eq.
    reflexivity. }
  split; [apply Hin; subst files; cbn; auto|].
  split; [apply Hin; subst files; cbn; auto|].
  split; [apply Hin; subst files; cbn; auto|].
  intros Es. subst sp. apply Hin. subst files. apply in_or_app. right.
  assert (Ht : truthy (subtitlePathOf env pid) = true).
  { unfold subtitlePathOf, tempPath, TEMP_DIR.
    destruct (cwd env); reflexivity. }
  rewrite Ht. left; reflexivity.
Qed.

(** The upload to the drive and its fallback: the [try]/[catch] block at
    the end of [executeJob]. *)
Lemma upload_block_spec env pid title content w r w' :
  fs w !! finalPathOf env pid = Some content ->
  tryCatch
    (driveResult <- uploadVideoToDrive env (finalPathOf env pid) (driveFileName title pid) ;;
     updateProject (dbUpdateAfterUpload env) pid
       {| driveFileId := Some (fileId driveResult);
          driveWebViewLink := Some (webViewLink driveResult);
          videoUrl := Some (videoUrlOf pid) |} ;;
     cleanupTempFiles [finalPathOf env pid])
    (fun driveError =>
       updateProject (dbUpdateLocal env) pid
         {| driveFileId := None; driveWebViewLink := None;
            videoUrl := Some (videoUrlOf pid) |}) w = (r, w') ->
  calls w' = calls w ++ [CallDriveUpload (driveFileName title pid) content]
  /\ (forall q, q <> finalPathOf env pid -> fs w' !! q = fs w !! q)
  /\ if storeOk env
     then r = Ok tt
          /\ fs w' !! finalPathOf env pid = (if uploaded env then None else Some content)
     else exists e, r = Throw e.
Proof.
  intros Hf. unfold storeOk, uploaded.
  unfold tryCatch, bind, uploadVideoToDrive. rewrite Hf.
  unfold bind, modify, lift, updateProject, bind, lift, modify, ret.
  destruct (driveUpload env) as [res|e1].
  - destruct (dbUpdateAfterUpload env) as [[]|e2].
    + cbn [orb].
      destruct (cleanupTempFiles_run [finalPathOf env pid]
                  (setProjects
                     (alter (fun row =>
                        {| driveFileId := Some (fileId res);
                           driveWebViewLink := Some (webViewLink res);
                           videoUrl := Some (videoUrlOf pid) |}) pid)
                     (record (CallDriveUpload (driveFileName title pid) content) w)))
        as (w2 & E & Hc & Hin & Hout).
      cbn -[finalPathOf cleanupTempFiles] in E |- *. rewrite E.
      intros H; inversion H; subst r w'; clear H.
      split; [rewrite Hc; reflexivity|]. split.
      * intros q Hq. rewrite Hout; [reflexivity|].
        intros [X|[]]. congruence.
      * split; [reflexivity|]. apply Hin. left; reflexivity.
    + cbn [orb]. destruct (dbUpdateLocal env) as [[]|e3];
        intros H; inversion H; subst r w'; clear H; cbn -[finalPathOf].
      * split; [reflexivity|]. split; [reflexivity|]. split; [reflexivity|exact Hf].
      * split; [reflexivity|]. split; [reflexivity|]. eexists; reflexivity.
  - cbn [orb]. destruct (dbUpdateLocal env) as [[]|e3];
      intros H; inversion H; subst r w'; clear H; cbn -[finalPathOf].
    + split; [reflexivity|]. split; [reflexivity|]. split; [reflexivity|exact Hf].
    + split; [reflexivity|]. split; [reflexivity|]. eexists; reflexivity.
Qed.

End StageFacts4.

Section QuietFacts.
Import Js Runtime DurationPolicy SubtitleUtils AudioUtils VideoUtils TTSService VideoProcessor.
Local Open Scope js_scope.

Lemma quiet_ret {A} (a : A) : quiet (ret a).
Proof. intros w r w' H. inversion H; subst. repeat split. Qed.

Lemma quiet_throw {A} (e : jsstring) : quiet (@throw A e).
Proof. intros w r w' H. inversion H; subst. repeat split. Qed.

Lemma quiet_lift {A} (x : Result A) : quiet (lift x).
Proof. intros w r w' H. inversion H; subst. repeat split. Qed.

Lemma quiet_bind {A B} (m : M A) (k : A -> M B) :
  quiet m -> (forall a, quiet (k a)) -> quiet (bind m k).
Proof.
  intros Hm Hk w r w' H. unfold bind in H.
  destruct (m w) as [[a|e] w1] eqn:E; apply Hm in E; destruct E as (e1 & e2 & e3).
  - apply Hk in H. destruct H as (h1 & h2 & h3). repeat split; congruence.
  - inversion H; subst. repeat split; assumption.
Qed.

Lemma quiet_tryCatch {A} (m : M A) (h : jsstring -> M A) :
  quiet m -> (forall e, quiet (h e)) -> quiet (tryCatch m h).
Proof.
  intros Hm Hh w r w' H. unfold tryCatch in H.
  destruct (m w) as [[a|e] w1] eqn:E; apply Hm in E; destruct E as (e1 & e2 & e3).
  - inversion H; subst. repeat split; assumption.
  - apply Hh in H. destruct H as (h1 & h2 & h3). repeat split; congruence.
Qed.

Lemma quiet_setFs f : quiet (modify (setFs f)).
Proof. intros w r w' H. inversion H; subst. repeat split. Qed.

Lemma quiet_record c : quiet (modify (record c)).
Proof. intros w r w' H. inversion H; subst. repeat split. Qed.

Lemma quiet_setProjects f : quiet (modify (setProjects f)).
Proof. intros w r w' H. inversion H; subst. repeat split. Qed.

Lemma quiet_writeFile p f : quiet (writeFile p f).
Proof. apply quiet_setFs. Qed.

Lemma quiet_unlink p : quiet (unlink p).
Proof.
  intros w r w' H. unfold unlink in H.
  destruct (fs w !! p); inversion H; subst; repeat split.
Qed.

Lemma quiet_ffprobe env p : quiet (ffprobe env p).
Proof.
  intros w r w' H. unfold ffprobe in H.
  destruct (fs w !! p) as [[m|c]|]; inversion H; subst; repeat split.
Qed.

Lemma quiet_readMedia env p : quiet (readMedia env p).
Proof.
  intros w r w' H. unfold readMedia in H.
  destruct (fs w !! p) as [[m|c]|]; inversion H; subst; repeat split.
Qed.

Ltac quiet_step :=
  first
    [ apply quiet_ret | apply quiet_throw | apply quiet_lift
    | apply quiet_writeFile | apply quiet_unlink | apply quiet_ffprobe
    | apply quiet_readMedia | apply quiet_record | apply quiet_setProjects
    | apply quiet_setFs
    | apply quiet_bind; [|intros ?]
    | apply quiet_tryCatch; [|intros ?]
    | match goal with
      | |- quiet (match ?x with _ => _ end) => destruct x
      | |- quiet (if ?c then _ else _) => destruct c
      end ].

Lemma quiet_generateTTSPlaceholder env pid script emo :
  quiet (generateTTSPlaceholder env pid script emo).
Proof.
  unfold generateTTSPlaceholder, generateSpeechWithEdgeTTS, generateSpeechWithK2FSA,
    wrapError.
  repeat quiet_step.
Qed.

Lemma quiet_getAudioDuration env p : quiet (getAudioDuration env p).
Proof. unfold getAudioDuration. repeat quiet_step. Qed.

Lemma quiet_generateMusicPlaceholder env pid vt d :
  quiet (generateMusicPlaceholder env pid vt d).
Proof. unfold generateMusicPlaceholder. repeat quiet_step. Qed.

Lemma quiet_generateVideoPlaceholder env pid script d :
  quiet (generateVideoPlaceholder env pid script d).
Proof. unfold generateVideoPlaceholder, wrapError. repeat quiet_step. Qed.

Lemma quiet_extendVideoToAudioLength env p d o :
  quiet (extendVideoToAudioLength env p d o).
Proof. unfold extendVideoToAudioLength. repeat quiet_step. Qed.

Lemma quiet_generateSubtitleFile env script d p :
  quiet (generateSubtitleFile env script d p).
Proof. unfold generateSubtitleFile. repeat quiet_step. Qed.

Lemma quiet_cleanupTempFiles files : quiet (cleanupTempFiles files).
Proof.
  unfold cleanupTempFiles. induction files as [|f files IH]; cbn [fold_right].
  - apply quiet_ret.
  - apply quiet_bind; [|intros _; exact IH].
    apply quiet_tryCatch; [apply quiet_unlink | intros _; apply quiet_ret].
Qed.

Lemma quiet_composeVideo env o : quiet (composeVideo env o).
Proof.
  unfold composeVideo.
  repeat first [apply quiet_cleanupTempFiles | quiet_step].
Qed.

Lemma quiet_uploadVideoToDrive env p n : quiet (uploadVideoToDrive env p n).
Proof.
  intros w r w' H. unfold uploadVideoToDrive in H.
  destruct (fs w !! p).
  - revert H. apply quiet_bind; [apply quiet_record | intros _; apply quiet_lift].
  - inversion H; subst. repeat split.
Qed.

Lemma quiet_updateProject res id updates : quiet (updateProject res id updates).
Proof. unfold updateProject. repeat quiet_step. Qed.

End QuietFacts.

Section RunFacts.
Import Js Runtime DurationPolicy SubtitleUtils AudioUtils VideoUtils TTSService VideoProcessor.
Local Open Scope js_scope.

Ltac step_progress w1 Hf Hc Hn Hs :=
  unfold bind at 1; rewrite updateProgress_run; cbn beta iota;
  match goal with
  | |- context [notify ?s (setStatuses ?f ?w)] =>
      set (w1 := notify s (setStatuses f w));
      assert (Hf : fs w1 = fs w) by reflexivity;
      assert (Hc : calls w1 = calls w) by reflexivity;
      assert (Hn : notifications w1 = notifications w ++ [s]) by reflexivity;
      assert (Hs : processingStatuses w1 = f (processingStatuses w)) by reflexivity;
      clearbody w1
  end.

Ltac chase_notifications :=
  repeat match goal with
         | H : notifications ?a = _ |- context [notifications ?a] => rewrite H
         end.

Ltac chase_statuses :=
  repeat match goal with
         | H : processingStatuses ?a = _ |- context [processingStatuses ?a] => rewrite H
         end.

Ltac finish_trace :=
  split; [chase_notifications; cbn [firstn planStatuses]; rewrite <- ?app_assoc; reflexivity|];
  split; [chase_statuses; cbn [nth_error planStatuses Nat.sub]; apply lookup_insert_eq|].

Ltac fail_run :=
  try match goal with
      | H : exists e, ?r = Throw e |- _ => destruct H as [? H]; subst r
      | H : ?r = Throw _ |- _ => subst r
      end;
  cbn beta iota;
  let X := fresh in
  intros X; inversion X; subst; clear X;
  finish_trace; eexists; reflexivity.

(** What the body of [executeJob] does, from the outcomes of its external
    calls: the notifications it makes, the status it leaves in the store,
    and, when it succeeds, the composed asset it leaves behind: on the
    drive, and locally unless the upload was recorded. *)
Lemma runStages_outcome env job w r w' :
  runStages env job w = (r, w') ->
  notifications w' = notifications w
                       ++ firstn (stagesReached env job) (planStatuses (job_projectId job))
  /\ processingStatuses w' !! job_projectId job
     = nth_error (planStatuses (job_projectId job)) (stagesReached env job - 1)
  /\ match sizing env job with
     | Some sz =>
         r = Ok (job_projectId job)
         /\ calls w' = calls w ++ ttsCalls env
                         ++ [CallSora (seconds (sz_target sz));
                             composeCall env job sz;
                             CallDriveUpload (driveFileName (title job) (job_projectId job))
                                             (finalAsset sz)]
         /\ fs w' !! finalPathOf env (job_projectId job)
            = (if uploaded env then None else Some (finalAsset sz))
         /\ fs w' !! audioPathOf env (job_projectId job) = None
         /\ fs w' !! musicPathOf env (job_projectId job) = None
     | None => exists e, r = Throw e
     end.
Proof.
  unfold runStages, sizing, stagesReached. set (pid := job_projectId job).
  unfold bind at 1. unfold modify at 1. cbn beta iota.
  set (w0 := setActiveJobs _ w).
  assert (Hfs0 : fs w0 = fs w) by reflexivity.
  assert (Hcalls0 : calls w0 = calls w) by reflexivity.
  assert (Hn0 : notifications w0 = notifications w) by reflexivity.
  assert (Hs0 : processingStatuses w0 = processingStatuses w) by reflexivity.
  clearbody w0.
  step_progress w1 Hfs1 Hcalls1 Hn1 Hs1. step_progress w2 Hfs2 Hcalls2 Hn2 Hs2.
  (* speech *)
  unfold bind at 1.
  destruct (generateTTSPlaceholder env pid (script job) (emotions job) w2)
    as [r1 w3] eqn:E1.
  pose proof (quiet_generateTTSPlaceholder _ _ _ _ _ _ _ E1) as (Hn3 & Hs3 & _).
  apply generateTTSPlaceholder_spec in E1. destruct E1 as (_ & Hc3 & Hs).
  destruct (speechOf env (script job)) as [speech|]; [|fail_run].
  destruct Hs as [-> Ha3]. cbn beta iota.
  (* measurement *)
  unfold bind at 1. rewrite (getAudioDuration_known env _ speech w3 Ha3).
  destruct (Qeq_bool speech 0); [fail_run|].
  cbn beta iota zeta.
  set (measured := roundUpDuration speech).
  set (target := targetDuration (decideSoraDuration measured)).
  step_progress w4 Hfs4 Hcalls4 Hn4 Hs4.
  (* music *)
  unfold bind at 1. rewrite generateMusicPlaceholder_run.
  destruct (musicFfmpeg env) as [[]|e]; [|fail_run].
  cbn beta iota. fold (musicPathOf env pid).
  set (w5 := setFs _ w4).
  assert (Hm5 : fs w5 !! musicPathOf env pid = Some (audioOnly measured)).
  { subst w5. cbn. apply lookup_insert_eq. }
  assert (Ha5 : fs w5 !! audioPathOf env pid = Some (audioOnly speech)).
  { subst w5. cbn. rewrite lookup_insert_ne, Hfs4; [exact Ha3|].
    unfold musicPathOf, audioPathOf. apply tempPath_ne. discriminate. }
  assert (Hc5 : calls w5 = calls w4) by reflexivity.
  assert (Hn5 : notifications w5 = notifications w4) by reflexivity.
  assert (Hs5 : processingStatuses w5 = processingStatuses w4) by reflexivity.
  clearbody w5.
  step_progress w6 Hfs6 Hcalls6 Hn6 Hs6.
  (* background video *)
  unfold bind at 1.
  destruct (generateVideoPlaceholder env pid (script job) (seconds target) w6)
    as [r7 w7] eqn:E7.
  pose proof (quiet_generateVideoPlaceholder _ _ _ _ _ _ _ E7) as (Hn7 & Hs7 & _).
  apply generateVideoPlaceholder_spec in E7. destruct E7 as (Hfs7 & Hv).
  destruct (clipOf env (seconds target)) as [[clip sound]|]; [|fail_run].
  destruct Hv as (-> & Hbg7 & Hc7). cbn beta iota.
  (* extension *)
  unfold bind at 1.
  match goal with
  | |- context [(if ?c then extendVideoToAudioLength env ?p ?m None else ret ?p) w7] =>
      destruct ((if c then extendVideoToAudioLength env p m None else ret p) w7)
        as [r8 w8] eqn:E8
  end.
  assert (Hq8 : notifications w8 = notifications w7
                /\ processingStatuses w8 = processingStatuses w7).
  { revert E8. match goal with |- (if ?c then _ else _) _ = _ -> _ => destruct c end;
      intros E8.
    - apply quiet_extendVideoToAudioLength in E8. tauto.
    - apply quiet_ret in E8. tauto. }
  destruct Hq8 as [Hn8 Hs8].
  apply (extension_spec env pid clip sound measured (seconds target)) in E8;
    [|exact Hbg7].
  destruct E8 as (Hfs8 & Hc8 & Hp).
  destruct (pictureOf env clip sound measured (seconds target)) as [picture|];
    [|fail_run].
  destruct Hp as (bgp & -> & Hbgp & Hbg8). cbn beta iota.
  step_progress w9 Hfs9 Hcalls9 Hn9 Hs9.
  (* captions *)
  unfold bind at 1.
  destruct (generateSubtitleFile env (script job) measured
              (tempPath env (pid ++ lit "_subtitles.ass")) w9) as [r10 w10] eqn:E10.
  pose proof (quiet_generateSubtitleFile _ _ _ _ _ _ _ E10) as (Hn10 & Hs10 & _).
  apply (generateSubtitleFile_spec env pid) in E10.
  destruct E10 as (Hfs10 & Hc10 & Hcap).
  assert (Hsub : exists captions,
             captionsOf env (script job) measured = Some captions
             /\ r10 = Ok (if captions then Some (subtitlePathOf env pid) else None)
             \/ captionsOf env (script job) measured = None /\ exists e, r10 = Throw e).
  { destruct (captionsOf env (script job) measured) as [[|]|].
    - destruct Hcap as [-> _]. exists true. left. split; reflexivity.
    - destruct Hcap as [-> _]. exists false. left. split; reflexivity.
    - exists true. right. split; [reflexivity | exact Hcap]. }
  clear Hcap. destruct Hsub as (captions & [(Ecap & ->)|(Ecap & Hthrow)]);
    rewrite Ecap; [|fail_run].
  set (sp := if captions then Some (subtitlePathOf env pid) else None).
  assert (Hsp : sp = None \/ sp = Some (subtitlePathOf env pid)).
  { subst sp. destruct captions; [right|left]; reflexivity. }
  cbn beta iota.
  (* compositing *)
  unfold bind at 1.
  match goal with
  | |- context [composeVideo env ?o w10] =>
      destruct (composeVideo env o w10) as [r11 w11] eqn:E11
  end.
  pose proof (quiet_composeVideo _ _ _ _ _ E11) as (Hn11 & Hs11 & _).
  assert (Hne_sub : forall q, q = audioPathOf env pid \/ q = musicPathOf env pid
                              \/ q = bgPathOf env pid \/ q = bgExtendedPathOf env pid ->
                              q <> subtitlePathOf env pid).
  { unfold audioPathOf, musicPathOf, bgPathOf, bgExtendedPathOf, subtitlePathOf.
    intros q [-> | [-> | [-> | ->]]]; apply tempPath_ne; discriminate. }
  assert (Hne_ext : forall q, q = audioPathOf env pid \/ q = musicPathOf env pid ->
                              q <> bgExtendedPathOf env pid).
  { unfold audioPathOf, musicPathOf, bgExtendedPathOf.
    intros q [-> | ->]; apply tempPath_ne; discriminate. }
  assert (Hne_bg : forall q, q = audioPathOf env pid \/ q = musicPathOf env pid ->
                             q <> bgPathOf env pid).
  { unfold audioPathOf, musicPathOf, bgPathOf.
    intros q [-> | ->]; apply tempPath_ne; discriminate. }
  apply (composeVideo_spec env pid bgp sp (script job) (title job) _ picture
           (audio (clipMedia clip sound)) speech measured) in E11.
  2:{ rewrite Hfs10, Hfs9; [exact Hbg8|].
      destruct Hbgp; subst bgp; apply Hne_sub; auto. }
  2:{ rewrite Hfs10, Hfs9, Hfs8, Hfs7, Hfs6
        by (first [apply Hne_sub | apply Hne_ext | apply Hne_bg]; auto).
      exact Ha5. }
  2:{ rewrite Hfs10, Hfs9, Hfs8, Hfs7, Hfs6
        by (first [apply Hne_sub | apply Hne_ext | apply Hne_bg]; auto).
      exact Hm5. }
  2:{ exact Hbgp. }
  2:{ exact Hsp. }
  destruct E11 as (Hc11 & Hcomp).
  destruct (composeFfmpeg env) as [[]|e]; [|fail_run].
  destruct Hcomp as (-> & Hfin11 & Hna11 & Hnm11 & _). cbn beta iota.
  step_progress w12 Hfs12 Hcalls12 Hn12 Hs12. cbn zeta.
  (* upload *)
  unfold bind at 1.
  match goal with
  | |- context [tryCatch ?m ?h w12] =>
      destruct (tryCatch m h w12) as [r13 w13] eqn:E13
  end.
  assert (Hq13 : notifications w13 = notifications w12
                 /\ processingStatuses w13 = processingStatuses w12).
  { revert E13. intros E13.
    apply quiet_tryCatch in E13; [tauto| |].
    - apply quiet_bind; [apply quiet_uploadVideoToDrive|intros ?].
      apply quiet_bind; [apply quiet_updateProject|intros ?].
      apply quiet_cleanupTempFiles.
    - intros ?. apply quiet_updateProject. }
  destruct Hq13 as [Hn13 Hs13].
  apply (upload_block_spec env pid (title job)
           (MediaFile {| video := Some picture; audio := Some speech |})) in E13.
  2:{ rewrite Hfs12. exact Hfin11. }
  destruct E13 as (Hc13 & Hfs13 & Hst).
  destruct (storeOk env); [|fail_run].
  destruct Hst as [-> Hfin13]. cbn beta iota.
  step_progress w14 Hfs14 Hcalls14 Hn14 Hs14.
  unfold ret. intros X; inversion X; subst r w'; clear X.
  pose proof (finalPath_fresh env pid) as (F1 & F2 & _).
  finish_trace.
  split; [reflexivity|]. split.
  { rewrite Hcalls14, Hc13, Hcalls12, Hc11, Hc10, Hcalls9, Hc8, Hc7, Hcalls6, Hc5,
      Hcalls4, Hc3, Hcalls2, Hcalls1, Hcalls0.
    unfold finalAsset, composeCall.
    cbn [sz_target sz_picture sz_speech sz_measured sz_clip sz_sound sz_captions].
    rewrite <- !app_assoc. reflexivity. }
  split.
  { rewrite Hfs14, Hfin13. reflexivity. }
  split.
  { rewrite Hfs14, Hfs13 by (intros X; apply F1; symmetry; exact X).
    rewrite Hfs12. exact Hna11. }
  { rewrite Hfs14, Hfs13 by (intros X; apply F2; symmetry; exact X).
    rewrite Hfs12. exact Hnm11. }
Qed.

End RunFacts.

Section JobFacts.
Import Js Runtime DurationPolicy SubtitleUtils AudioUtils VideoUtils TTSService VideoProcessor.
Local Open Scope js_scope.

Lemma stagesReached_sizing env job :
  match sizing env job with
  | Some _ => stagesReached env job = 7%nat
  | None => (2 <= stagesReached env job <= 6)%nat
  end.
Proof.
  unfold sizing, stagesReached.
  destruct (speechOf env (script job)) as [speech|]; [|lia].
  destruct (Qeq_bool speech 0); [lia|]. cbn zeta.
  destruct (musicFfmpeg env); [|lia].
  destruct (clipOf env _) as [[clip sound]|]; [|lia].
  destruct (pictureOf env _ _ _ _); [|lia].
  destruct (captionsOf env _ _); [|lia].
  destruct (composeFfmpeg env); [|lia].
  destruct (storeOk env); [reflexivity|lia].
Qed.

Lemma executeJob_run env job w :
  executeJob env job w
  = match runStages env job w with
    | (Ok r, w1) => (Ok r, setActiveJobs (delete (job_projectId job)) w1)
    | (Throw e, w1) =>
        (Throw e,
         setActiveJobs (delete (job_projectId job))
           (notify (errorStatus (job_projectId job) e)
              (setStatuses (insert (job_projectId job) (errorStatus (job_projectId job) e))
                 w1)))
    end.
Proof.
  unfold executeJob, tryFinally, tryCatch.
  destruct (runStages env job w) as [[r|e] w1]; reflexivity.
Qed.

(** What [executeJob] does, from the outcomes of its external calls. *)
Lemma executeJob_outcome env job w r w' :
  executeJob env job w = (r, w') ->
  match sizing env job with
  | Some sz =>
      r = Ok (job_projectId job)
      /\ notifications w' = notifications w ++ planStatuses (job_projectId job)
      /\ processingStatuses w' !! job_projectId job
         = nth_error (planStatuses (job_projectId job)) 6
      /\ calls w' = calls w ++ ttsCalls env
                      ++ [CallSora (seconds (sz_target sz));
                          composeCall env job sz;
                          CallDriveUpload (driveFileName (title job) (job_projectId job))
                                          (finalAsset sz)]
      /\ fs w' !! finalPathOf env (job_projectId job)
         = (if uploaded env then None else Some (finalAsset sz))
      /\ fs w' !! audioPathOf env (job_projectId job) = None
      /\ fs w' !! musicPathOf env (job_projectId job) = None
  | None =>
      exists e,
        r = Throw e
        /\ notifications w' = notifications w
                                ++ firstn (stagesReached env job)
                                          (planStatuses (job_projectId job))
                                ++ [errorStatus (job_projectId job) e]
        /\ processingStatuses w' !! job_projectId job
           = Some (errorStatus (job_projectId job) e)
  end.
Proof.
  rewrite executeJob_run.
  destruct (runStages env job w) as [r1 w1] eqn:E.
  apply runStages_outcome in E. destruct E as (Hn & Hs & Hz).
  pose proof (stagesReached_sizing env job) as Hk.
  destruct (sizing env job) as [sz|].
  - destruct Hz as (-> & Hc & Hf & Ha & Hm).
    intros X; inversion X; subst r w'; clear X. cbn -[planStatuses finalPathOf audioPathOf musicPathOf].
    rewrite Hk in Hn, Hs.
    split; [reflexivity|]. split; [exact Hn|]. split; [exact Hs|].
    split; [exact Hc|]. split; [exact Hf|]. split; [exact Ha | exact Hm].
  - destruct Hz as [e ->].
    intros X; inversion X; subst r w'; clear X. cbn -[planStatuses firstn].
    exists e. split; [reflexivity|]. split.
    + rewrite Hn, <- app_assoc. reflexivity.
    + apply lookup_insert_eq.
Qed.

End JobFacts.

Section SizingFacts.
Import Js Runtime DurationPolicy SubtitleUtils AudioUtils VideoUtils TTSService VideoProcessor.

Lemma sizing_inv env job sz :
  sizing env job = Some sz ->
  speechOf env (script job) = Some (sz_speech sz)
  /\ Qeq_bool (sz_speech sz) 0 = false
  /\ sz_measured sz = roundUpDuration (sz_speech sz)
  /\ sz_target sz = targetDuration (decideSoraDuration (sz_measured sz))
  /\ musicFfmpeg env = Ok tt
  /\ clipOf env (seconds (sz_target sz)) = Some (sz_clip sz, sz_sound sz)
  /\ pictureOf env (sz_clip sz) (sz_sound sz) (sz_measured sz) (seconds (sz_target sz))
     = Some (sz_picture sz)
  /\ captionsOf env (script job) (sz_measured sz) = Some (sz_captions sz)
  /\ composeFfmpeg env = Ok tt
  /\ storeOk env = true.
Proof.
  unfold sizing.
  destruct (speechOf env (script job)) as [speech|]; [|discriminate].
  destruct (Qeq_bool speech 0) eqn:E0; [discriminate|]. cbn zeta.
  destruct (musicFfmpeg env) as [[]|]; [|discriminate].
  destruct (clipOf env _) as [[clip sound]|] eqn:Ec; [|discriminate].
  destruct (pictureOf env _ _ _ _) as [picture|] eqn:Ep; [|discriminate].
  destruct (captionsOf env _ _) as [captions|] eqn:Ecap; [|discriminate].
  destruct (composeFfmpeg env) as [[]|]; [|discriminate].
  destruct (storeOk env); [|discriminate].
  intros H; inversion H; subst; clear H. cbn.
  repeat split; assumption.
Qed.

(** The measurement adds a margin of at least 0.1 s and less than 0.2 s. *)
Lemma roundUpDuration_bounds (d : Q) :
  d + (1 # 10) <= roundUpDuration d /\ roundUpDuration d < d + (1 # 5).
Proof.
  unfold roundUpDuration, Math_ceil.
  pose proof (Qle_ceiling (d * 10)) as H1.
  pose proof (Qceiling_lt (d * 10)) as H2.
  rewrite <- Z.add_opp_r, inject_Z_plus in H2. change (inject_Z (- (1))) with (- (1)) in H2.
  generalize dependent (inject_Z (Qceiling (d * 10))). intros c H1 H2.
  unfold Qdiv. change (/ 10) with (1 # 10). split; lra.
Qed.

Lemma clipMedia_format (clip : Q) (sound : bool) :
  exists f, formatDuration (clipMedia clip sound) = Some f /\ f == clip.
Proof.
  destruct sound; cbn.
  - exists (Qmax clip clip). split; [reflexivity|]. apply Q.max_id.
  - exists clip. split; reflexivity.
Qed.

(** The picture handed to the compositing pass: the clip as delivered, or,
    when the measured speech exceeds the requested seconds by more than
    0.1 s and the clip is shorter than the measured speech, the clip
    extended to 0.1 s beyond the measured speech. *)
Lemma pictureOf_cases env clip sound measured target picture :
  pictureOf env clip sound measured target = Some picture ->
  (1 # 10 < measured - target /\ clip < measured /\ picture == measured + (1 # 10))
  \/ ((measured - target <= 1 # 10 \/ measured <= clip) /\ picture = clip).
Proof.
  unfold pictureOf.
  destruct (clipMedia_format clip sound) as (f & Ef & Hf). rewrite Ef.
  destruct (Qle_bool (Qmax 0 (measured - target)) (1 # 10)) eqn:Ex; cbn [negb].
  - intros H; inversion H; subst. right. split; [left|reflexivity].
    apply Qle_bool_true_iff in Ex.
    eapply Qle_trans; [apply Q.le_max_r | exact Ex].
  - apply Qle_bool_false_iff in Ex.
    assert (Hx : 1 # 10 < measured - target).
    { destruct (Q.max_spec 0 (measured - target)) as [[_ E]|[_ E]];
        rewrite E in Ex; [exact Ex | lra]. }
    destruct (Qle_bool measured f) eqn:Em.
    + intros H; inversion H; subst. right. split; [right|reflexivity].
      apply Qle_bool_true_iff in Em. lra.
    + apply Qle_bool_false_iff in Em.
      destruct (extendFfmpeg env); [|discriminate].
      intros H; inversion H; subst. left.
      split; [exact Hx|]. split; [lra|]. unfold freezeFrame. lra.
Qed.

End SizingFacts.

Section Claim2.
Import Js Runtime DurationPolicy SubtitleUtils AudioUtils VideoUtils TTSService VideoProcessor.

(** C2 (amended).  For every job that reaches [complete]: the measured
    duration is the speech duration rounded up (at least 0.1 s above it,
    never below); the clip is only ever extended, never cut; when the
    measured duration exceeds the seconds requested from Sora by more than
    0.1 s and the clip delivered is shorter than the measured duration, the
    picture is the clip extended by freeze-frame to 0.1 s beyond the
    measured duration; when the excess is at most 0.1 s the clip is used as
    delivered.  The picture of the final asset is then at least as long as
    the speech whenever the clip delivered lasts at least the seconds
    requested, and the final asset, which lasts as long as the longer of
    its picture and its sound, is at least as long as the speech. *)
Theorem C2_video_covers_speech env job w r w' :
  executeJob env job w = (Ok r, w') ->
  exists sz,
    sizing env job = Some sz
    /\ In (CallDriveUpload (driveFileName (title job) (job_projectId job)) (finalAsset sz))
          (calls w')
    /\ sz_measured sz = roundUpDuration (sz_speech sz)
    /\ sz_speech sz + (1 # 10) <= sz_measured sz
    /\ sz_clip sz <= sz_picture sz
    /\ (1 # 10 < sz_measured sz - seconds (sz_target sz) ->
        sz_clip sz < sz_measured sz ->
        sz_picture sz == sz_measured sz + (1 # 10))
    /\ (sz_measured sz - seconds (sz_target sz) <= 1 # 10 ->
        sz_picture sz = sz_clip sz)
    /\ (seconds (sz_target sz) <= sz_clip sz -> sz_speech sz <= sz_picture sz)
    /\ (exists d, match finalAsset sz with
                  | MediaFile m => formatDuration m = Some d
                  | TextFile _ => False
                  end /\ sz_speech sz <= d /\ sz_picture sz <= d).
Proof.
  intros Hrun.
  apply executeJob_outcome in Hrun.
  destruct (sizing env job) as [sz|] eqn:Esz.
  2:{ destruct Hrun as (e & X & _). discriminate. }
  destruct Hrun as (_ & _ & _ & Hcalls & _).
  exists sz. split; [reflexivity|].
  destruct (sizing_inv env job sz Esz)
    as (_ & _ & Em & Et & _ & Ec & Ep & _).
  pose proof (roundUpDuration_bounds (sz_speech sz)) as [Hb1 Hb2].
  rewrite <- Em in Hb1, Hb2.
  pose proof (pictureOf_cases _ _ _ _ _ _ Ep) as Hp.
  split.
  { rewrite Hcalls. apply in_or_app. right. apply in_or_app. right.
    cbn. right. right. left. reflexivity. }
  split; [exact Em|]. split; [exact Hb1|]. split.
  { destruct Hp as [(_ & Hc & E)|(_ & E)]; rewrite E; [lra | apply Qle_refl]. }
  split.
  { intros Hx Hc. destruct Hp as [(_ & _ & E)|([H|H] & E)]; [exact E | lra | lra]. }
  split.
  { intros Hx. destruct Hp as [(H & _ & _)|(_ & E)]; [lra | exact E]. }
  split.
  { intros Hclip. destruct Hp as [(_ & _ & E)|([H|H] & E)]; rewrite E; lra. }
  exists (Qmax (sz_picture sz) (sz_speech sz)). split; [reflexivity|].
  split; [apply Q.le_max_r | apply Q.le_max_l].
Qed.

(** A five-second narration from Edge TTS, an exact clip from Sora. *)
Lemma C2_video_covers_speech_witness :
  exists sz,
    sizing (sampleEnv (Ok 5) (Ok 5) exactSora (Ok sampleUpload))
           (sampleJob (lit "Hello world, this is a test.")) = Some sz
    /\ sz_speech sz + (1 # 10) <= sz_measured sz
    /\ sz_clip sz <= sz_picture sz.
Proof.
  destruct (executeJob (sampleEnv (Ok 5) (Ok 5) exactSora (Ok sampleUpload))
              (sampleJob (lit "Hello world, this is a test.")) emptyWorld)
    as [r w'] eqn:E.
  assert (Er : exists p, r = Ok p).
  { apply (f_equal fst) in E. cbn [fst] in E. rewrite <- E.
    eexists. vm_compute. reflexivity. }
  destruct Er as [p ->].
  destruct (C2_video_covers_speech _ _ _ _ _ E) as (sz & Hsz & _ & _ & Hm & Hc & _).
  exists sz. split; [exact Hsz|]. split; [exact Hm | exact Hc].
Defined.

(** C2 as stated fails in two ways.  For a narration of 12 s the measured
    duration, 12.1 s, exceeds the chosen clip duration, 12 s, yet the clip
    is not extended: the picture handed to the compositing pass and
    uploaded lasts 12 s.  And when Sora delivers 3.8 s for the 4 s
    requested, a narration of 3.9 s measures 4 s, no extension is due, and
    the job completes with a picture of 3.8 s, shorter than its speech. *)
Lemma C2_counterexample :
  (fst (executeJob (sampleEnv (Ok 12) (Ok 12) exactSora (Ok sampleUpload))
                   (sampleJob (lit "Hello world, this is a test.")) emptyWorld)
   = Ok (lit "p1")
   /\ exists sz,
        sizing (sampleEnv (Ok 12) (Ok 12) exactSora (Ok sampleUpload))
               (sampleJob (lit "Hello world, this is a test.")) = Some sz
        /\ sz_speech sz = 12
        /\ sz_measured sz == 121 # 10
        /\ seconds (sz_target sz) = 12
        /\ seconds (sz_target sz) < sz_measured sz
        /\ sz_picture sz = 12
        /\ In (CallDriveUpload (lit "Demo_p1.mp4")
                 (MediaFile {| video := Some (sz_picture sz); audio := Some 12 |}))
              (calls (snd (executeJob (sampleEnv (Ok 12) (Ok 12) exactSora (Ok sampleUpload))
                                      (sampleJob (lit "Hello world, this is a test."))
                                      emptyWorld))))
  /\ (fst (executeJob (sampleEnv (Ok (39 # 10)) (Ok (39 # 10))
                         (fun secs => Ok (secs - (1 # 5), false)) (Ok sampleUpload))
                      (sampleJob (lit "Hello world, this is a test.")) emptyWorld)
      = Ok (lit "p1")
      /\ exists sz,
           sizing (sampleEnv (Ok (39 # 10)) (Ok (39 # 10))
                     (fun secs => Ok (secs - (1 # 5), false)) (Ok sampleUpload))
                  (sampleJob (lit "Hello world, this is a test.")) = Some sz
           /\ sz_speech sz = 39 # 10
           /\ sz_measured sz == 4
           /\ seconds (sz_target sz) = 4
           /\ sz_picture sz == 19 # 5
           /\ sz_picture sz < sz_speech sz
           /\ In (CallDriveUpload (lit "Demo_p1.mp4")
                    (MediaFile {| video := Some (sz_picture sz);
                                  audio := Some (39 # 10) |}))
                 (calls (snd (executeJob
                                (sampleEnv (Ok (39 # 10)) (Ok (39 # 10))
                                   (fun secs => Ok (secs - (1 # 5), false))
                                   (Ok sampleUpload))
                                (sampleJob (lit "Hello world, this is a test."))
                                emptyWorld)))).
Proof.
  split.
  - split; [vm_compute; reflexivity|].
    eexists. split; [vm_compute; reflexivity|].
    cbn [sz_speech sz_measured sz_target sz_picture].
    split; [reflexivity|]. split; [reflexivity|]. split; [reflexivity|].
    split; [reflexivity|]. split; [reflexivity|].
    vm_compute. right. right. right. left. reflexivity.
  - split; [vm_compute; reflexivity|].
    eexists. split; [vm_compute; reflexivity|].
    cbn [sz_speech sz_measured sz_target sz_picture].
    split; [reflexivity|]. split; [reflexivity|]. split; [reflexivity|].
    split; [reflexivity|]. split; [reflexivity|].
    vm_compute. right. right. right. left. reflexivity.
Qed.

End Claim2.

Section Claim6.
Import Js Runtime DurationPolicy SubtitleUtils AudioUtils VideoUtils TTSService VideoProcessor.

Lemma planStatuses_sorted (pid : jsstring) (k : nat) :
  StronglySorted inOrder (firstn k (planStatuses pid)).
Proof.
  unfold inOrder.
  do 8 (destruct k as [|k]; [cbn; repeat constructor; cbn; lia|]).
  cbn. repeat constructor; cbn; lia.
Qed.

(** C6 (amended).  For every job, the notifications are a prefix of the
    stage plan (analyzing 10, generating_tts 30, generating_music 50,
    generating_video 70, composing 85, composing 95, complete 100) in plan
    order, hence with non-decreasing stage and progress: the whole plan
    when the job succeeds, and otherwise between two and six of them
    followed by one [error] notification, whose progress is 0.  The status
    store holds the last notification, and every [updateProgress] both
    stores its status and hands it to the callback. *)
Theorem C6_progress_order env job w :
  exists k,
    (2 <= k <= 7)%nat
    /\ notifications (snd (executeJob env job w))
       = notifications w ++ firstn k (planStatuses (job_projectId job))
           ++ match fst (executeJob env job w) with
              | Ok _ => []
              | Throw e => [errorStatus (job_projectId job) e]
              end
    /\ match fst (executeJob env job w) with
       | Ok _ => k = 7%nat
       | Throw _ => (k <= 6)%nat
       end
    /\ StronglySorted inOrder (firstn k (planStatuses (job_projectId job)))
    /\ (exists earlier s,
          notifications (snd (executeJob env job w)) = earlier ++ [s]
          /\ processingStatuses (snd (executeJob env job w)) !! job_projectId job = Some s)
    /\ forall pid st p step e w0,
         fst (updateProgress pid st p step e w0) = Ok tt
         /\ processingStatuses (snd (updateProgress pid st p step e w0)) !! pid
            = Some {| projectId := pid; stage := st; progress := p;
                      currentStep := step; error_ := e |}
         /\ notifications (snd (updateProgress pid st p step e w0))
            = notifications w0 ++ [{| projectId := pid; stage := st; progress := p;
                                      currentStep := step; error_ := e |}].
Proof.
  destruct (executeJob env job w) as [r w'] eqn:E. cbn [fst snd].
  apply executeJob_outcome in E.
  pose proof (stagesReached_sizing env job) as Hk.
  exists (stagesReached env job).
  destruct (sizing env job) as [sz|].
  - destruct E as (-> & Hn & Hs & _). rewrite Hk.
    split; [lia|]. split; [rewrite Hn, app_nil_r; reflexivity|].
    split; [reflexivity|]. split; [apply planStatuses_sorted|]. split.
    + rewrite Hn.
      exists (notifications w ++ firstn 6 (planStatuses (job_projectId job))).
      eexists. split; [rewrite <- app_assoc; reflexivity | exact Hs].
    + intros pid st p step e w0. rewrite updateProgress_run. cbn.
      split; [reflexivity|]. split; [apply lookup_insert_eq | reflexivity].
  - destruct E as (e & -> & Hn & Hs).
    split; [lia|]. split; [exact Hn|]. split; [lia|].
    split; [apply planStatuses_sorted|]. split.
    + rewrite Hn.
      exists (notifications w
                ++ firstn (stagesReached env job) (planStatuses (job_projectId job))).
      eexists. split; [rewrite <- app_assoc; reflexivity | exact Hs].
    + intros pid st p step e0 w0. rewrite updateProgress_run. cbn.
      split; [reflexivity|]. split; [apply lookup_insert_eq | reflexivity].
Qed.

(** C6 as stated fails for a job whose video stage throws: its progress
    values are 10, 30, 50, 70 and then 0, with the [error] notification. *)
Lemma C6_counterexample :
  List.map (fun s => (stage s, progress s))
    (notifications
       (snd (executeJob
               (sampleEnv (Ok 5) (Ok 5) (fun _ => Throw (lit "quota exceeded"))
                          (Ok sampleUpload))
               (sampleJob (lit "Hello world, this is a test.")) emptyWorld)))
  = [(analyzing, 10%Z); (generating_tts, 30%Z); (generating_music, 50%Z);
     (generating_video, 70%Z); (error, 0%Z)]
  /\ ~ StronglySorted Z.le [10; 30; 50; 70; 0]%Z.
Proof.
  split; [vm_compute; reflexivity|].
  intros H.
  inversion H as [|? ? _ H1]; subst.
  inversion H1 as [|? ? _ [|? ? _ [|? ? _ [|? ? H70 _]]]]; subst.
  lia.
Qed.

End Claim6.

Section Claim4.
Import Js Runtime DurationPolicy SubtitleUtils AudioUtils VideoUtils TTSService VideoProcessor.

(** After the silent fallback no freeze-frame extension is due: the tier
    chosen for the measured silence covers it up to the 0.1 s margin. *)
Lemma silence_needs_no_extension (t : SoraDuration) :
  Qeq_bool (seconds t) 0 = false
  /\ Qle_bool (Qmax 0 (roundUpDuration (seconds t)
                       - seconds (targetDuration
                                    (decideSoraDuration (roundUpDuration (seconds t))))))
              (1 # 10) = true.
Proof. destruct t; split; vm_compute; reflexivity. Qed.

Lemma silent_sizing env job e1 :
  edgeSpeech env = None ->
  k2fsaTTS env = Throw e1 ->
  silenceFfmpeg env = Ok tt ->
  musicFfmpeg env = Ok tt ->
  cometApiKey env = true ->
  (forall secs, exists clip, sora env secs = Ok clip) ->
  subtitleWrite env = Ok tt ->
  composeFfmpeg env = Ok tt ->
  storeOk env = true ->
  exists sz,
    sizing env job = Some sz
    /\ sz_speech sz = seconds (targetDuration (estimateSpeechDuration (script job))).
Proof.
  intros Hedge Hk2 Hsil Hmusic Hkey Hsora Hsub Hcomp Hstore.
  unfold sizing, speechOf. rewrite Hedge, Hk2, Hsil.
  set (t := targetDuration (estimateSpeechDuration (script job))).
  destruct (silence_needs_no_extension t) as [E0 Ex]. rewrite E0. cbn zeta.
  rewrite Hmusic. unfold clipOf. rewrite Hkey.
  destruct (Hsora (seconds (targetDuration
                              (decideSoraDuration (roundUpDuration (seconds t))))))
    as [[clip sound] Eclip].
  rewrite Eclip. unfold pictureOf. rewrite Ex. cbn [negb].
  unfold captionsOf. rewrite Hsub.
  destruct (hasInk (script job) && negb (Qle_bool (roundUpDuration (seconds t)) 0));
    rewrite Hcomp, Hstore; eexists; split; reflexivity.
Qed.

(** C4 (amended).  In the generating_tts stage the orchestrator calls Edge
    TTS, on its failure k2-fsa TTS, and on the failure of both synthesizes
    silence (there is no third provider in the chain): when both providers
    fail and every other step of the job succeeds, the job reaches
    [complete] with progress 100 and never the [error] state; the speech
    artifact is silence of the clip tier chosen for the word-count
    estimate. *)
Theorem C4_tts_exhaustion_completes env job w e1 :
  edgeSpeech env = None ->
  k2fsaTTS env = Throw e1 ->
  silenceFfmpeg env = Ok tt ->
  musicFfmpeg env = Ok tt ->
  cometApiKey env = true ->
  (forall secs, exists clip, sora env secs = Ok clip) ->
  subtitleWrite env = Ok tt ->
  composeFfmpeg env = Ok tt ->
  storeOk env = true ->
  fst (executeJob env job w) = Ok (job_projectId job)
  /\ notifications (snd (executeJob env job w))
     = notifications w ++ planStatuses (job_projectId job)
  /\ processingStatuses (snd (executeJob env job w)) !! job_projectId job
     = Some {| projectId := job_projectId job; stage := complete; progress := 100;
               currentStep := lit "Video generation complete"; error_ := None |}
  /\ List.filter isSpeechCall (calls (snd (executeJob env job w)))
     = List.filter isSpeechCall (calls w) ++ [CallEdgeTTS; CallK2FSA]
  /\ exists sz,
       sizing env job = Some sz
       /\ sz_speech sz = seconds (targetDuration (estimateSpeechDuration (script job))).
Proof.
  intros Hedge Hk2 Hsil Hmusic Hkey Hsora Hsub Hcomp Hstore.
  destruct (silent_sizing env job e1 Hedge Hk2 Hsil Hmusic Hkey Hsora Hsub Hcomp Hstore)
    as (sz & Esz & Espeech).
  destruct (executeJob env job w) as [r w'] eqn:E. cbn [fst snd].
  apply executeJob_outcome in E. rewrite Esz in E.
  destruct E as (-> & Hn & Hs & Hc & _).
  split; [reflexivity|]. split; [exact Hn|]. split; [exact Hs|]. split.
  - rewrite Hc. unfold ttsCalls. rewrite Hedge.
    rewrite !List.filter_app. cbn. reflexivity.
  - exists sz. split; [exact Esz | exact Espeech].
Qed.

(** Both providers down, everything else up. *)
Lemma C4_tts_exhaustion_completes_witness :
  fst (executeJob (sampleEnv (Throw (lit "edge down")) (Throw (lit "k2-fsa down"))
                             exactSora (Ok sampleUpload))
                  (sampleJob (lit "Hello world, this is a test.")) emptyWorld)
  = Ok (lit "p1").
Proof.
  refine (proj1 (C4_tts_exhaustion_completes
                   (sampleEnv (Throw (lit "edge down")) (Throw (lit "k2-fsa down"))
                              exactSora (Ok sampleUpload))
                   (sampleJob (lit "Hello world, this is a test.")) emptyWorld
                   (lit "k2-fsa down") _ _ _ _ _ _ _ _ _)); try reflexivity.
  intros secs. eexists. reflexivity.
Defined.

(** C4 as stated fails: with Edge TTS and k2-fsa TTS down and OpenAI TTS
    configured and working, no third provider is called; the job narrates
    with four seconds of silence. *)
Lemma C4_counterexample :
  fst (generateSpeechWithOpenAI
         (sampleEnv (Throw (lit "edge down")) (Throw (lit "k2-fsa down"))
                    exactSora (Ok sampleUpload))
         (lit "Hello world, this is a test.") (lit "/app/temp_videos/p1_audio.wav")
         None emptyWorld)
  = Ok (lit "/app/temp_videos/p1_audio.wav")
  /\ List.filter isSpeechCall
       (calls (snd (executeJob
                      (sampleEnv (Throw (lit "edge down")) (Throw (lit "k2-fsa down"))
                                 exactSora (Ok sampleUpload))
                      (sampleJob (lit "Hello world, this is a test.")) emptyWorld)))
     = [CallEdgeTTS; CallK2FSA]
  /\ exists sz,
       sizing (sampleEnv (Throw (lit "edge down")) (Throw (lit "k2-fsa down"))
                         exactSora (Ok sampleUpload))
              (sampleJob (lit "Hello world, this is a test.")) = Some sz
       /\ sz_speech sz = 4.
Proof.
  split; [vm_compute; reflexivity|]. split; [vm_compute; reflexivity|].
  eexists. split; [vm_compute; reflexivity | reflexivity].
Qed.

End Claim4.

Section Claim7.
Import Js Runtime DurationPolicy SubtitleUtils AudioUtils VideoUtils TTSService VideoProcessor.

(** The tier chosen for an estimate of [n] words at 2.5 words a second. *)
Lemma estimate_tier_by_words (n : nat) :
  let tier := targetDuration (decideSoraDuration (inject_Z (Z.of_nat n) / (5 # 2))) in
  (tier = Sora4 <-> (n <= 10)%nat)
  /\ (tier = Sora8 <-> (11 <= n <= 20)%nat)
  /\ (tier = Sora12 <-> (21 <= n)%nat).
Proof.
  cbv zeta.
  set (d := inject_Z (Z.of_nat n) / (5 # 2)).
  assert (Hd : d == inject_Z (Z.of_nat n) * (2 # 5)).
  { subst d. unfold Qdiv. reflexivity. }
  assert (H10 : d < 81 # 20 <-> (n <= 10)%nat).
  { rewrite Hd. split; intros H.
    - assert (X : inject_Z (Z.of_nat n) < inject_Z 11) by (change (inject_Z 11) with 11; lra).
      rewrite <- Zlt_Qlt in X. lia.
    - assert (X : inject_Z (Z.of_nat n) <= inject_Z 10) by (rewrite <- Zle_Qle; lia).
      change (inject_Z 10) with 10 in X. lra. }
  assert (H20 : d < 161 # 20 <-> (n <= 20)%nat).
  { rewrite Hd. split; intros H.
    - assert (X : inject_Z (Z.of_nat n) < inject_Z 21) by (change (inject_Z 21) with 21; lra).
      rewrite <- Zlt_Qlt in X. lia.
    - assert (X : inject_Z (Z.of_nat n) <= inject_Z 20) by (rewrite <- Zle_Qle; lia).
      change (inject_Z 20) with 20 in X. lra. }
  destruct (decide_target_cases d) as [[H E]|[[H1 [H2 E]]|[H E]]]; rewrite E.
  - apply H10 in H. (split; [|split]); (split; intros X); try discriminate; try reflexivity; lia.
  - apply H20 in H2.
    assert (~ (n <= 10)%nat) by (intros X; apply H10 in X; lra).
    (split; [|split]); (split; intros X); try discriminate; try reflexivity; lia.
  - assert (~ (n <= 20)%nat) by (intros X; apply H20 in X; lra).
    (split; [|split]); (split; intros X); try discriminate; try reflexivity; lia.
Qed.

(** C7 (amended).  When every speech provider in the chain fails, the
    silent fallback audio is synthesized with the duration of the clip tier
    that the duration policy chooses for the word-count estimate of the
    script (word count divided by 2.5 words per second): 4 s up to 10
    words, 8 s from 11 to 20 words, 12 s from 21 words on. *)
Theorem C7_silent_fallback_duration env pid script emo w e1 :
  edgeSpeech env = None ->
  k2fsaTTS env = Throw e1 ->
  silenceFfmpeg env = Ok tt ->
  let words := List.length (split re_spaces (trim script)) in
  let tier := targetDuration (estimateSpeechDuration script) in
  fst (generateTTSPlaceholder env pid script emo w) = Ok (audioPathOf env pid)
  /\ fs (snd (generateTTSPlaceholder env pid script emo w)) !! audioPathOf env pid
     = Some (audioOnly (seconds tier))
  /\ actualDuration (estimateSpeechDuration script)
     = inject_Z (Z.of_nat words) / (5 # 2)
  /\ (tier = Sora4 <-> (words <= 10)%nat)
  /\ (tier = Sora8 <-> (11 <= words <= 20)%nat)
  /\ (tier = Sora12 <-> (21 <= words)%nat).
Proof.
  intros Hedge Hk2 Hsil words tier.
  destruct (generateTTSPlaceholder env pid script emo w) as [r w'] eqn:E.
  apply generateTTSPlaceholder_spec in E. destruct E as (_ & _ & Hs).
  unfold speechOf in Hs. rewrite Hedge, Hk2, Hsil in Hs. destruct Hs as [-> Hf].
  cbn [fst snd]. split; [reflexivity|]. split; [exact Hf|]. split; [reflexivity|].
  apply estimate_tier_by_words.
Qed.

(** Six words, all providers down. *)
Lemma C7_silent_fallback_duration_witness :
  fst (generateTTSPlaceholder
         (sampleEnv (Throw (lit "edge down")) (Throw (lit "k2-fsa down"))
                    exactSora (Ok sampleUpload))
         (lit "p1") (lit "Hello world, this is a test.") None emptyWorld)
  = Ok (lit "/app/temp_videos/p1_audio.wav").
Proof.
  exact (proj1 (C7_silent_fallback_duration
                  (sampleEnv (Throw (lit "edge down")) (Throw (lit "k2-fsa down"))
                             exactSora (Ok sampleUpload))
                  (lit "p1") (lit "Hello world, this is a test.") None emptyWorld
                  (lit "k2-fsa down") eq_refl eq_refl eq_refl)).
Defined.

(** C7 as stated fails for the six-word script "Hello world, this is a
    test.": the estimate is 2.4 s, the silence lasts 4 s. *)
Lemma C7_counterexample :
  List.length (split re_spaces (trim (lit "Hello world, this is a test."))) = 6%nat
  /\ actualDuration (estimateSpeechDuration (lit "Hello world, this is a test."))
     == 12 # 5
  /\ fs (snd (generateTTSPlaceholder
                (sampleEnv (Throw (lit "edge down")) (Throw (lit "k2-fsa down"))
                           exactSora (Ok sampleUpload))
                (lit "p1") (lit "Hello world, this is a test.") None emptyWorld))
       !! lit "/app/temp_videos/p1_audio.wav"
     = Some (audioOnly 4)
  /\ ~ (4 == 12 # 5).
Proof.
  split; [reflexivity|]. split; [reflexivity|]. split; [vm_compute; reflexivity|].
  discriminate.
Qed.

End Claim7.

Section Claim8.
Import Js Runtime DurationPolicy SubtitleUtils AudioUtils VideoUtils TTSService VideoProcessor.

Lemma upload_failure_storeOk env e :
  driveUpload env = Throw e -> dbUpdateLocal env = Ok tt ->
  uploaded env = false /\ storeOk env = true.
Proof.
  intros H1 H2. unfold storeOk, uploaded. rewrite H1, H2. split; reflexivity.
Qed.

(** C8 (amended).  When the upload to the drive fails and the update of
    the project row that follows it in the [catch] block succeeds, the
    failure is never what stops the job: either the job had already failed
    before its "Finalizing video" notification, that is, at or before the
    compositing pass; or it transitions to [complete] with progress 100,
    the composed asset stays in the temporary directory, and
    [getVideoPath] resolves to it. *)
Theorem C8_upload_failure_not_fatal env job w e :
  driveUpload env = Throw e ->
  dbUpdateLocal env = Ok tt ->
  (exists e' k,
     fst (executeJob env job w) = Throw e'
     /\ (k <= 5)%nat
     /\ notifications (snd (executeJob env job w))
        = notifications w ++ firstn k (planStatuses (job_projectId job))
            ++ [errorStatus (job_projectId job) e'])
  \/ (fst (executeJob env job w) = Ok (job_projectId job)
      /\ notifications (snd (executeJob env job w))
         = notifications w ++ planStatuses (job_projectId job)
      /\ processingStatuses (snd (executeJob env job w)) !! job_projectId job
         = Some {| projectId := job_projectId job; stage := complete; progress := 100;
                   currentStep := lit "Video generation complete"; error_ := None |}
      /\ (exists sz,
            sizing env job = Some sz
            /\ fs (snd (executeJob env job w)) !! finalPathOf env (job_projectId job)
               = Some (finalAsset sz))
      /\ fst (getVideoPath env (job_projectId job) (snd (executeJob env job w)))
         = Ok (Some (finalPathOf env (job_projectId job)))).
Proof.
  intros Hup Hdb.
  destruct (upload_failure_storeOk env e Hup Hdb) as [Hu Hst].
  destruct (executeJob env job w) as [r w'] eqn:E. cbn [fst snd].
  apply executeJob_outcome in E.
  destruct (sizing env job) as [sz|] eqn:Esz.
  - right. destruct E as (-> & Hn & Hs & _ & Hf & _). rewrite Hu in Hf.
    split; [reflexivity|]. split; [exact Hn|]. split; [exact Hs|]. split.
    + exists sz. split; [reflexivity | exact Hf].
    + unfold getVideoPath, tryCatch, bind, access. fold (finalPathOf env (job_projectId job)).
      rewrite Hf. reflexivity.
  - left. destruct E as (e' & -> & Hn & _).
    exists e', (stagesReached env job). split; [reflexivity|]. split; [|exact Hn].
    unfold sizing in Esz. unfold stagesReached.
    destruct (speechOf env (script job)) as [speech|]; [|lia].
    destruct (Qeq_bool speech 0); [lia|]. cbn zeta in *.
    destruct (musicFfmpeg env); [|lia].
    destruct (clipOf env _) as [[clip sound]|]; [|lia].
    destruct (pictureOf env _ _ _ _); [|lia].
    destruct (captionsOf env _ _); [|lia].
    destruct (composeFfmpeg env); [|lia].
    rewrite Hst in Esz. discriminate.
Qed.

(** The drive is unreachable; the rest works. *)
Lemma C8_upload_failure_not_fatal_witness :
  fst (getVideoPath
         (sampleEnv (Ok 5) (Ok 5) exactSora (Throw (lit "Google Drive not connected")))
         (lit "p1")
         (snd (executeJob
                 (sampleEnv (Ok 5) (Ok 5) exactSora
                            (Throw (lit "Google Drive not connected")))
                 (sampleJob (lit "Hello world, this is a test.")) emptyWorld)))
  = Ok (Some (lit "/app/temp_videos/p1_final.mp4")).
Proof.
  destruct (C8_upload_failure_not_fatal
              (sampleEnv (Ok 5) (Ok 5) exactSora (Throw (lit "Google Drive not connected")))
              (sampleJob (lit "Hello world, this is a test.")) emptyWorld
              (lit "Google Drive not connected") eq_refl eq_refl)
    as [(e' & k & H & _)|(_ & _ & _ & _ & H)].
  - exfalso. revert H. vm_compute. discriminate.
  - exact H.
Defined.

(** C8 as stated fails when the database is down as well: the compositing
    pass succeeds and the job announces "Finalizing video" at 95, the
    upload throws, the update of the project row in the [catch] block
    throws too, and the job ends in [error] with progress 0 instead of
    [complete]. *)
Lemma C8_counterexample :
  fst (executeJob
         {| cwd := lit "/app"; edgeTTS := Ok 5; edgeConvert := Ok tt; k2fsaTTS := Ok 5;
            openaiTTS := Ok 5; openaiConvert := Ok tt; openaiKey := false;
            silenceFfmpeg := Ok tt; mediaError := lit "Invalid data found";
            musicFfmpeg := Ok tt; cometApiKey := true; sora := exactSora;
            extendFfmpeg := Ok tt; padFfmpeg := Ok tt; subtitleWrite := Ok tt;
            composeFfmpeg := Ok tt;
            driveUpload := Throw (lit "Google Drive not connected");
            dbUpdateAfterUpload := Ok tt;
            dbUpdateLocal := Throw (lit "connection terminated") |}
         (sampleJob (lit "Hello world, this is a test.")) emptyWorld)
  = Throw (lit "connection terminated")
  /\ List.map (fun s => (stage s, progress s))
       (notifications
          (snd (executeJob
                  {| cwd := lit "/app"; edgeTTS := Ok 5; edgeConvert := Ok tt;
                     k2fsaTTS := Ok 5; openaiTTS := Ok 5; openaiConvert := Ok tt;
                     openaiKey := false; silenceFfmpeg := Ok tt;
                     mediaError := lit "Invalid data found"; musicFfmpeg := Ok tt;
                     cometApiKey := true; sora := exactSora; extendFfmpeg := Ok tt;
                     padFfmpeg := Ok tt; subtitleWrite := Ok tt; composeFfmpeg := Ok tt;
                     driveUpload := Throw (lit "Google Drive not connected");
                     dbUpdateAfterUpload := Ok tt;
                     dbUpdateLocal := Throw (lit "connection terminated") |}
                  (sampleJob (lit "Hello world, this is a test.")) emptyWorld)))
     = [(analyzing, 10%Z); (generating_tts, 30%Z); (generating_music, 50%Z);
        (generating_video, 70%Z); (composing, 85%Z); (composing, 95%Z); (error, 0%Z)].
Proof.
  split; vm_compute; reflexivity.
Qed.

End Claim8.

Section Claim9.
Import Js Runtime DurationPolicy SubtitleUtils AudioUtils VideoUtils TTSService VideoProcessor.

(** C9.  The audio filter of the compositing pass is
    [[1:a][2:a]amix=inputs=2:duration=first:weights=1 0.2[audio]]: it mixes
    input 1 (speech) at weight 1 with input 2 (music) at weight 0.2 and
    never input 0 (the background video).  For every job that completes,
    the compositing run gets the speech and a music track of the measured
    duration, which is longer than the speech; the mix therefore has the
    length of the shorter input, which is the speech length, and that is
    the sound of the final asset. *)
Theorem C9_audio_mix env job w r :
  fst (executeJob env job w) = Ok r ->
  renderAmix audioMix = audioFilter
  /\ amixInputs audioMix = [1%nat; 2%nat]
  /\ ~ In 0%nat (amixInputs audioMix)
  /\ amixWeights audioMix = [lit "1"; lit "0.2"]
  /\ exists bg speech music vf,
       In (CallFfmpegCompose bg {| video := None; audio := Some speech |}
                             {| video := None; audio := Some music |} audioFilter vf)
          (calls (snd (executeJob env job w)))
       /\ speech <= music
       /\ amixLength (amixDuration audioMix) [speech; music] == Qmin speech music
       /\ amixLength (amixDuration audioMix) [speech; music] = speech
       /\ In (CallDriveUpload (driveFileName (title job) (job_projectId job))
                (MediaFile {| video := video bg;
                              audio := Some (amixLength (amixDuration audioMix)
                                                        [speech; music]) |}))
             (calls (snd (executeJob env job w))).
Proof.
  intros Hr.
  split; [reflexivity|]. split; [reflexivity|]. split.
  { cbn. intros [X|[X|[]]]; discriminate. }
  split; [reflexivity|].
  destruct (executeJob env job w) as [r' w'] eqn:E. cbn [fst snd] in *. subst r'.
  apply executeJob_outcome in E.
  destruct (sizing env job) as [sz|] eqn:Esz.
  2:{ destruct E as (e' & X & _). discriminate. }
  destruct E as (_ & _ & _ & Hc & _).
  destruct (sizing_inv env job sz Esz) as (_ & _ & Em & _).
  pose proof (roundUpDuration_bounds (sz_speech sz)) as [Hb _]. rewrite <- Em in Hb.
  eexists _, (sz_speech sz), (sz_measured sz), _. split.
  { rewrite Hc. apply in_or_app. right. apply in_or_app. right.
    right. left. unfold composeCall. reflexivity. }
  split; [lra|]. split.
  { cbn. symmetry. apply Q.min_l. lra. }
  split; [reflexivity|].
  rewrite Hc. apply in_or_app. right. apply in_or_app. right.
  right. right. left. reflexivity.
Qed.

(** A five-second narration: the mix lasts five seconds. *)
Lemma C9_audio_mix_witness :
  renderAmix audioMix = audioFilter.
Proof.
  refine (proj1 (C9_audio_mix
                   (sampleEnv (Ok 5) (Ok 5) exactSora (Ok sampleUpload))
                   (sampleJob (lit "Hello world, this is a test.")) emptyWorld
                   (lit "p1") _)).
  vm_compute. reflexivity.
Defined.

End Claim9.

Section EscapeBasics.
Import Js VideoProcessor.

Lemma replaceEach_app (f : char -> jsstring) (a b : jsstring) :
  replaceEach f (a ++ b) = replaceEach f a ++ replaceEach f b.
Proof. unfold replaceEach. rewrite map_app, concat_app. reflexivity. Qed.

Lemma replaceEach_cons (f : char -> jsstring) (c : char) (s : jsstring) :
  replaceEach f (c :: s) = f c ++ replaceEach f s.
Proof. reflexivity. Qed.

Lemma replaceEach_id (f : char -> jsstring) (s : jsstring) :
  (forall c, In c s -> f c = [c]) -> replaceEach f s = s.
Proof.
  induction s as [|c s IH]; intros H; [reflexivity|].
  rewrite replaceEach_cons, H by (left; reflexivity). cbn [app]. f_equal.
  apply IH. intros c' Hc'. apply H. right. exact Hc'.
Qed.

(** A text without backslash and single quote needs no escaping. *)
Lemma escapeText_plain (s : jsstring) :
  (forall c, In c s -> c <> 92%N /\ c <> 39%N) -> escapeText s = s.
Proof.
  intros H. unfold escapeText. cbv zeta.
  rewrite (replaceEach_id _ s).
  - apply replaceEach_id. intros c Hc. destruct (H c Hc) as [_ H39].
    apply N.eqb_neq in H39. rewrite H39. reflexivity.
  - intros c Hc. destruct (H c Hc) as [H92 _].
    apply N.eqb_neq in H92. rewrite H92. reflexivity.
Qed.

Lemma blank_all_space (s : jsstring) :
  hasInk s = false -> forall c, In c s -> isSpace c = true.
Proof.
  unfold hasInk. induction s as [|x s IH]; intros H c Hc; [destruct Hc|].
  cbn [existsb] in H. apply Bool.orb_false_iff in H. destruct H as [Hx Hs].
  destruct Hc as [<-|Hc]; [|exact (IH Hs c Hc)].
  apply Bool.negb_false_iff. exact Hx.
Qed.

(** The static text of a script without ink: white space, followed by
    three dots when the script has more than 100 code units. *)
Lemma staticSubtitleText_blank (scr : jsstring) :
  hasInk scr = false ->
  forall c, In c (staticSubtitleText scr) -> isSpace c = true \/ c = 46%N.
Proof.
  intros Hi c Hc. unfold staticSubtitleText, substring0 in Hc.
  apply in_app_or in Hc. destruct Hc as [Hc|Hc].
  - left. apply (blank_all_space scr Hi).
    rewrite <- (firstn_skipn 100 scr). apply in_or_app. left. exact Hc.
  - right. destruct (100 <? List.length scr)%nat; [|destruct Hc].
    change (lit "...") with [46%N; 46%N; 46%N] in Hc.
    destruct Hc as [<-|[<-|[<-|[]]]]; reflexivity.
Qed.

End EscapeBasics.

Section Claim10.
Import Js Runtime DurationPolicy SubtitleUtils AudioUtils VideoUtils TTSService VideoProcessor.

Lemma hasInk_false_trim (s : jsstring) : hasInk s = false <-> trim s = [].
Proof.
  rewrite <- trim_truthy. destruct (trim s); cbn; split; congruence.
Qed.

(** The three ways [generateSubtitleFile] ends for a positive duration. *)
Lemma generateSubtitleFile_cases env script d path w :
  0 < d ->
  (hasInk script = false
   /\ generateSubtitleFile env script d path w = (Ok None, w))
  \/ (hasInk script = true
      /\ exists content,
           subtitleWrite env = Ok tt
           /\ generateSubtitleFile env script d path w
              = (Ok (Some (replaceExt (lit ".ass") path)),
                 setFs (insert (replaceExt (lit ".ass") path) (TextFile content)) w))
  \/ (hasInk script = true
      /\ exists e, subtitleWrite env = Throw e
                   /\ generateSubtitleFile env script d path w = (Throw e, w)).
Proof.
  intros Hd. unfold generateSubtitleFile. rewrite trim_truthy.
  destruct (hasInk script) eqn:Hi.
  - right.
    assert (Ht : truthy script = true) by (destruct script; [discriminate | reflexivity]).
    rewrite Ht. cbn [negb orb].
    pose proof (splitIntoSegments_nonempty script Hi) as Hlen.
    assert (Hne : splitIntoSegments script <> []).
    { intros X. rewrite X in Hlen. cbn in Hlen. lia. }
    assert (E0 : (List.length (splitIntoSegments script) =? 0)%nat = false).
    { apply Nat.eqb_neq. lia. }
    rewrite E0.
    destruct (calculateTiming_loop _ d Hne Hd) as (durs & Ld & _ & Ec).
    assert (Lt : (List.length (calculateTiming (splitIntoSegments script) d) =? 0)%nat
                 = false).
    { apply Nat.eqb_neq. rewrite Ec, timeLoop_length, length_combine. lia. }
    rewrite Lt. unfold bind, lift, writeFile, modify, ret.
    destruct (subtitleWrite env) as [[]|e].
    + left. split; [reflexivity|]. eexists. split; reflexivity.
    + right. split; [reflexivity|]. exists e. split; reflexivity.
  - left. split; [reflexivity|]. rewrite Bool.orb_true_r. reflexivity.
Qed.

(** A job whose script has no ink needs no caption file: when its other
    steps succeed it has sizes, and no caption track among them. *)
Lemma blank_sizing env job speech :
  hasInk (script job) = false ->
  speechOf env (script job) = Some speech ->
  Qeq_bool speech 0 = false ->
  musicFfmpeg env = Ok tt ->
  cometApiKey env = true ->
  (forall secs, exists clip, sora env secs = Ok clip) ->
  extendFfmpeg env = Ok tt ->
  composeFfmpeg env = Ok tt ->
  storeOk env = true ->
  exists sz, sizing env job = Some sz /\ sz_captions sz = false.
Proof.
  intros Hi Hsp H0 Hmusic Hkey Hsora Hext Hcomp Hstore.
  unfold sizing. rewrite Hsp, H0. cbn zeta. rewrite Hmusic.
  unfold clipOf. rewrite Hkey.
  destruct (Hsora (seconds (targetDuration
                              (decideSoraDuration (roundUpDuration speech)))))
    as [[clip sound] Eclip].
  rewrite Eclip.
  assert (Hp : exists picture,
             pictureOf env clip sound (roundUpDuration speech)
               (seconds (targetDuration (decideSoraDuration (roundUpDuration speech))))
             = Some picture).
  { unfold pictureOf.
    destruct (clipMedia_format clip sound) as (f & Ef & _). rewrite Ef, Hext.
    destruct (negb _); [|eexists; reflexivity].
    destruct (Qle_bool _ f); eexists; reflexivity. }
  destruct Hp as [picture Ep]. rewrite Ep.
  unfold captionsOf. rewrite Hi. cbn [andb]. rewrite Hcomp, Hstore.
  eexists. split; reflexivity.
Qed.

(** C10.  For a positive audio duration, [generateSubtitleFile] returns
    null exactly when the script is empty or white space only, and then it
    writes no file.  The compositing pass then gets no caption track and
    its video filter has no [ass] filter: it draws the title and, as static
    text at [y=h-200], the first 100 code units of the script followed by
    three dots when the script is longer; for a script of white space that
    text needs no escaping and is white space followed by at most the three
    dots.  The missing caption track does not stop the job: when its other
    steps succeed (writing a caption file may fail), the job completes and
    has run ffmpeg with this filter; and every job with such a script that
    completes has run ffmpeg with it. *)
Theorem C10_blank_script_captions env scr d path w :
  0 < d ->
  (fst (generateSubtitleFile env scr d path w) = Ok None <-> hasInk scr = false)
  /\ (hasInk scr = false <-> trim scr = [])
  /\ (hasInk scr = false -> snd (generateSubtitleFile env scr d path w) = w)
  /\ (forall title,
        videoFilter scr title None
        = lit "[0:v]drawtext=text='" ++ escapeText title
            ++ lit "':fontfile=/usr/share/fonts/truetype/dejavu/DejaVuSans-Bold.ttf:fontsize=48:fontcolor=white:x=(w-text_w)/2:y=100:shadowcolor=black:shadowx=2:shadowy=2,drawtext=text='"
            ++ escapeText (firstn 100 scr
                             ++ (if (100 <? List.length scr)%nat then lit "..." else []))
            ++ lit "':fontfile=/usr/share/fonts/truetype/dejavu/DejaVuSans.ttf:fontsize=32:fontcolor=white:x=(w-text_w)/2:y=h-200:shadowcolor=black:shadowx=2:shadowy=2[video]")
  /\ (hasInk scr = false ->
      escapeText (firstn 100 scr
                    ++ (if (100 <? List.length scr)%nat then lit "..." else []))
      = firstn 100 scr ++ (if (100 <? List.length scr)%nat then lit "..." else [])
      /\ Forall (fun c => isSpace c = true) (firstn 100 scr))
  /\ (forall job w0 speech,
        script job = scr ->
        hasInk scr = false ->
        speechOf env scr = Some speech ->
        Qeq_bool speech 0 = false ->
        musicFfmpeg env = Ok tt ->
        cometApiKey env = true ->
        (forall secs, exists clip, sora env secs = Ok clip) ->
        extendFfmpeg env = Ok tt ->
        composeFfmpeg env = Ok tt ->
        storeOk env = true ->
        fst (executeJob env job w0) = Ok (job_projectId job)
        /\ exists bg speechTrack music,
             In (CallFfmpegCompose bg speechTrack music audioFilter
                                   (videoFilter scr (title job) None))
                (calls (snd (executeJob env job w0))))
  /\ (forall job w0 r,
        script job = scr ->
        hasInk scr = false ->
        fst (executeJob env job w0) = Ok r ->
        exists bg speechTrack music,
          In (CallFfmpegCompose bg speechTrack music audioFilter
                                (videoFilter scr (title job) None))
             (calls (snd (executeJob env job w0)))).
Proof.
  intros Hd.
  pose proof (generateSubtitleFile_cases env scr d path w Hd) as Hc.
  assert (Hcall : forall job w0 sz,
             script job = scr -> hasInk scr = false ->
             sizing env job = Some sz ->
             fst (executeJob env job w0) = Ok (job_projectId job)
             /\ exists bg speechTrack music,
                  In (CallFfmpegCompose bg speechTrack music audioFilter
                                        (videoFilter scr (title job) None))
                     (calls (snd (executeJob env job w0)))).
  { intros job w0 sz Hs Hi Esz.
    destruct (executeJob env job w0) as [r' w'] eqn:E. cbn [fst snd].
    apply executeJob_outcome in E. rewrite Esz in E.
    destruct E as (-> & _ & _ & Hcalls & _). split; [reflexivity|].
    destruct (sizing_inv env job sz Esz) as (_ & _ & _ & _ & _ & _ & _ & Hcap & _).
    unfold captionsOf in Hcap. rewrite Hs, Hi in Hcap. cbn in Hcap.
    inversion Hcap as [Hcap']. clear Hcap.
    do 3 eexists. rewrite Hcalls. apply in_or_app. right. apply in_or_app. right.
    right. left. unfold composeCall. rewrite <- Hcap', Hs. reflexivity. }
  split; [|split; [|split; [|split; [|split; [|split]]]]].
  - destruct Hc as [[Hi E]|[[Hi (c & _ & E)]|[Hi (e & _ & E)]]]; rewrite E, Hi; cbn [fst];
      split; intros X; try reflexivity; discriminate.
  - apply hasInk_false_trim.
  - intros Hi. destruct Hc as [[_ E]|[[Hi' _]|[Hi' _]]]; [rewrite E; reflexivity| |];
      congruence.
  - intros title.
    unfold videoFilter, titleOverlay, staticSubtitleOverlay, staticSubtitleText, substring0.
    cbv zeta. rewrite <- !app_assoc. reflexivity.
  - intros Hi. split.
    + apply (escapeText_plain (staticSubtitleText scr)).
      intros c Hin. destruct (staticSubtitleText_blank scr Hi c Hin) as [Hsp| ->].
      * split; intros ->; discriminate Hsp.
      * split; discriminate.
    + rewrite Stdlib.Lists.List.Forall_forall. intros c Hin.
      apply (blank_all_space scr Hi).
      rewrite <- (firstn_skipn 100 scr). apply in_or_app. left. exact Hin.
  - intros job w0 speech Hs Hi Hsp H0 Hmusic Hkey Hsora Hext Hcomp Hstore.
    destruct (blank_sizing env job speech) as (sz & Esz & _); try assumption;
      try (rewrite Hs; assumption).
    exact (Hcall job w0 sz Hs Hi Esz).
  - intros job w0 r Hs Hi Hr.
    destruct (sizing env job) as [sz|] eqn:Esz.
    + exact (proj2 (Hcall job w0 sz Hs Hi Esz)).
    + destruct (executeJob env job w0) as [r' w'] eqn:E. cbn [fst] in Hr. subst r'.
      apply executeJob_outcome in E. rewrite Esz in E.
      destruct E as (e' & X & _). discriminate X.
Qed.

(** Ten spaces pass the length check of the request schema: no caption
    file is asked for, and the job completes where caption files cannot be
    written. *)
Lemma C10_blank_script_captions_witness :
  fst (generateSubtitleFile noCaptionFilesEnv (lit "          ") 5
         (lit "/app/temp_videos/p1_subtitles.ass") emptyWorld)
  = Ok None
  /\ fst (executeJob noCaptionFilesEnv (sampleJob (lit "          ")) emptyWorld)
     = Ok (lit "p1").
Proof.
  destruct (C10_blank_script_captions noCaptionFilesEnv (lit "          ") 5
              (lit "/app/temp_videos/p1_subtitles.ass") emptyWorld eq_refl)
    as (H1 & _ & _ & _ & _ & H6 & _).
  split; [apply H1; reflexivity|].
  refine (proj1 (H6 (sampleJob (lit "          ")) emptyWorld 5 _ _ _ _ _ _ _ _ _ _));
    try reflexivity.
  intros secs. eexists. reflexivity.
Defined.

End Claim10.

Section QueueFacts.
Import Js Runtime VideoProcessor JobQueue.

Lemma StronglySorted_snoc {A} (R : A -> A -> Prop) (l : list A) (a : A) :
  StronglySorted R l -> Forall (fun x => R x a) l -> StronglySorted R (l ++ [a]).
Proof.
  induction 1 as [|x l Hs IH Hx]; intros Hf; cbn.
  - repeat constructor.
  - inversion Hf; subst. constructor; [apply IH; assumption|].
    apply Forall_app. split; [assumption | repeat constructor; assumption].
Qed.

Lemma StronglySorted_after {A} (R : A -> A -> Prop) (pre : list A) (e : A)
      (post : list A) :
  StronglySorted R (pre ++ e :: post) -> Forall (R e) post.
Proof.
  induction pre as [|x pre IH]; cbn; intros H; inversion H; subst; [assumption|].
  apply IH. assumption.
Qed.

Lemma finishedIn_app (tr extra : list Event) (t : nat) :
  finishedIn tr t -> finishedIn (tr ++ extra) t.
Proof.
  intros (e & Hin & Ht & He). exists e. split; [apply in_or_app; left; exact Hin|].
  split; assumption.
Qed.

Lemma one_exec (l1 l2 : list Exec) (e : Exec) (l : list Exec) :
  l = l1 ++ e :: l2 -> (List.length l <= 1)%nat -> l1 = [] /\ l2 = [].
Proof.
  intros -> H. rewrite length_app in H. cbn in H.
  destruct l1; [|cbn in H; lia]. destruct l2; [|cbn in H; lia]. split; reflexivity.
Qed.

Lemma queueInv_init : queueInv init.
Proof.
  split; cbn; try reflexivity; try lia; try constructor.
Qed.

(** [processQueue] keeps the invariant, and after it an idle processor
    faces an empty queue. *)
Lemma processQueue_inv (s : State) :
  queueInv s ->
  queueInv (processQueue s)
  /\ (executing (processQueue s) = [] -> jobQueue (processQueue s) = []).
Proof.
  intros I. unfold processQueue.
  destruct (isProcessingQueue s) eqn:Ef; cbn [orb].
  - split; [exact I|]. intros X. pose proof (qi_flag s I) as F.
    rewrite Ef, X in F. discriminate.
  - pose proof (qi_flag s I) as F. rewrite Ef in F.
    destruct (executing s) as [|x l] eqn:Ex; [|discriminate].
    pose proof (qi_active s I) as A. rewrite Ex in A. rewrite A.
    change (MAX_CONCURRENT_JOBS <=? size (∅ : gmap jsstring bool))%nat with false.
    destruct (jobQueue s) as [|q rest] eqn:Eq.
    + split; [exact I | intros _; exact Eq].
    + split; [|cbn; discriminate].
      pose proof (qi_fifo s I) as Q. pose proof (qi_bound s I) as B.
      unfold started in Q. rewrite Eq in Q, B. cbn [List.map List.length seq] in Q, B.
      inversion Q as [[Hq Hrest]].
      assert (St : started s = ticket q) by (unfold started; rewrite Eq; cbn; lia).
      split; cbn [executing jobQueue isProcessingQueue JobQueue.activeJobs trace
                    nextTicket]; unfold started;
        cbn [executing jobQueue nextTicket]; rewrite ?Ex; cbn [app List.length].
      * lia.
      * reflexivity.
      * lia.
      * rewrite Hrest. f_equal. lia.
      * intros e [<-|[]]. cbn. lia.
      * rewrite insert_empty. reflexivity.
      * apply Forall_app. split.
        -- eapply Stdlib.Lists.List.Forall_impl; [|apply (qi_events s I)].
           cbn. intros a Ha. rewrite St in Ha. lia.
        -- repeat constructor. cbn. lia.
      * apply StronglySorted_snoc; [apply (qi_sorted s I)|].
        eapply Stdlib.Lists.List.Forall_impl; [|apply (qi_events s I)].
        unfold ticketOrder. cbn. intros a Ha. rewrite St in Ha. lia.
      * intros t Ht. apply finishedIn_app. apply (qi_finished s I).
        rewrite Ex. cbn. rewrite St. lia.
      * intros e [<-|[]] [X|X]; discriminate.
Qed.

End QueueFacts.

Section QueueSteps.
Import Js Runtime VideoProcessor JobQueue.

Lemma push_inv (s : State) (job : ProcessingJob) :
  queueInv s ->
  queueInv {| jobQueue := jobQueue s ++ [{| ticket := nextTicket s; qjob := job |}];
              isProcessingQueue := isProcessingQueue s;
              activeJobs := JobQueue.activeJobs s;
              executing := executing s;
              immediates := immediates s;
              nextTicket := S (nextTicket s);
              trace := trace s |}.
Proof.
  intros I. pose proof (qi_bound s I) as B.
  assert (St : forall x : Ticketed,
             (S (nextTicket s) - List.length (jobQueue s ++ [x]))%nat = started s).
  { intros x. unfold started. rewrite length_app. cbn. lia. }
  split; unfold started; cbn [executing jobQueue isProcessingQueue JobQueue.activeJobs
                                 trace nextTicket]; rewrite ?St.
  - apply (qi_one s I).
  - apply (qi_flag s I).
  - rewrite length_app. cbn. lia.
  - rewrite map_app, length_app, (qi_fifo s I). cbn [List.map List.length ticket].
    rewrite Nat.add_1_r, seq_S. f_equal. f_equal. unfold started. lia.
  - apply (qi_current s I).
  - apply (qi_active s I).
  - apply (qi_events s I).
  - apply (qi_sorted s I).
  - apply (qi_finished s I).
  - apply (qi_ending s I).
Qed.

Lemma notify_inv (s : State) (j : Ticketed) (pc : nat) (ph : Phase) (ev : Event) :
  queueInv s ->
  executing s = [{| exec_job := j; phase := Running pc |}] ->
  ev_ticket ev = ticket j ->
  (match ph with
   | Running _ => True
   | Finishing => terminal ev = true
   | Settled => False
   end) ->
  queueInv (setExec [{| exec_job := j; phase := ph |}] [ev] s).
Proof.
  intros I Ex Hev Hph.
  assert (Hcur : S (ticket j) = started s).
  { apply (qi_current s I {| exec_job := j; phase := Running pc |}).
    rewrite Ex. left; reflexivity. }
  assert (Hold : Forall (fun e => (ev_ticket e <= ticket j)%nat) (trace s)).
  { eapply Stdlib.Lists.List.Forall_impl; [|apply (qi_events s I)].
    cbn. intros a Ha. lia. }
  split; unfold started, setExec;
    cbn [executing jobQueue isProcessingQueue JobQueue.activeJobs trace nextTicket];
    fold (started s).
  - cbn. lia.
  - rewrite (qi_flag s I), Ex. reflexivity.
  - apply (qi_bound s I).
  - apply (qi_fifo s I).
  - intros e [<-|[]]. exact Hcur.
  - rewrite (qi_active s I), Ex. destruct ph; [reflexivity | reflexivity | contradiction].
  - apply Forall_app. split; [apply (qi_events s I)|].
    repeat constructor. rewrite Hev. lia.
  - apply StronglySorted_snoc; [apply (qi_sorted s I)|].
    unfold ticketOrder. rewrite Hev. exact Hold.
  - intros t Ht. apply finishedIn_app. apply (qi_finished s I).
    rewrite Ex. exact Ht.
  - intros e [<-|[]] Hp. cbn [phase exec_job] in *.
    destruct ph; [destruct Hp; discriminate| |contradiction].
    exists ev. split; [apply in_or_app; right; left; reflexivity|].
    split; [exact Hev | exact Hph].
Qed.

(** Every step of the event loop keeps the invariant and the pending call. *)
Lemma step_inv (s s' : State) :
  queueInv s -> queueLive s -> step s s' -> queueInv s' /\ queueLive s'.
Proof.
  intros I L Hstep. destruct Hstep.
  - (* submit *)
    unfold processVideo.
    destruct (processQueue_inv _ (push_inv s job I)) as [I' Hidle].
    split; [exact I'|]. intros Hx Hq. apply Hidle in Hx. contradiction.
  - (* callback *)
    destruct (one_exec _ _ _ _ H (qi_one s I)) as [-> ->]. cbn [app] in *.
    split.
    + apply (notify_inv s j pc); [exact I | exact H | reflexivity|].
      destruct stage0; cbn; first [reflexivity | constructor].
    + intros Hx. cbn in Hx. discriminate.
  - (* fail *)
    destruct (one_exec _ _ _ _ H (qi_one s I)) as [-> ->]. cbn [app] in *.
    split.
    + apply (notify_inv s j pc); [exact I | exact H | reflexivity | reflexivity].
    + intros Hx. cbn in Hx. discriminate.
  - (* finally *)
    destruct (one_exec _ _ _ _ H (qi_one s I)) as [-> ->]. cbn [app] in *.
    split.
    + split; unfold started;
        cbn [executing jobQueue isProcessingQueue JobQueue.activeJobs trace nextTicket];
        fold (started s).
      * cbn. lia.
      * rewrite (qi_flag s I), H. reflexivity.
      * apply (qi_bound s I).
      * apply (qi_fifo s I).
      * intros e [<-|[]]. apply (qi_current s I {| exec_job := j; phase := Finishing |}).
        rewrite H. left; reflexivity.
      * rewrite (qi_active s I), H. apply delete_singleton_eq.
      * apply (qi_events s I).
      * apply (qi_sorted s I).
      * intros t Ht. apply (qi_finished s I). rewrite H. exact Ht.
      * intros e [<-|[]] _. cbn [exec_job].
        apply (qi_ending s I {| exec_job := j; phase := Finishing |});
          [rewrite H; left; reflexivity | left; reflexivity].
    + intros Hx. cbn in Hx. discriminate.
  - (* resume *)
    destruct (one_exec _ _ _ _ H (qi_one s I)) as [-> ->]. cbn [app] in *.
    split.
    + split; unfold started;
        cbn [executing jobQueue isProcessingQueue JobQueue.activeJobs trace nextTicket];
        fold (started s).
      * cbn. lia.
      * reflexivity.
      * apply (qi_bound s I).
      * apply (qi_fifo s I).
      * intros e [].
      * rewrite (qi_active s I), H. reflexivity.
      * apply (qi_events s I).
      * apply (qi_sorted s I).
      * intros t Ht. cbn in Ht.
        assert (Hcur : S (ticket j) = started s).
        { apply (qi_current s I {| exec_job := j; phase := Settled |}).
          rewrite H. left; reflexivity. }
        destruct (Nat.eq_dec t (ticket j)) as [->|Hne].
        -- apply (qi_ending s I {| exec_job := j; phase := Settled |});
             [rewrite H; left; reflexivity | right; reflexivity].
        -- apply (qi_finished s I). rewrite H. cbn. lia.
      * intros e [].
    + intros _ Hq. cbn [jobQueue immediates] in *.
      destruct (jobQueue s); [contradiction|]. cbn. lia.
  - (* immediate *)
    assert (I1 : queueInv {| jobQueue := jobQueue s;
                             isProcessingQueue := isProcessingQueue s;
                             activeJobs := JobQueue.activeJobs s;
                             executing := executing s;
                             immediates := n;
                             nextTicket := nextTicket s;
                             trace := trace s |}).
    { destruct I. split; assumption. }
    destruct (processQueue_inv _ I1) as [I' Hidle].
    split; [exact I'|]. intros Hx Hq. apply Hidle in Hx. contradiction.
Qed.

Lemma reachable_inv (s : State) : reachable s -> queueInv s /\ queueLive s.
Proof.
  induction 1 as [|s s' _ [I L] Hstep].
  - split; [apply queueInv_init|]. intros _ H. cbn in H. contradiction.
  - apply (step_inv s s' I L Hstep).
Qed.

End QueueSteps.

Section Claim3.
Import Js Runtime VideoProcessor JobQueue.

(** C3.  In every state that the event loop can reach: at most one
    invocation of [executeJob] is in flight; before any event of a job
    ([Started] or a stage callback), every job submitted earlier has
    already notified [complete] or [error]; the events are ordered by
    submission rank, and the queue holds the jobs not yet started in
    submission order, so jobs run first in, first out; and whenever the
    processor is idle with jobs waiting, a [processQueue] call is pending,
    so the single worker keeps draining the queue. *)
Theorem C3_single_flight (s : State) :
  reachable s ->
  (List.length (executing s) <= 1)%nat
  /\ (forall pre e post t1,
        trace s = pre ++ e :: post ->
        (t1 < ev_ticket e)%nat ->
        exists e1, In e1 pre /\ ev_ticket e1 = t1 /\ terminal e1 = true)
  /\ StronglySorted ticketOrder (trace s)
  /\ List.map ticket (jobQueue s) = seq (started s) (List.length (jobQueue s))
  /\ (forall e, In e (executing s) -> S (ticket (exec_job e)) = started s)
  /\ (executing s = [] -> jobQueue s <> [] -> (1 <= immediates s)%nat).
Proof.
  intros Hr. destruct (reachable_inv s Hr) as [I L].
  split; [apply (qi_one s I)|]. split.
  - intros pre e post t1 Htr Hlt.
    assert (He : (ev_ticket e < started s)%nat).
    { pose proof (qi_events s I) as F. rewrite Htr in F.
      apply Forall_app in F. destruct F as [_ F]. inversion F; subst. assumption. }
    assert (Hfin : finishedIn (trace s) t1).
    { apply (qi_finished s I). pose proof (qi_one s I). lia. }
    destruct Hfin as (e1 & Hin & Ht & Hterm).
    exists e1. split; [|split; assumption].
    rewrite Htr in Hin. apply in_app_or in Hin. destruct Hin as [Hin|[->|Hin]].
    + exact Hin.
    + lia.
    + pose proof (qi_sorted s I) as S. rewrite Htr in S.
      apply StronglySorted_after in S.
      rewrite Stdlib.Lists.List.Forall_forall in S. apply S in Hin.
      unfold ticketOrder in Hin. lia.
  - split; [apply (qi_sorted s I)|]. split; [apply (qi_fifo s I)|].
    split; [apply (qi_current s I) | exact L].
Qed.

(** Two jobs submitted in immediate succession. *)
Lemma C3_single_flight_witness :
  (List.length (executing (processVideo (sampleJob (lit "second script"))
                             (processVideo (sampleJob (lit "first script")) init)))
   <= 1)%nat.
Proof.
  refine (proj1 (C3_single_flight _ _)).
  eapply reach_step; [eapply reach_step; [apply reach_init|]|]; apply step_submit.
Defined.

End Claim3.

Section DurationCoverage.
Import Js DurationPolicy.

Lemma splitLoop_length (m : matcher) (s : jsstring) :
  forall prev piece skip, (1 <= List.length (splitLoop m prev piece skip s))%nat.
Proof.
  induction s as [|c s IH]; intros prev piece skip; cbn [splitLoop].
  - cbn. lia.
  - destruct skip as [|k]; [|apply IH].
    destruct (m prev (c :: s)) as [[|k]|]; [destruct piece| |];
      try apply IH; cbn [List.length]; lia.
Qed.

Lemma split_spaces_length (s : jsstring) :
  (1 <= List.length (split re_spaces s))%nat.
Proof.
  destruct s as [|c s]; [cbn; lia|].
  unfold split. apply splitLoop_length.
Qed.

Lemma words_seconds_gt (n : nat) (k : Z) :
  inject_Z k < inject_Z (Z.of_nat n) / (5 # 2) <-> (5 * k < 2 * Z.of_nat n)%Z.
Proof.
  rewrite Zlt_Qlt, !inject_Z_mult.
  change (inject_Z 5) with 5. change (inject_Z 2) with 2.
  generalize (inject_Z (Z.of_nat n)) (inject_Z k). intros a b.
  unfold Qdiv. change (/ (5 # 2)) with (2 # 5). split; intros H; lra.
Qed.

(** X1.  [decideSoraDuration] is monotone: of two recordings, the longer
    one is never given the shorter clip tier. *)
Theorem X1_tier_monotone (a b : Q) :
  a <= b ->
  seconds (targetDuration (decideSoraDuration a))
  <= seconds (targetDuration (decideSoraDuration b)).
Proof.
  intros Hab.
  destruct (decide_target_cases a) as [[? Ea]|[[? [? Ea]]|[? Ea]]];
    destruct (decide_target_cases b) as [[? Eb]|[[? [? Eb]]|[? Eb]]];
    rewrite Ea, Eb; cbn [seconds]; lra.
Qed.

(** A recording of 3 s and one of 9 s. *)
Lemma X1_tier_monotone_witness :
  seconds (targetDuration (decideSoraDuration 3))
  <= seconds (targetDuration (decideSoraDuration 9)).
Proof.
  apply (X1_tier_monotone 3 9). unfold Qle. simpl. lia.
Defined.

(** X2.  Whatever the duration, the clip tier plus [extensionNeeded] covers
    it: the extension is never negative, tier and extension together are at
    least the duration, and the extension is zero exactly when the tier
    alone covers the duration. *)
Theorem X2_tier_plus_extension_covers (d : Q) :
  let dec := decideSoraDuration d in
  0 <= extensionNeeded dec
  /\ d <= seconds (targetDuration dec) + extensionNeeded dec
  /\ (extensionNeeded dec == 0 <-> d <= seconds (targetDuration dec)).
Proof.
  intros dec. subst dec. rewrite decide_extension.
  set (t := seconds (targetDuration (decideSoraDuration d))).
  pose proof (Q.le_max_l 0 (d - t)) as H0.
  pose proof (Q.le_max_r 0 (d - t)) as H1.
  split; [exact H0|]. split; [lra|]. split; intros H.
  - lra.
  - rewrite Q.max_l by lra. reflexivity.
Qed.

(** X3.  [estimateSpeechDuration] counts at least one word, also for an
    empty or blank script, which it estimates at 0.4 s and tier 4; it sets
    [shouldWarn] exactly when the script has more than 30 words. *)
Theorem X3_estimate_word_count (script : jsstring) :
  let words := List.length (split re_spaces (trim script)) in
  (1 <= words)%nat
  /\ actualDuration (estimateSpeechDuration script) = inject_Z (Z.of_nat words) / (5 # 2)
  /\ (shouldWarn (estimateSpeechDuration script) = true <-> (30 < words)%nat)
  /\ (hasInk script = false ->
      words = 1%nat
      /\ actualDuration (estimateSpeechDuration script) == 2 # 5
      /\ targetDuration (estimateSpeechDuration script) = Sora4).
Proof.
  intros words. split; [apply split_spaces_length|]. split; [reflexivity|]. split.
  - unfold estimateSpeechDuration. fold words. rewrite decide_warn.
    rewrite Bool.negb_true_iff, Qle_bool_false_iff.
    change 12 with (inject_Z 12). rewrite words_seconds_gt. lia.
  - intros Hblank. apply hasInk_false_trim in Hblank.
    subst words. unfold estimateSpeechDuration. rewrite Hblank.
    split; [reflexivity|]. split; reflexivity.
Qed.

End DurationCoverage.

Section AudioUtilsFacts.
Import Js Runtime AudioUtils.

Lemma roundUpDuration_tenths (d : Q) :
  roundUpDuration d == inject_Z (Qceiling (d * 10) + 1) / 10.
Proof.
  unfold roundUpDuration, Math_ceil. rewrite inject_Z_plus.
  change (inject_Z 1) with 1. generalize (inject_Z (Qceiling (d * 10))). intros c.
  unfold Qdiv. change (/ 10) with (1 # 10). lra.
Qed.

Lemma Qeq_bool_false_iff (x y : Q) : Qeq_bool x y = false <-> ~ x == y.
Proof.
  rewrite <- Bool.not_true_iff_false, Qeq_bool_iff. reflexivity.
Qed.

(** X4.  For a media file with a non-zero format duration [d],
    [getAudioDuration] resolves with a whole number of tenths that exceeds
    [d] by at least 0.1 s and by less than 0.2 s, and leaves the
    state untouched. *)
Theorem X4_getAudioDuration_margin env p m d w :
  fs w !! p = Some (MediaFile m) ->
  formatDuration m = Some d ->
  ~ d == 0 ->
  exists r,
    getAudioDuration env p w = (Ok r, w)
    /\ d + (1 # 10) <= r
    /\ r < d + (1 # 5)
    /\ exists k : Z, r == inject_Z k / 10.
Proof.
  intros Hf Hd Hnz. exists (roundUpDuration d).
  split; [|split; [|split]].
  - unfold getAudioDuration, bind, ffprobe. rewrite Hf, Hd.
    apply Qeq_bool_false_iff in Hnz. rewrite Hnz. reflexivity.
  - apply roundUpDuration_bounds.
  - apply roundUpDuration_bounds.
  - eexists. apply roundUpDuration_tenths.
Qed.

(** A speech file of 3.14 s. *)
Lemma X4_getAudioDuration_margin_witness :
  exists r,
    getAudioDuration (sampleEnv (Ok 5) (Ok 5) exactSora (Ok sampleUpload)) (lit "a.wav")
      (setFs (insert (lit "a.wav") (audioOnly (157 # 50))) emptyWorld)
    = (Ok r, setFs (insert (lit "a.wav") (audioOnly (157 # 50))) emptyWorld)
    /\ (157 # 50) + (1 # 10) <= r
    /\ r < (157 # 50) + (1 # 5)
    /\ exists k : Z, r == inject_Z k / 10.
Proof.
  apply (X4_getAudioDuration_margin
           (sampleEnv (Ok 5) (Ok 5) exactSora (Ok sampleUpload)) (lit "a.wav")
           {| video := None; audio := Some (157 # 50) |} (157 # 50)
           (setFs (insert (lit "a.wav") (audioOnly (157 # 50))) emptyWorld)).
  - reflexivity.
  - reflexivity.
  - intros H. vm_compute in H. discriminate H.
Defined.

(** X6.  When [padAudioWithSilence] succeeds, the file it returns holds a
    sound stream that is as long as the longer of the input and the target:
    padding never shortens the recording.  No other file changes. *)
Theorem X6_pad_never_shortens env inputPath targetDuration outputPath v d w :
  fs w !! inputPath = Some (MediaFile {| video := v; audio := Some d |}) ->
  padFfmpeg env = Ok tt ->
  let output := orElse outputPath (insertBeforeExt (lit "_padded") inputPath) in
  exists w' d',
    padAudioWithSilence env inputPath targetDuration outputPath w = (Ok output, w')
    /\ fs w' !! output = Some (audioOnly d')
    /\ d <= d' /\ targetDuration <= d'
    /\ (d' = d \/ d' = targetDuration)
    /\ (forall q, q <> output -> fs w' !! q = fs w !! q)
    /\ calls w' = calls w.
Proof.
  intros Hf Hpad output.
  exists (setFs (insert output (audioOnly (apad targetDuration d))) w),
         (apad targetDuration d).
  split; [|split; [|split; [|split; [|split; [|split]]]]].
  - unfold padAudioWithSilence, bind, readMedia. rewrite Hf. cbn [audio].
    unfold lift. rewrite Hpad. reflexivity.
  - cbn. apply lookup_insert_eq.
  - apply Q.le_max_l.
  - apply Q.le_max_r.
  - unfold apad, Qmax, GenericMinMax.gmax. destruct (d ?= targetDuration); auto.
  - intros q Hq. cbn. apply lookup_insert_ne. congruence.
  - reflexivity.
Qed.

(** A recording of 3 s padded to 8 s. *)
Lemma X6_pad_never_shortens_witness :
  exists w' d',
    padAudioWithSilence (sampleEnv (Ok 5) (Ok 5) exactSora (Ok sampleUpload))
      (lit "a.wav") 8 None (setFs (insert (lit "a.wav") (audioOnly 3)) emptyWorld)
    = (Ok (lit "a_padded.wav"), w')
    /\ fs w' !! lit "a_padded.wav" = Some (audioOnly d')
    /\ 3 <= d'.
Proof.
  destruct (X6_pad_never_shortens
              (sampleEnv (Ok 5) (Ok 5) exactSora (Ok sampleUpload))
              (lit "a.wav") 8 None None 3
              (setFs (insert (lit "a.wav") (audioOnly 3)) emptyWorld))
    as (w' & d' & H1 & H2 & H3 & _).
  - reflexivity.
  - reflexivity.
  - exists w', d'. split; [exact H1|]. split; [exact H2 | exact H3].
Defined.

End AudioUtilsFacts.

Section MeasuredTier.
Import Js Runtime DurationPolicy AudioUtils.

Lemma tenths_miss_band (k lo : Z) :
  ~ (inject_Z lo < inject_Z k / 10 /\ inject_Z k / 10 < inject_Z lo + (1 # 20)).
Proof.
  intros [H1 H2].
  assert (A : inject_Z (10 * lo) < inject_Z k).
  { rewrite inject_Z_mult. change (inject_Z 10) with 10.
    revert H1. generalize (inject_Z lo) (inject_Z k). intros a b.
    unfold Qdiv. change (/ 10) with (1 # 10). intros H1. lra. }
  assert (B : inject_Z (2 * k) < inject_Z (20 * lo + 1)).
  { rewrite inject_Z_plus, !inject_Z_mult.
    change (inject_Z 2) with 2. change (inject_Z 20) with 20. change (inject_Z 1) with 1.
    revert H2. generalize (inject_Z lo) (inject_Z k). intros a b.
    unfold Qdiv. change (/ 10) with (1 # 10). intros H2. lra. }
  rewrite <- Zlt_Qlt in A, B. lia.
Qed.

(** X5.  The duration that [getAudioDuration] reports is a whole number of
    tenths, which the rounding of [decideSoraDuration] leaves as it is: for
    a measured duration of at most 12 s the tier chosen is the smallest
    tier that covers it, it is longer than the recording itself, and no
    extension is asked for; above 12 s the tier is 12 and the extension is
    the excess. *)
Theorem X5_measured_duration_gets_fitting_tier (d : Q) :
  0 < d ->
  let measured := roundUpDuration d in
  let dec := decideSoraDuration measured in
  (measured <= 12 ->
   measured <= seconds (targetDuration dec)
   /\ d < seconds (targetDuration dec)
   /\ extensionNeeded dec == 0
   /\ forall t' : SoraDuration,
        measured <= seconds t' -> seconds (targetDuration dec) <= seconds t')
  /\ (12 < measured ->
      targetDuration dec = Sora12 /\ extensionNeeded dec == measured - 12).
Proof.
  intros Hd measured dec.
  pose proof (roundUpDuration_bounds d) as [Hb1 Hb2]. fold measured in Hb1, Hb2.
  pose proof (roundUpDuration_tenths d) as Ht. fold measured in Ht.
  assert (Hpos : 0 < measured) by lra.
  pose proof (decideSoraDuration_bands measured Hpos) as H. cbv zeta in H. fold dec in H.
  destruct H as (_ & _ & _ & Hfit & _ & Hbig & _).
  split.
  - intros Hle.
    assert (N4 : ~ (4 < measured /\ measured < 81 # 20)).
    { rewrite Ht. exact (tenths_miss_band _ 4). }
    assert (N8 : ~ (8 < measured /\ measured < 161 # 20)).
    { rewrite Ht. exact (tenths_miss_band _ 8). }
    destruct (Hfit Hle N4 N8) as [Hc Hmin].
    split; [exact Hc|]. split; [lra|]. split; [|exact Hmin].
    subst dec. rewrite decide_extension. apply Q.max_l. lra.
  - intros Hgt. destruct (Hbig Hgt) as (H1 & H2 & _). split; assumption.
Qed.

(** A recording of 7.93 s measures 8 s and gets the tier of 8 s. *)
Lemma X5_measured_duration_gets_fitting_tier_witness :
  793 # 100 < seconds (targetDuration (decideSoraDuration (roundUpDuration (793 # 100)))).
Proof.
  assert (H : roundUpDuration (793 # 100) <= 12).
  { vm_compute. intros X. discriminate X. }
  exact (proj1 (proj2 (proj1 (X5_measured_duration_gets_fitting_tier (793 # 100) eq_refl)
                         H))).
Defined.

End MeasuredTier.

Section VideoUtilsFacts.
Import Js Runtime VideoUtils.

(** X7.  What a call of [extendVideoToAudioLength] that resolves leaves
    behind, for a video whose picture is its longest stream: the file it
    names has a picture that covers the target and is never shorter than
    the input, with the sound stream as it was.  A video that is already as
    long as the target is returned as it is, without an ffmpeg pass and
    without a write; a shorter one is written to the output path with a
    picture of the target plus the held tenth of a second.  No other file
    changes. *)
Theorem X7_extended_picture_covers_target
        env inputPath targetDuration outputPath v a w out w' :
  fs w !! inputPath = Some (MediaFile {| video := Some v; audio := a |}) ->
  match a with Some x => x <= v | None => True end ->
  extendVideoToAudioLength env inputPath targetDuration outputPath w = (Ok out, w') ->
  exists v',
    fs w' !! out = Some (MediaFile {| video := Some v'; audio := a |})
    /\ targetDuration <= v'
    /\ v <= v'
    /\ (targetDuration <= v -> out = inputPath /\ w' = w /\ v' = v)
    /\ (v < targetDuration ->
        out = orElse outputPath (insertBeforeExt (lit "_extended") inputPath)
        /\ v' == targetDuration + (1 # 10)
        /\ extendFfmpeg env = Ok tt)
    /\ (forall q, q <> out -> fs w' !! q = fs w !! q)
    /\ calls w' = calls w.
Proof.
  intros Hf Ha.
  assert (Hd : formatDuration {| video := Some v; audio := a |} = Some v).
  { unfold formatDuration; cbn [video audio]. destruct a as [x|]; [|reflexivity].
    unfold Qmax, GenericMinMax.gmax. destruct (v ?= x) eqn:E; try reflexivity.
    exfalso. apply Qlt_alt in E. lra. }
  unfold extendVideoToAudioLength, bind, ffprobe, readMedia. rewrite Hf, Hd.
  destruct (Qle_bool targetDuration v) eqn:Et.
  - apply Qle_bool_true_iff in Et.
    intros X; inversion X; subst out w'; clear X.
    exists v. split; [exact Hf|]. split; [exact Et|]. split; [apply Qle_refl|].
    split; [intros _; repeat split|]. split; [intros Hlt; exfalso; lra|].
    split; [reflexivity | reflexivity].
  - apply Qle_bool_false_iff in Et. rewrite Hf. cbn [video audio].
    unfold lift. destruct (extendFfmpeg env) as [[]|e] eqn:Ee; [|discriminate].
    cbn. intros X; inversion X; subst out w'; clear X.
    exists (freezeFrame v v targetDuration).
    split; [cbn; apply lookup_insert_eq|].
    split; [unfold freezeFrame; lra|]. split; [unfold freezeFrame; lra|].
    split; [intros Hle; exfalso; lra|].
    split; [intros _; split; [reflexivity|]; split; [unfold freezeFrame; lra | reflexivity]|].
    split; [|reflexivity].
    intros q Hq. cbn. apply lookup_insert_ne. congruence.
Qed.

(** A silent clip of 12 s extended to cover 13.4 s. *)
Lemma X7_extended_picture_covers_target_witness :
  exists v',
    fs (snd (extendVideoToAudioLength (sampleEnv (Ok 5) (Ok 5) exactSora (Ok sampleUpload))
               (lit "bg.mp4") (67 # 5) None
               (setFs (insert (lit "bg.mp4") (MediaFile (clipMedia 12 false)))
                      emptyWorld)))
      !! lit "bg_extended.mp4"
    = Some (MediaFile {| video := Some v'; audio := None |})
    /\ 67 # 5 <= v'.
Proof.
  destruct (X7_extended_picture_covers_target
              (sampleEnv (Ok 5) (Ok 5) exactSora (Ok sampleUpload))
              (lit "bg.mp4") (67 # 5) None 12 None
              (setFs (insert (lit "bg.mp4") (MediaFile (clipMedia 12 false))) emptyWorld)
              (lit "bg_extended.mp4")
              (snd (extendVideoToAudioLength
                      (sampleEnv (Ok 5) (Ok 5) exactSora (Ok sampleUpload))
                      (lit "bg.mp4") (67 # 5) None
                      (setFs (insert (lit "bg.mp4") (MediaFile (clipMedia 12 false)))
                             emptyWorld))))
    as (v' & H1 & H2 & _).
  - reflexivity.
  - exact I.
  - vm_compute. reflexivity.
  - exists v'. split; [exact H1 | exact H2].
Defined.

End VideoUtilsFacts.

Section TrimFacts.
Import Js.

Lemma trimStart_fixed (s : jsstring) :
  match s with [] => True | c :: _ => isSpace c = false end -> trimStart s = s.
Proof. destruct s as [|c s]; [reflexivity|]. cbn. intros ->. reflexivity. Qed.

Lemma trimStart_idem (s : jsstring) : trimStart (trimStart s) = trimStart s.
Proof. apply trimStart_fixed, trimStart_head. Qed.

Lemma trimStart_snoc (s : jsstring) (c : char) :
  isSpace c = false -> trimStart (s ++ [c]) = trimStart s ++ [c].
Proof.
  intros Hc. induction s as [|a s IH]; cbn.
  - rewrite Hc. reflexivity.
  - destruct (isSpace a); [exact IH | reflexivity].
Qed.

Lemma trimEnd_idem (s : jsstring) : trimEnd (trimEnd s) = trimEnd s.
Proof.
  unfold trimEnd. rewrite rev_involutive, trimStart_idem. reflexivity.
Qed.

(** Trimming the end of a string that starts with ink, or is empty, leaves
    a string of the same kind. *)
Lemma trimEnd_head (s : jsstring) :
  match s with [] => True | c :: _ => isSpace c = false end ->
  match trimEnd s with [] => True | c :: _ => isSpace c = false end.
Proof.
  destruct s as [|c s]; [intros _; exact I|]. intros Hc.
  unfold trimEnd. cbn [List.rev]. rewrite trimStart_snoc by exact Hc.
  rewrite rev_app_distr. cbn. exact Hc.
Qed.

Lemma trim_idem (s : jsstring) : trim (trim s) = trim s.
Proof.
  unfold trim.
  rewrite (trimStart_fixed (trimEnd (trimStart s))).
  - apply trimEnd_idem.
  - apply trimEnd_head, trimStart_head.
Qed.

Lemma trimmed_ink (s : jsstring) : trim s = s -> s <> [] -> hasInk s = true.
Proof.
  intros Ht Hne. rewrite <- trim_truthy, Ht. destruct s; [congruence | reflexivity].
Qed.

End TrimFacts.

Section SegmentShape.
Import Js SubtitleUtils.

Lemma clauseStep_trimmed (st : ClauseState) (clause : jsstring) :
  Forall (fun s => trim s = s) (segments_ st) ->
  Forall (fun s => trim s = s) (segments_ (clauseStep st clause)).
Proof.
  intros H. unfold clauseStep.
  set (c := (MAX_WORDS_PER_SEGMENT <? _)%nat && _).
  assert (H1 : Forall (fun s => trim s = s)
                 (segments_ (if c
                             then {| segments_ := segments_ st
                                        ++ [trim (join (lit " ") (currentSegment st))];
                                     currentSegment := []; currentLength := 0 |}
                             else st))).
  { destruct c; [|exact H]. cbn [segments_].
    apply Forall_app. split; [exact H|]. constructor; [apply trim_idem | constructor]. }
  destruct (truthy (trim clause)); exact H1.
Qed.

Lemma clauseLoop_trimmed (clauses : list jsstring) :
  forall st,
    Forall (fun s => trim s = s) (segments_ st) ->
    Forall (fun s => trim s = s) (segments_ (fold_left clauseStep clauses st)).
Proof.
  induction clauses as [|c clauses IH]; intros st H; cbn [fold_left]; [exact H|].
  apply IH, clauseStep_trimmed, H.
Qed.

Lemma sentenceStep_trimmed (segments : list jsstring) (sentence : jsstring) :
  Forall (fun s => trim s = s) segments ->
  Forall (fun s => trim s = s) (sentenceStep segments sentence).
Proof.
  intros H. unfold sentenceStep.
  destruct (_ <=? _)%nat.
  - destruct (truthy (trim sentence)); [|exact H].
    apply Forall_app. split; [exact H|]. constructor; [apply trim_idem | constructor].
  - match goal with
    | |- context [fold_left clauseStep ?cl ?st0] =>
        pose proof (clauseLoop_trimmed cl st0 H) as H1;
        destruct (0 <? List.length (currentSegment (fold_left clauseStep cl st0)))%nat
    end; [|exact H1].
    apply Forall_app. split; [exact H1|]. constructor; [apply trim_idem | constructor].
Qed.

Lemma sentenceLoop_trimmed (sentences : list jsstring) :
  forall segments,
    Forall (fun s => trim s = s) segments ->
    Forall (fun s => trim s = s) (fold_left sentenceStep sentences segments).
Proof.
  induction sentences as [|c sentences IH]; intros segs H; cbn [fold_left]; [exact H|].
  apply IH, sentenceStep_trimmed, H.
Qed.

(** When the expression never matches, [split] returns the whole string. *)
Lemma splitLoop_no_match (m : matcher) (s : jsstring) :
  forall prev piece,
    (forall t, m prev t = None) ->
    (forall c t, In c s -> m (Some c) t = None) ->
    splitLoop m prev piece 0 s = [List.rev piece ++ s].
Proof.
  induction s as [|c s IH]; intros prev piece Hp Hs; cbn [splitLoop].
  - rewrite app_nil_r. reflexivity.
  - rewrite Hp. rewrite IH.
    + cbn [List.rev]. rewrite <- app_assoc. reflexivity.
    + intros t. apply Hs. left. reflexivity.
    + intros c' t Hc'. apply Hs. right. exact Hc'.
Qed.

Lemma split_no_match (m : matcher) (s : jsstring) :
  s <> [] ->
  (forall t, m None t = None) ->
  (forall c t, In c s -> m (Some c) t = None) ->
  split m s = [s].
Proof.
  intros Hne H0 Hs. destruct s as [|c s]; [congruence|].
  unfold split. rewrite splitLoop_no_match; [reflexivity | exact H0 | exact Hs].
Qed.

(** X8.  Every caption text that [splitIntoSegments] returns is trimmed
    (it carries no white space at either end) and has a visible
    character. *)
Theorem X8_segments_trimmed (script : jsstring) :
  Forall (fun seg => trim seg = seg /\ hasInk seg = true) (splitIntoSegments script).
Proof.
  pose proof (splitIntoSegments_nonblank script) as Hnb.
  assert (Ht : Forall (fun s => trim s = s) (splitIntoSegments script)).
  { unfold splitIntoSegments.
    pose proof (sentenceLoop_trimmed (split re_after_sentence script) [] ltac:(constructor))
      as H.
    rewrite Stdlib.Lists.List.Forall_forall in H |- *.
    intros x Hx. apply filter_In in Hx. apply H, Hx. }
  rewrite Stdlib.Lists.List.Forall_forall in Hnb, Ht |- *.
  intros seg Hseg. split; [apply Ht, Hseg|].
  apply trimmed_ink; [apply Ht, Hseg | apply Hnb, Hseg].
Qed.

(** X9.  A script without sentence or clause punctuation is never split,
    however many words it has: [MAX_WORDS_PER_SEGMENT] only governs where
    the clauses of a sentence are grouped, not the length of a clause. *)
Theorem X9_unpunctuated_script_is_one_segment (script : jsstring) :
  hasInk script = true ->
  (forall c, In c script -> isOneOf (lit ".!?,;:") c = false) ->
  splitIntoSegments script = [trim script].
Proof.
  intros Hink Hplain.
  assert (Hne : script <> []) by (apply hasInk_nonempty, Hink).
  assert (Htr : truthy (trim script) = true) by (rewrite trim_truthy; exact Hink).
  assert (Hs : split re_after_sentence script = [script]).
  { apply split_no_match; [exact Hne | reflexivity |].
    intros c t Hc. unfold re_after_sentence.
    specialize (Hplain c Hc). cbn in Hplain |- *.
    repeat (apply Bool.orb_false_iff in Hplain; destruct Hplain as [? Hplain]).
    repeat match goal with H : N.eqb _ _ = false |- _ => rewrite H; clear H end.
    reflexivity. }
  assert (Hc : split re_after_clause script = [script]).
  { apply split_no_match; [exact Hne | reflexivity |].
    intros c t Hc. unfold re_after_clause.
    specialize (Hplain c Hc). cbn in Hplain |- *.
    repeat (apply Bool.orb_false_iff in Hplain; destruct Hplain as [? Hplain]).
    repeat match goal with H : N.eqb _ _ = false |- _ => rewrite H; clear H end.
    reflexivity. }
  unfold splitIntoSegments. rewrite Hs. cbn [fold_left]. unfold sentenceStep.
  destruct (_ <=? _)%nat.
  - rewrite Htr. cbn [app List.filter].
    destruct (trim script); [discriminate Htr | reflexivity].
  - rewrite Hc. cbn [fold_left]. unfold clauseStep.
    cbn [currentSegment currentLength segments_ List.length Nat.ltb Nat.leb].
    rewrite Bool.andb_false_r. rewrite Htr.
    cbn [currentSegment currentLength segments_ app join].
    rewrite trim_idem.
    change (List.length [trim script]) with 1%nat.
    change (0 <? 1)%nat with true. cbn [List.filter].
    destruct (trim script); [discriminate Htr | reflexivity].
Qed.

(** Ten words without punctuation stay in one caption. *)
Lemma X9_unpunctuated_script_is_one_segment_witness :
  splitIntoSegments (lit "one two three four five six seven eight nine ten")
  = [trim (lit "one two three four five six seven eight nine ten")].
Proof.
  apply X9_unpunctuated_script_is_one_segment.
  - reflexivity.
  - intros c Hc.
    apply (proj1 (Stdlib.Lists.List.Forall_forall
                    (fun c => isOneOf (lit ".!?,;:") c = false)
                    (lit "one two three four five six seven eight nine ten"))); [|exact Hc].
    repeat constructor.
Defined.

End SegmentShape.

Section WrapFacts.
Import Js SubtitleUtils.



End WrapFacts.

Section FloorFacts.
Import Js.

Lemma Qfloor_unique (y : Q) (z : Z) :
  inject_Z z <= y -> y < inject_Z (z + 1) -> Qfloor y = z.
Proof.
  intros Hle Hlt. apply Z.le_antisymm.
  - apply Qfloor_le_iff. exact Hlt.
  - rewrite <- (Qfloor_Z z). apply Qfloor_resp_le. exact Hle.
Qed.

Lemma Qfloor_bounds (y : Q) : inject_Z (Qfloor y) <= y /\ y < inject_Z (Qfloor y) + 1.
Proof.
  split; [apply Qfloor_le|].
  pose proof (Qlt_floor y) as H. rewrite inject_Z_plus in H. exact H.
Qed.

(** The whole part of [t / n - k] for a positive whole [n]: integer
    division of the whole part of [t]. *)
Lemma Qfloor_shift_div (t : Q) (k n : Z) :
  (0 < n)%Z ->
  Qfloor ((t - inject_Z k * inject_Z n) / inject_Z n) = (Qfloor t / n - k)%Z.
Proof.
  intros Hn.
  pose proof (Qfloor_bounds t) as [Hlo Hhi].
  pose proof (Z.div_mod (Qfloor t) n ltac:(lia)) as Hdm.
  pose proof (Z.mod_pos_bound (Qfloor t) n Hn) as Hr.
  set (q := (Qfloor t / n)%Z) in *. set (r := (Qfloor t mod n)%Z) in *.
  assert (Hn' : 0 < inject_Z n) by (change 0 with (inject_Z 0); rewrite <- Zlt_Qlt; exact Hn).
  assert (HT : inject_Z (Qfloor t) == inject_Z n * inject_Z q + inject_Z r).
  { rewrite <- inject_Z_mult, <- inject_Z_plus, <- Hdm. reflexivity. }
  assert (Hr0 : 0 <= inject_Z r).
  { change 0 with (inject_Z 0). rewrite <- Zle_Qle. lia. }
  assert (Hr1 : inject_Z r + 1 <= inject_Z n).
  { change 1 with (inject_Z 1). rewrite <- inject_Z_plus, <- Zle_Qle. lia. }
  apply Qfloor_unique.
  - apply Qle_shift_div_l; [exact Hn'|].
    unfold Z.sub. rewrite inject_Z_plus, inject_Z_opp. nra.
  - apply Qlt_shift_div_r; [exact Hn'|].
    replace (q - k + 1)%Z with ((q + 1) + - k)%Z by lia.
    rewrite !inject_Z_plus, inject_Z_opp. change (inject_Z 1) with 1. nra.
Qed.

Lemma Qfloor_div (t : Q) (n : Z) :
  (0 < n)%Z -> Qfloor (t / inject_Z n) = (Qfloor t / n)%Z.
Proof.
  intros Hn. rewrite <- (Z.sub_0_r (Qfloor t / n)), <- (Qfloor_shift_div t 0 n Hn).
  assert (Hn' : 0 < inject_Z n) by (change 0 with (inject_Z 0); rewrite <- Zlt_Qlt; exact Hn).
  apply Qfloor_comp. change (inject_Z 0) with 0. field.
  intros H. rewrite H in Hn'. apply (Qlt_irrefl 0). exact Hn'.
Qed.

Lemma Qfloor_sub_Z (t : Q) (k : Z) : Qfloor (t - inject_Z k) = (Qfloor t - k)%Z.
Proof.
  pose proof (Qfloor_bounds t) as [Hlo Hhi].
  apply Qfloor_unique.
  - unfold Z.sub. rewrite inject_Z_plus, inject_Z_opp. lra.
  - replace (Qfloor t - k + 1)%Z with ((Qfloor t + 1) + - k)%Z by lia.
    rewrite !inject_Z_plus, inject_Z_opp. change (inject_Z 1) with 1. lra.
Qed.

Lemma Qtrunc_nonneg (x : Q) : 0 <= x -> Qtrunc x = Qfloor x.
Proof.
  intros H. unfold Qtrunc. apply Qle_bool_true_iff in H. rewrite H. reflexivity.
Qed.

Lemma rem_nonneg (t : Q) (n : Z) :
  0 <= t -> (0 < n)%Z ->
  rem t (inject_Z n) = t - inject_Z (Qfloor t / n) * inject_Z n.
Proof.
  intros Ht Hn. unfold rem. rewrite Qtrunc_nonneg.
  - rewrite Qfloor_div by exact Hn. reflexivity.
  - apply Qle_shift_div_l.
    + change 0 with (inject_Z 0). rewrite <- Zlt_Qlt. exact Hn.
    + lra.
Qed.

End FloorFacts.

Section StampFacts.
Import Js SubtitleUtils.

(** X11.  [formatASSTime] cuts a non-negative time to whole centiseconds
    and never rounds it up: the stamp is made of the hours, the minutes
    below 60 and the seconds below 60 of the whole part of the time, and of
    the centiseconds below 100 of its fraction, so a caption is never shown
    later than computed and at most 10 ms earlier. *)
Theorem X11_ass_time_truncates (t : Q) :
  0 <= t ->
  let T := Qfloor t in
  let cs := Qfloor ((t - inject_Z T) * 100) in
  formatASSTime t = assStamp (T / 3600) (T mod 3600 / 60) (T mod 60) cs
  /\ (0 <= T / 3600)%Z
  /\ (0 <= T mod 3600 / 60 < 60)%Z
  /\ (0 <= T mod 60 < 60)%Z
  /\ (0 <= cs < 100)%Z
  /\ (3600 * (T / 3600) + 60 * (T mod 3600 / 60) + T mod 60 = T)%Z
  /\ inject_Z T + inject_Z cs / 100 <= t
  /\ t < inject_Z T + inject_Z cs / 100 + (1 # 100).
Proof.
  intros Ht T cs.
  pose proof (Qfloor_bounds t) as [Hlo Hhi]. fold T in Hlo, Hhi.
  assert (HT : (0 <= T)%Z).
  { subst T. rewrite <- (Qfloor_Z 0). apply Qfloor_resp_le. exact Ht. }
  pose proof (Qfloor_bounds ((t - inject_Z T) * 100)) as [Hclo Hchi]. fold cs in Hclo, Hchi.
  assert (Hcs : (0 <= cs < 100)%Z).
  { split.
    - subst cs. rewrite <- (Qfloor_Z 0). apply Qfloor_resp_le.
      change (inject_Z 0) with 0. lra.
    - assert (H99 : (cs <= 99)%Z); [|lia].
      subst cs. apply Qfloor_le_iff. change (inject_Z (99 + 1)) with 100. lra. }
  split; [|split; [|split; [|split; [|split; [|split]]]]].
  - unfold formatASSTime, assStamp.
    change 3600 with (inject_Z 3600). change 60 with (inject_Z 60).
    change 1 with (inject_Z 1).
    rewrite Qfloor_div by lia.
    rewrite !rem_nonneg by (first [exact Ht | lia]).
    assert (E1 : (Qfloor t / 60 - Qfloor t / 3600 * 60 = T mod 3600 / 60)%Z).
    { subst T. Z.div_mod_to_equations. lia. }
    assert (E2 : Qfloor (t - inject_Z (Qfloor t / 60) * inject_Z 60) = (T mod 60)%Z).
    { rewrite <- inject_Z_mult, Qfloor_sub_Z. subst T. Z.div_mod_to_equations. lia. }
    assert (E3 : Qfloor ((t - inject_Z (Qfloor t / 1) * inject_Z 1) * inject_Z 100) = cs).
    { subst cs T. apply Qfloor_comp. rewrite Z.div_1_r.
      change (inject_Z 1) with 1. change (inject_Z 100) with 100. ring. }
    change 100 with (inject_Z 100). rewrite E2, E3.
    assert (E4 : Qfloor ((t - inject_Z (Qfloor t / 3600) * inject_Z 3600) / inject_Z 60)
                 = (T mod 3600 / 60)%Z).
    { transitivity (Qfloor ((t - inject_Z (Qfloor t / 3600 * 60) * inject_Z 60)
                            / inject_Z 60)).
      - apply Qfloor_comp. rewrite inject_Z_mult.
        change (inject_Z 3600) with 3600. change (inject_Z 60) with 60. field.
      - rewrite Qfloor_shift_div by lia. exact E1. }
    rewrite E4. reflexivity.
  - Z.div_mod_to_equations. lia.
  - Z.div_mod_to_equations. lia.
  - Z.div_mod_to_equations. lia.
  - exact Hcs.
  - Z.div_mod_to_equations. lia.
  - unfold Qdiv. change (/ 100) with (1 # 100). split; lra.
Qed.

(** 3725.678 s is stamped 1:02:05.67. *)
Lemma X11_ass_time_truncates_witness :
  formatASSTime (3725678 # 1000) = lit "1:02:05.67".
Proof.
  assert (H0 : 0 <= 3725678 # 1000) by (unfold Qle; simpl; lia).
  destruct (X11_ass_time_truncates (3725678 # 1000) H0) as [H _].
  rewrite H. reflexivity.
Defined.

End StampFacts.

Section CaptionPathFacts.
Import Js Runtime SubtitleUtils.

Lemma splitExt_word (e : jsstring) : forallb isWordChar e = true -> splitExt e = None.
Proof.
  induction e as [|c e IH]; [reflexivity|]. cbn [forallb splitExt].
  intros H. apply Bool.andb_true_iff in H. destruct H as [Hc He].
  rewrite (IH He).
  destruct (N.eqb c 46) eqn:E; [|reflexivity].
  apply N.eqb_eq in E. subst c. discriminate Hc.
Qed.

Lemma splitExt_no_dot (s : jsstring) : ~ In 46%N s -> splitExt s = None.
Proof.
  induction s as [|c s IH]; [reflexivity|]. cbn [splitExt]. intros H.
  rewrite IH by (intros X; apply H; right; exact X).
  destruct (N.eqb c 46) eqn:E; [|reflexivity].
  apply N.eqb_eq in E. exfalso. apply H. left. exact E.
Qed.

Lemma splitExt_dot (e : jsstring) :
  e <> [] -> forallb isWordChar e = true -> splitExt (46%N :: e) = Some ([], 46%N :: e).
Proof.
  intros Hne He. cbn [splitExt]. rewrite (splitExt_word e He), He.
  destruct e; [congruence | reflexivity].
Qed.

(** X12.  [generateSubtitleFile] resolves with the path it wrote, which is
    the requested path with its extension replaced by [.ass]; it resolves
    with no path, or rejects, only without touching the state.  A
    requested path without a full stop is used as it is: no [.ass] is
    appended to it. *)
Theorem X12_caption_file_path env script audioDuration outputPath w :
  match generateSubtitleFile env script audioDuration outputPath w with
  | (Ok (Some p), w') =>
      p = replaceExt (lit ".ass") outputPath
      /\ (exists content, w' = setFs (insert p (TextFile content)) w)
  | (Ok None, w') => w' = w
  | (Throw _, w') => w' = w
  end
  /\ (forall stem e : jsstring, e <> [] -> forallb isWordChar e = true ->
        replaceExt (lit ".ass") (stem ++ 46%N :: e) = stem ++ lit ".ass")
  /\ (forall s : jsstring, ~ In 46%N s -> replaceExt (lit ".ass") s = s).
Proof.
  split; [|split].
  - unfold generateSubtitleFile.
    destruct (negb (truthy script) || negb (truthy (trim script))); [reflexivity|].
    destruct (List.length (splitIntoSegments script) =? 0)%nat; [reflexivity|].
    destruct (List.length (calculateTiming (splitIntoSegments script) audioDuration)
              =? 0)%nat; [reflexivity|].
    unfold bind, lift. destruct (subtitleWrite env) as [[]|e]; [|reflexivity].
    cbn. split; [reflexivity|]. eexists. reflexivity.
  - intros stem e Hne He. unfold replaceExt.
    pose proof (splitExt_app stem (46%N :: e) [] (46%N :: e) (splitExt_dot e Hne He)) as H.
    match goal with
    | |- context [splitExt ?x] =>
        match type of H with splitExt ?y = _ => change x with y end
    end.
    rewrite H, app_nil_r. reflexivity.
  - intros s Hs. unfold replaceExt. rewrite (splitExt_no_dot s Hs). reflexivity.
Qed.

End CaptionPathFacts.

Section EscapeFacts.
Import Js SubtitleUtils VideoProcessor.

Lemma replaceEach_compose (f g : char -> jsstring) (s : jsstring) :
  replaceEach g (replaceEach f s) = replaceEach (fun c => replaceEach g (f c)) s.
Proof.
  induction s as [|c s IH]; [reflexivity|].
  rewrite !replaceEach_cons, replaceEach_app, IH. reflexivity.
Qed.

Lemma replaceEach_ext (f g : char -> jsstring) (s : jsstring) :
  (forall c, f c = g c) -> replaceEach f s = replaceEach g s.
Proof.
  intros H. induction s as [|c s IH]; [reflexivity|].
  rewrite !replaceEach_cons, H, IH. reflexivity.
Qed.

(** X13.  The successive global replacements of [escapeSubtitlePath] and
    of [escapeText] do not interfere: each amounts to rewriting every code
    unit of the argument on its own (a backslash becomes a slash in a
    path and is doubled in a text; a colon of a path gets a backslash; a
    single quote is closed, escaped and reopened), so what one replacement
    inserts is never rewritten by a later one, and a string without
    backslash, colon or single quote is left as it is. *)
Theorem X13_escapes_act_per_code_unit (s : jsstring) :
  escapeSubtitlePath s = replaceEach escapedPathUnit s
  /\ escapeText s = replaceEach escapedTextUnit s
  /\ ((forall c, In c s -> c <> 92%N /\ c <> 58%N /\ c <> 39%N) ->
      escapeSubtitlePath s = s /\ escapeText s = s).
Proof.
  assert (H1 : escapeSubtitlePath s = replaceEach escapedPathUnit s).
  { unfold escapeSubtitlePath. cbv zeta. rewrite !replaceEach_compose.
    apply replaceEach_ext. intros c. unfold escapedPathUnit, replaceEach.
    destruct (N.eqb c 92) eqn:E92; [reflexivity|].
    cbn [List.map List.concat app].
    destruct (N.eqb c 58) eqn:E58; [reflexivity|].
    cbn [List.map List.concat app].
    destruct (N.eqb c 39) eqn:E39; reflexivity. }
  assert (H2 : escapeText s = replaceEach escapedTextUnit s).
  { unfold escapeText. cbv zeta. rewrite !replaceEach_compose.
    apply replaceEach_ext. intros c. unfold escapedTextUnit, replaceEach.
    destruct (N.eqb c 92) eqn:E92; [reflexivity|].
    cbn [List.map List.concat app].
    destruct (N.eqb c 39) eqn:E39; reflexivity. }
  split; [exact H1|]. split; [exact H2|].
  intros Hplain. rewrite H1, H2.
  split; apply replaceEach_id; intros c Hc; destruct (Hplain c Hc) as (A & B & C);
    apply N.eqb_neq in A, B, C.
  - unfold escapedPathUnit. rewrite A, B, C. reflexivity.
  - unfold escapedTextUnit. rewrite A, C. reflexivity.
Qed.

End EscapeFacts.

Section EmotionFacts.
Import Js Runtime TTSService.

Lemma toVector_cases (v : Q) :
  (v <= 20 /\ toVector v = 0)
  \/ (20 < v /\ toVector v == Qmin (7 # 5) ((v - 20) * (7 # 400))).
Proof.
  unfold toVector. destruct (Qle_bool v 20) eqn:E.
  - left. apply Qle_bool_true_iff in E. split; [exact E | reflexivity].
  - right. apply Qle_bool_false_iff in E. split; [exact E|].
    unfold Math_min. apply Q.min_compat; [reflexivity|].
    unfold Qdiv. change (/ 80) with (1 # 80). ring.
Qed.

Lemma toVector_range (v : Q) : 0 <= toVector v /\ toVector v <= 7 # 5.
Proof.
  destruct (toVector_cases v) as [[Hv E]|[Hv E]]; rewrite E.
  - split; [apply Qle_refl | unfold Qle; simpl; lia].
  - split.
    + apply Q.min_glb; [unfold Qle; simpl; lia | nra].
    + apply Q.le_min_l.
Qed.

Lemma toVector_mono (a b : Q) : a <= b -> toVector a <= toVector b.
Proof.
  intros Hab.
  destruct (toVector_cases a) as [[Ha Ea]|[Ha Ea]].
  - rewrite Ea. apply toVector_range.
  - destruct (toVector_cases b) as [[Hb Eb]|[Hb Eb]]; [lra|].
    rewrite Ea, Eb. apply Q.min_le_compat_l. nra.
Qed.

(** X14.  [mapEmotionsToVectors]: every emotion vector lies between 0 and
    1.4; a slider moves its vector monotonically, leaves it at 0 up to 20
    and saturates it at 1.4 from 100 on; the vectors for disgust and
    melancholy are always 0; the weight is 0.7, 0.85 or 1 according to the
    highest slider (above 40, above 70), and 0.6 when no setting is
    given, which is less than for any setting. *)
Theorem X14_emotion_vectors (e : EmotionSettings) :
  let vs := mapEmotionsToVectors (Some e) in
  Forall (fun x => 0 <= x /\ x <= 7 # 5)
         [vec1 vs; vec2 vs; vec3 vs; vec4 vs; vec5 vs; vec6 vs; vec7 vs; vec8 vs]
  /\ vec5 vs = 0 /\ vec6 vs = 0
  /\ (vec1 vs, vec2 vs, vec3 vs, vec4 vs, vec7 vs, vec8 vs)
     = (toVector (happy e), toVector (angry e), toVector (sad e),
        toVector (fearful e), toVector (surprised e), toVector (calm e))
  /\ (forall a b, a <= b -> toVector a <= toVector b)
  /\ (forall v, v <= 20 -> toVector v = 0)
  /\ (forall v, 100 <= v -> toVector v == 7 # 5)
  /\ (maxEmotion e <= 40 -> emoWeight vs = 7 # 10)
  /\ (40 < maxEmotion e -> maxEmotion e <= 70 -> emoWeight vs = 17 # 20)
  /\ (70 < maxEmotion e -> emoWeight vs = 1)
  /\ emoWeight (mapEmotionsToVectors None) = 3 # 5
  /\ emoWeight (mapEmotionsToVectors None) < emoWeight vs.
Proof.
  intros vs.
  assert (Hw : emoWeight vs = if negb (Qle_bool (maxEmotion e) 70) then 1
                              else if negb (Qle_bool (maxEmotion e) 40) then 17 # 20
                                   else 7 # 10) by reflexivity.
  split; [|split; [|split; [|split; [|split; [|split; [|split; [|split;
    [|split; [|split; [|split]]]]]]]]]].
  - subst vs. cbn [mapEmotionsToVectors vec1 vec2 vec3 vec4 vec5 vec6 vec7 vec8].
    repeat constructor; try apply toVector_range; unfold Qle; simpl; lia.
  - reflexivity.
  - reflexivity.
  - reflexivity.
  - apply toVector_mono.
  - intros v Hv. destruct (toVector_cases v) as [[_ E]|[Hgt _]]; [exact E | lra].
  - intros v Hv. destruct (toVector_cases v) as [[Hle _]|[_ E]]; [lra|].
    rewrite E. apply Q.min_l. nra.
  - intros H. rewrite Hw.
    assert (H70 : maxEmotion e <= 70) by lra.
    apply Qle_bool_true_iff in H, H70. rewrite H, H70. reflexivity.
  - intros H40 H70. rewrite Hw.
    apply Qle_bool_false_iff in H40. apply Qle_bool_true_iff in H70.
    rewrite H40, H70. reflexivity.
  - intros H. rewrite Hw. apply Qle_bool_false_iff in H. rewrite H. reflexivity.
  - reflexivity.
  - rewrite Hw. destruct (negb _); [reflexivity|]. destruct (negb _); reflexivity.
Qed.




End EmotionFacts.

Section EdgeFiles.
Import Js Runtime TTSService.
Local Open Scope js_scope.

Lemma wrapError_run {A} (prefix : string) (m : M A) (w : World) :
  wrapError prefix m w
  = match m w with
    | (Ok a, w') => (Ok a, w')
    | (Throw e, w') => (Throw (lit prefix ++ e), w')
    end.
Proof. reflexivity. Qed.

(** X16.  The files of [generateSpeechWithEdgeTTS] for an output path that
    ends in [.wav]: the MP3 goes to a path of its own; when the call and the
    conversion succeed the WAV holds the speech and the MP3 is removed;
    when the conversion fails the MP3 is left behind; when the call fails no
    file is written.  Every failure is rethrown with the prefix
    "Edge TTS generation failed: ", the provider is called exactly once,
    and no other file is touched. *)
Theorem X16_edge_tts_files env text (stem : jsstring) emotions w :
  let out := stem ++ lit ".wav" in
  let mp3 := replaceFirst (lit ".wav") (lit "_temp.mp3") out in
  let r := generateSpeechWithEdgeTTS env text out emotions w in
  mp3 <> out
  /\ calls (snd r) = calls w ++ [CallEdgeTTS]
  /\ (forall q, q <> out -> q <> mp3 -> fs (snd r) !! q = fs w !! q)
  /\ match edgeTTS env, edgeConvert env with
     | Ok d, Ok _ =>
         fst r = Ok out
         /\ fs (snd r) !! out = Some (audioOnly d)
         /\ fs (snd r) !! mp3 = None
     | Ok d, Throw e =>
         fst r = Throw (lit "Edge TTS generation failed: " ++ e)
         /\ fs (snd r) !! mp3 = Some (audioOnly d)
         /\ fs (snd r) !! out = fs w !! out
     | Throw e, _ =>
         fst r = Throw (lit "Edge TTS generation failed: " ++ e)
         /\ fs (snd r) = fs w
     end.
Proof.
  intros out mp3 r.
  assert (Hne : mp3 <> out).
  { subst mp3 out. apply replaceFirst_wav_ne. discriminate. }
  split; [exact Hne|].
  subst r. unfold generateSpeechWithEdgeTTS. rewrite wrapError_run.
  unfold bind, writeFile, modify, lift. cbn beta iota zeta.
  destruct (edgeTTS env) as [d|e]; cbn beta iota.
  2:{ split; [reflexivity|]. split; [reflexivity|]. split; reflexivity. }
  destruct (edgeConvert env) as [[]|e]; cbn beta iota.
  - rewrite unlink_quietly_run. cbn beta iota. unfold ret.
    cbn [fst snd setFs fs calls record].
    split; [reflexivity|]. split; [|split; [reflexivity|split]].
    + intros q Hq Hq'.
      rewrite lookup_delete_ne, lookup_insert_ne, lookup_insert_ne
        by (intros X; first [apply Hq; symmetry; exact X | apply Hq'; symmetry; exact X]).
      reflexivity.
    + rewrite lookup_delete_ne by exact Hne. apply lookup_insert_eq.
    + apply lookup_delete_eq.
  - cbn [fst snd setFs fs calls record].
    split; [reflexivity|]. split; [|split; [reflexivity|split]].
    + intros q Hq Hq'.
      rewrite lookup_insert_ne by (intros X; apply Hq'; symmetry; exact X).
      reflexivity.
    + apply lookup_insert_eq.
    + rewrite lookup_insert_ne by exact Hne. reflexivity.
Qed.

End EdgeFiles.

Section FrameFacts.
Import Js Runtime DurationPolicy SubtitleUtils AudioUtils VideoUtils TTSService VideoProcessor.
Local Open Scope js_scope.
Context {X : Type} (view : World -> X).

Lemma frames_ret {A} (a : A) : frames view (ret a).
Proof. intros w r w' H. inversion H; subst. reflexivity. Qed.

Lemma frames_throw {A} (e : jsstring) : frames view (@throw A e).
Proof. intros w r w' H. inversion H; subst. reflexivity. Qed.

Lemma frames_lift {A} (x : Result A) : frames view (lift x).
Proof. intros w r w' H. inversion H; subst. reflexivity. Qed.

Lemma frames_bind {A B} (m : M A) (k : A -> M B) :
  frames view m -> (forall a, frames view (k a)) -> frames view (bind m k).
Proof.
  intros Hm Hk w r w' H. unfold bind in H.
  destruct (m w) as [[a|e] w1] eqn:E; apply Hm in E.
  - apply Hk in H. congruence.
  - inversion H; subst. exact E.
Qed.

(** The rule for a bound value that later steps depend on. *)
Lemma frames_bind_yields {A B} (P : A -> Prop) (m : M A) (k : A -> M B) :
  frames view m -> yields P m -> (forall a, P a -> frames view (k a)) ->
  frames view (bind m k).
Proof.
  intros Hm Hy Hk w r w' H. unfold bind in H.
  destruct (m w) as [[a|e] w1] eqn:E.
  - pose proof (Hy _ _ _ E) as Pa. apply Hm in E. apply (Hk a Pa) in H. congruence.
  - apply Hm in E. inversion H; subst. exact E.
Qed.

Lemma frames_tryCatch {A} (m : M A) (h : jsstring -> M A) :
  frames view m -> (forall e, frames view (h e)) -> frames view (tryCatch m h).
Proof.
  intros Hm Hh w r w' H. unfold tryCatch in H.
  destruct (m w) as [[a|e] w1] eqn:E; apply Hm in E.
  - inversion H; subst. exact E.
  - apply Hh in H. congruence.
Qed.

Lemma frames_modify (f : World -> World) :
  (forall w, view (f w) = view w) -> frames view (modify f).
Proof. intros Hf w r w' H. inversion H; subst. apply Hf. Qed.

Lemma frames_unlink (p : jsstring) :
  (forall w, view (setFs (delete p) w) = view w) -> frames view (unlink p).
Proof.
  intros Hf w r w' H. unfold unlink in H.
  destruct (fs w !! p); inversion H; subst; [apply Hf | reflexivity].
Qed.

Lemma frames_ffprobe env p : frames view (ffprobe env p).
Proof.
  intros w r w' H. unfold ffprobe in H.
  destruct (fs w !! p) as [[m|c]|]; inversion H; subst; reflexivity.
Qed.

Lemma frames_readMedia env p : frames view (readMedia env p).
Proof.
  intros w r w' H. unfold readMedia in H.
  destruct (fs w !! p) as [[m|c]|]; inversion H; subst; reflexivity.
Qed.

Lemma frames_access p : frames view (access p).
Proof.
  intros w r w' H. unfold access in H.
  destruct (fs w !! p); inversion H; subst; reflexivity.
Qed.

Lemma frames_uploadVideoToDrive env p n :
  (forall c w, view (record c w) = view w) ->
  frames view (uploadVideoToDrive env p n).
Proof.
  intros Hrec w r w' H. unfold uploadVideoToDrive in H.
  destruct (fs w !! p).
  - revert H. apply frames_bind; [apply frames_modify; intros ?; apply Hrec|].
    intros _. apply frames_lift.
  - inversion H; subst. reflexivity.
Qed.

End FrameFacts.

Ltac frames_step :=
  first
    [ apply frames_ret | apply frames_throw | apply frames_lift
    | apply frames_ffprobe | apply frames_readMedia | apply frames_access
    | apply frames_bind; [|intros ?]
    | apply frames_tryCatch; [|intros ?]
    | apply frames_modify; intros ?
    | apply frames_unlink; intros ?
    | match goal with
      | |- frames _ (match ?x with _ => _ end) => destruct x
      | |- frames _ (if ?c then _ else _) => destruct c
      | |- frames _ (let '(_, _) := ?x in _) => destruct x
      end ].

(** Closes the side conditions of [frames_step] for the view [fileAt q]:
    the paths written or removed differ from [q]. *)
Ltac off_path :=
  unfold fileAt; cbn [Runtime.fs Runtime.setFs Runtime.record];
  first
    [ reflexivity
    | rewrite lookup_insert_ne by (intros ?; subst; tauto); reflexivity
    | rewrite lookup_delete_ne by (intros ?; subst; tauto); reflexivity ].

Section StageFrames.
Import Js Runtime DurationPolicy SubtitleUtils AudioUtils VideoUtils TTSService VideoProcessor.
Local Open Scope js_scope.

Lemma offDisk_projects : offDisk projects.
Proof. split; reflexivity. Qed.

Lemma offDisk_activeJobs : offDisk Runtime.activeJobs.
Proof. split; reflexivity. Qed.

Lemma tempPath_length (env : Env) (name : jsstring) :
  List.length (tempPath env name)
  = (List.length (TEMP_DIR env) + 1 + List.length name)%nat.
Proof. unfold tempPath. rewrite !length_app. cbn. lia. Qed.

Lemma edgeMp3Path_length (env : Env) (pid : jsstring) :
  List.length (edgeMp3PathOf env pid)
  = (List.length (TEMP_DIR env) + 1 + List.length pid + 15)%nat.
Proof.
  unfold edgeMp3PathOf. rewrite audioPath_wav.
  pose proof (replaceFirst_length (lit ".wav") (lit "_temp.mp3")
                (TEMP_DIR env ++ lit "/" ++ pid ++ lit "_audio") []) as H.
  rewrite app_nil_r in H. rewrite !length_app in H.
  change (List.length (lit ".wav")) with 4%nat in H.
  change (List.length (lit "_temp.mp3")) with 9%nat in H.
  change (List.length (lit "_audio")) with 6%nat in H.
  change (List.length (lit "/")) with 1%nat in H.
  lia.
Qed.

(** The MP3 of Edge TTS is none of the files named by a suffix of another
    length. *)
Lemma edgeMp3Path_ne (env : Env) (pid sfx : jsstring) :
  List.length sfx <> 15%nat -> edgeMp3PathOf env pid <> tempPath env (pid ++ sfx).
Proof.
  intros Ha E. apply (f_equal (@List.length _)) in E.
  rewrite edgeMp3Path_length, tempPath_length, length_app in E. lia.
Qed.

Lemma generateTTSPlaceholder_offDisk {X} (view : World -> X) env pid script emo :
  offDisk view -> frames view (generateTTSPlaceholder env pid script emo).
Proof.
  intros [Hfs Hrec].
  unfold generateTTSPlaceholder, generateSpeechWithEdgeTTS, generateSpeechWithK2FSA,
    wrapError, writeFile.
  repeat frames_step; first [apply Hfs | apply Hrec].
Qed.

Lemma generateTTSPlaceholder_frame env pid script emo q :
  q <> audioPathOf env pid -> q <> edgeMp3PathOf env pid ->
  frames (fileAt q) (generateTTSPlaceholder env pid script emo).
Proof.
  intros H1 H2.
  unfold generateTTSPlaceholder, generateSpeechWithEdgeTTS, generateSpeechWithK2FSA,
    wrapError, writeFile.
  fold (audioPathOf env pid). fold (edgeMp3PathOf env pid).
  repeat frames_step; off_path.
Qed.

Lemma generateTTSPlaceholder_yields env pid script emo :
  yields (fun p => p = audioPathOf env pid) (generateTTSPlaceholder env pid script emo).
Proof.
  intros w a w'.
  unfold generateTTSPlaceholder. fold (audioPathOf env pid).
  unfold tryCatch, bind, ret, lift.
  repeat match goal with
         | |- context [match ?m ?w0 with _ => _ end] =>
             lazymatch m with
             | generateSpeechWithEdgeTTS _ _ _ _ => destruct (m w0) as [[?|?] ?]
             | generateSpeechWithK2FSA _ _ _ => destruct (m w0) as [[?|?] ?]
             end
         end;
    try (intros H; inversion H; reflexivity).
  destruct (silenceFfmpeg env); intros H; inversion H; reflexivity.
Qed.

Lemma getAudioDuration_frame {X} (view : World -> X) env p :
  frames view (getAudioDuration env p).
Proof. unfold getAudioDuration. repeat frames_step. Qed.

Lemma generateMusicPlaceholder_offDisk {X} (view : World -> X) env pid vt d :
  offDisk view -> frames view (generateMusicPlaceholder env pid vt d).
Proof.
  intros [Hfs Hrec]. unfold generateMusicPlaceholder, writeFile.
  repeat frames_step; first [apply Hfs | apply Hrec].
Qed.

Lemma generateMusicPlaceholder_frame env pid vt d q :
  q <> musicPathOf env pid ->
  frames (fileAt q) (generateMusicPlaceholder env pid vt d).
Proof.
  intros H1. unfold generateMusicPlaceholder, writeFile. fold (musicPathOf env pid).
  repeat frames_step; off_path.
Qed.

Lemma generateMusicPlaceholder_yields env pid vt d :
  yields (fun p => p = musicPathOf env pid) (generateMusicPlaceholder env pid vt d).
Proof.
  intros w a w'. rewrite generateMusicPlaceholder_run.
  destruct (musicFfmpeg env) as [[]|e]; intros H; inversion H; reflexivity.
Qed.

Lemma generateVideoPlaceholder_offDisk {X} (view : World -> X) env pid script d :
  offDisk view -> frames view (generateVideoPlaceholder env pid script d).
Proof.
  intros [Hfs Hrec]. unfold generateVideoPlaceholder, wrapError, writeFile.
  repeat frames_step; first [apply Hfs | apply Hrec].
Qed.

Lemma generateVideoPlaceholder_frame env pid script d q :
  q <> bgPathOf env pid ->
  frames (fileAt q) (generateVideoPlaceholder env pid script d).
Proof.
  intros H1. unfold generateVideoPlaceholder, wrapError, writeFile.
  fold (bgPathOf env pid).
  repeat frames_step; off_path.
Qed.

Lemma generateVideoPlaceholder_yields env pid script d :
  yields (fun p => p = bgPathOf env pid) (generateVideoPlaceholder env pid script d).
Proof.
  intros w a w' H. apply generateVideoPlaceholder_spec in H. destruct H as [_ H].
  destruct (clipOf env d) as [[c s]|].
  - destruct H as (H & _). inversion H. reflexivity.
  - destruct H as [e H]. discriminate H.
Qed.

Lemma extendVideoToAudioLength_offDisk {X} (view : World -> X) env p d o :
  offDisk view -> frames view (extendVideoToAudioLength env p d o).
Proof.
  intros [Hfs Hrec]. unfold extendVideoToAudioLength, writeFile.
  repeat frames_step; first [apply Hfs | apply Hrec].
Qed.

Lemma extendVideoToAudioLength_frame env p d o q :
  q <> orElse o (insertBeforeExt (lit "_extended") p) ->
  frames (fileAt q) (extendVideoToAudioLength env p d o).
Proof.
  intros H1. unfold extendVideoToAudioLength, writeFile.
  repeat frames_step; off_path.
Qed.

Lemma extendVideoToAudioLength_yields env p d o :
  yields (fun r => r = p \/ r = orElse o (insertBeforeExt (lit "_extended") p))
         (extendVideoToAudioLength env p d o).
Proof.
  intros w a w'. unfold extendVideoToAudioLength, bind, ffprobe, readMedia, lift, writeFile,
    modify, ret, throw.
  destruct (fs w !! p) as [[m|c]|] eqn:E; cbn beta iota; try discriminate.
  destruct (Qle_bool d _); cbn beta iota.
  - intros H; inversion H. left. reflexivity.
  - rewrite E. cbn beta iota. destruct (video m); cbn beta iota; [|discriminate].
    destruct (extendFfmpeg env) as [[]|e]; cbn beta iota; [|discriminate].
    intros H; inversion H. right. reflexivity.
Qed.

Lemma generateSubtitleFile_offDisk {X} (view : World -> X) env script d p :
  offDisk view -> frames view (generateSubtitleFile env script d p).
Proof.
  intros [Hfs Hrec]. unfold generateSubtitleFile, writeFile.
  repeat frames_step; first [apply Hfs | apply Hrec].
Qed.

Lemma generateSubtitleFile_frame env script d p q :
  q <> replaceExt (lit ".ass") p ->
  frames (fileAt q) (generateSubtitleFile env script d p).
Proof.
  intros H1. unfold generateSubtitleFile, writeFile.
  repeat frames_step; off_path.
Qed.

Lemma generateSubtitleFile_yields env script d p :
  yields (fun r => r = None \/ r = Some (replaceExt (lit ".ass") p))
         (generateSubtitleFile env script d p).
Proof.
  intros w a w'. unfold generateSubtitleFile.
  destruct (negb (truthy script) || negb (truthy (trim script)));
    [intros H; inversion H; left; reflexivity|].
  destruct (List.length (splitIntoSegments script) =? 0)%nat;
    [intros H; inversion H; left; reflexivity|].
  destruct (List.length (calculateTiming (splitIntoSegments script) d) =? 0)%nat;
    [intros H; inversion H; left; reflexivity|].
  unfold bind, lift. destruct (subtitleWrite env) as [[]|e]; [|discriminate].
  intros H; inversion H. right. reflexivity.
Qed.

Lemma cleanupTempFiles_offDisk {X} (view : World -> X) files :
  offDisk view -> frames view (cleanupTempFiles files).
Proof.
  intros [Hfs Hrec]. unfold cleanupTempFiles.
  induction files as [|f files IH]; cbn [fold_right].
  - apply frames_ret.
  - apply frames_bind; [|intros _; exact IH].
    apply frames_tryCatch; [apply frames_unlink; intros ?; apply Hfs|].
    intros _. apply frames_ret.
Qed.

Lemma cleanupTempFiles_frame files q :
  ~ In q files -> frames (fileAt q) (cleanupTempFiles files).
Proof.
  unfold cleanupTempFiles.
  induction files as [|f files IH]; intros Hq; cbn [fold_right].
  - apply frames_ret.
  - apply frames_bind; [|intros _; apply IH; intros X; apply Hq; right; exact X].
    apply frames_tryCatch; [|intros _; apply frames_ret].
    apply frames_unlink. intros w. unfold fileAt. cbn [fs setFs].
    apply lookup_delete_ne. intros ->. apply Hq. left. reflexivity.
Qed.

Lemma composeVideo_offDisk {X} (view : World -> X) env o :
  offDisk view -> frames view (composeVideo env o).
Proof.
  intros Hd. pose proof Hd as [Hfs Hrec]. unfold composeVideo, writeFile.
  repeat first [apply cleanupTempFiles_offDisk; exact Hd | frames_step];
    first [apply Hfs | apply Hrec].
Qed.

Lemma composeVideo_frame env o q :
  q <> tempPath env (c_projectId o ++ lit "_final.mp4") ->
  q <> c_audioPath o -> q <> c_musicPath o -> q <> c_bgVideoPath o ->
  c_subtitlePath o <> Some q ->
  frames (fileAt q) (composeVideo env o).
Proof.
  intros H1 H2 H3 H4 H5. unfold composeVideo, writeFile.
  repeat first
    [ apply cleanupTempFiles_frame
    | frames_step ]; try off_path.
  all: cbn [In app]; destruct (c_subtitlePath o) as [p|]; [destruct (truthy p)|];
    cbn [In app]; intros H; repeat destruct H as [H|H]; try congruence; try exact H.
Qed.

Lemma composeVideo_yields env o :
  yields (fun p => p = tempPath env (c_projectId o ++ lit "_final.mp4"))
         (composeVideo env o).
Proof.
  intros w a w'. unfold composeVideo, bind, readMedia.
  destruct (fs w !! c_bgVideoPath o) as [[bg|?]|]; try discriminate.
  destruct (fs w !! c_audioPath o) as [[sp|?]|]; try discriminate.
  destruct (fs w !! c_musicPath o) as [[mu|?]|]; try discriminate.
  destruct (video bg), (audio sp), (audio mu); try discriminate.
  unfold modify, lift. destruct (composeFfmpeg env) as [[]|e]; [|discriminate].
  unfold writeFile, modify.
  match goal with
  | |- context [cleanupTempFiles ?fl ?w0] =>
      destruct (cleanupTempFiles_run fl w0) as (w1 & E & _); rewrite E
  end.
  intros H; inversion H. reflexivity.
Qed.

Lemma updateProgress_frame {X} (view : World -> X) pid st p step e :
  (forall s w, view (setStatuses (insert pid s) w) = view w) ->
  (forall s w, view (notify s w) = view w) ->
  frames view (updateProgress pid st p step e).
Proof.
  intros H1 H2 w r w'. rewrite updateProgress_run. intros H; inversion H; subst.
  rewrite H2, H1. reflexivity.
Qed.

Lemma updateProject_frame {X} (view : World -> X) res id updates :
  (forall f w, view (setProjects f w) = view w) ->
  frames view (updateProject res id updates).
Proof.
  intros H1. unfold updateProject. repeat frames_step. apply H1.
Qed.

End StageFrames.

Section JobFrames.
Import Js Runtime DurationPolicy SubtitleUtils AudioUtils VideoUtils TTSService VideoProcessor.
Local Open Scope js_scope.

(** A view of the state that only the stage notifications, the row of the
    job and the files, external calls and active-job entry of the job can
    change is left as it was by the stages of the job. *)
Lemma runStages_offDisk {X} (view : World -> X) env job :
  offDisk view ->
  (forall s w, view (setStatuses (insert (job_projectId job) s) w) = view w) ->
  (forall s w, view (notify s w) = view w) ->
  (forall f w, view (setProjects (alter f (job_projectId job)) w) = view w) ->
  (forall w, view (setActiveJobs (insert (job_projectId job) true) w) = view w) ->
  frames view (runStages env job).
Proof.
  intros Hd Hst Hno Hrow Hact. pose proof Hd as [Hfs Hrec].
  unfold runStages, updateProject. cbv zeta.
  repeat first
    [ apply updateProgress_frame; [exact Hst | exact Hno]
    | apply generateTTSPlaceholder_offDisk; exact Hd
    | apply getAudioDuration_frame
    | apply generateMusicPlaceholder_offDisk; exact Hd
    | apply generateVideoPlaceholder_offDisk; exact Hd
    | apply extendVideoToAudioLength_offDisk; exact Hd
    | apply generateSubtitleFile_offDisk; exact Hd
    | apply composeVideo_offDisk; exact Hd
    | apply frames_uploadVideoToDrive; exact Hrec
    | apply cleanupTempFiles_offDisk; exact Hd
    | frames_step ];
    first [apply Hact | apply Hrow].
Qed.

Lemma extension_frame env pid measured c q :
  q <> bgExtendedPathOf env pid ->
  frames (fileAt q)
    (if c : bool then extendVideoToAudioLength env (bgPathOf env pid) measured None
     else ret (bgPathOf env pid)).
Proof.
  intros Hq. destruct c; [|apply frames_ret].
  apply extendVideoToAudioLength_frame. cbn [orElse]. rewrite bgExtendedPath_eq. exact Hq.
Qed.

Lemma extension_yields env pid measured c :
  yields (fun p => p = bgPathOf env pid \/ p = bgExtendedPathOf env pid)
    (if c : bool then extendVideoToAudioLength env (bgPathOf env pid) measured None
     else ret (bgPathOf env pid)).
Proof.
  destruct c.
  - intros w a w' H. apply extendVideoToAudioLength_yields in H.
    cbn [orElse] in H. rewrite bgExtendedPath_eq in H. exact H.
  - intros w a w' H. inversion H. left. reflexivity.
Qed.

(** The stages of a job touch no file but the temporary files of the
    job. *)
Lemma runStages_frame env job q :
  ~ In q (jobFiles env (job_projectId job)) ->
  frames (fileAt q) (runStages env job).
Proof.
  intros Hq. set (pid := job_projectId job) in *.
  assert (Hall : q <> audioPathOf env pid /\ q <> edgeMp3PathOf env pid
                 /\ q <> musicPathOf env pid /\ q <> bgPathOf env pid
                 /\ q <> bgExtendedPathOf env pid /\ q <> subtitlePathOf env pid
                 /\ q <> finalPathOf env pid).
  { unfold jobFiles in Hq. cbn [In] in Hq.
    repeat split; intros E; apply Hq; rewrite E; tauto. }
  destruct Hall as (Ha & Hmp3 & Hm & Hbg & Hext & Hsub & Hfin).
  unfold runStages. fold pid. cbv zeta.
  apply frames_bind; [apply frames_modify; reflexivity | intros _].
  apply frames_bind; [apply updateProgress_frame; reflexivity | intros _].
  apply frames_bind; [apply updateProgress_frame; reflexivity | intros _].
  apply (frames_bind_yields _ (fun p => p = audioPathOf env pid));
    [apply generateTTSPlaceholder_frame; assumption
    | apply generateTTSPlaceholder_yields | intros audioPath ->].
  apply frames_bind; [apply getAudioDuration_frame | intros measured].
  apply frames_bind; [apply updateProgress_frame; reflexivity | intros _].
  apply (frames_bind_yields _ (fun p => p = musicPathOf env pid));
    [apply generateMusicPlaceholder_frame; assumption
    | apply generateMusicPlaceholder_yields | intros musicPath ->].
  apply frames_bind; [apply updateProgress_frame; reflexivity | intros _].
  apply (frames_bind_yields _ (fun p => p = bgPathOf env pid));
    [apply generateVideoPlaceholder_frame; assumption
    | apply generateVideoPlaceholder_yields | intros bg0 ->].
  apply (frames_bind_yields _
           (fun p => p = bgPathOf env pid \/ p = bgExtendedPathOf env pid));
    [apply extension_frame; assumption | apply extension_yields | intros bgp Hbgp].
  apply frames_bind; [apply updateProgress_frame; reflexivity | intros _].
  fold (subtitlePathOf env pid).
  apply (frames_bind_yields _
           (fun o => o = None \/ o = Some (subtitlePathOf env pid))).
  { apply generateSubtitleFile_frame. rewrite subtitlePath_ass. exact Hsub. }
  { intros w a w' H. apply generateSubtitleFile_yields in H.
    rewrite subtitlePath_ass in H. exact H. }
  intros sp Hsp.
  apply (frames_bind_yields _ (fun p => p = finalPathOf env pid)).
  { apply composeVideo_frame; cbn [c_projectId c_audioPath c_musicPath c_bgVideoPath
                                   c_subtitlePath]; try assumption.
    - destruct Hbgp as [-> | ->]; assumption.
    - destruct Hsp as [-> | ->]; [discriminate|]. intros E. inversion E. congruence. }
  { apply composeVideo_yields. }
  intros out ->.
  apply frames_bind; [apply updateProgress_frame; reflexivity | intros _].
  apply frames_bind.
  { apply frames_tryCatch.
    - apply frames_bind; [apply frames_uploadVideoToDrive; reflexivity | intros res].
      apply frames_bind; [apply updateProject_frame; reflexivity | intros _].
      apply cleanupTempFiles_frame. cbn [In]. intros [E|[]]. congruence.
    - intros e. apply updateProject_frame. reflexivity. }
  intros _.
  apply frames_bind; [apply updateProgress_frame; reflexivity | intros _].
  apply frames_ret.
Qed.

Lemma executeJob_frames {X} (view : World -> X) env job :
  frames view (runStages env job) ->
  (forall s w, view (setStatuses (insert (job_projectId job) s) w) = view w) ->
  (forall s w, view (notify s w) = view w) ->
  (forall w, view (setActiveJobs (delete (job_projectId job)) w) = view w) ->
  frames view (executeJob env job).
Proof.
  intros Hrun Hst Hno Hact w r w'. rewrite executeJob_run.
  destruct (runStages env job w) as [[a|e] w1] eqn:E; apply Hrun in E;
    intros H; inversion H; subst; rewrite Hact, ?Hno, ?Hst; exact E.
Qed.

End JobFrames.

Section LeftoverFacts.
Import Js Runtime DurationPolicy SubtitleUtils AudioUtils VideoUtils TTSService VideoProcessor.
Local Open Scope js_scope.

Lemma generateTTSPlaceholder_mp3 env pid script emo w r w' :
  generateTTSPlaceholder env pid script emo w = (r, w') ->
  fs w' !! edgeMp3PathOf env pid = edgeMp3Left env (fs w !! edgeMp3PathOf env pid).
Proof.
  unfold generateTTSPlaceholder, generateSpeechWithEdgeTTS, generateSpeechWithK2FSA,
    wrapError, edgeMp3Left.
  fold (audioPathOf env pid). fold (edgeMp3PathOf env pid).
  assert (Hne : edgeMp3PathOf env pid <> audioPathOf env pid).
  { unfold edgeMp3PathOf. rewrite audioPath_wav. apply replaceFirst_wav_ne. cbn. lia. }
  set (mp3 := edgeMp3PathOf env pid) in *.
  unfold tryCatch, bind, modify, lift, writeFile, unlink, ret, throw.
  destruct (edgeTTS env) as [d|e]; [destruct (edgeConvert env) as [[]|e]|];
    cbn -[audioPathOf].
  - rewrite lookup_insert_ne by (intros E; apply Hne; symmetry; exact E).
    rewrite lookup_insert_eq. cbn -[audioPathOf].
    intros H; inversion H; subst; clear H. cbn -[audioPathOf].
    apply lookup_delete_eq.
  - destruct (k2fsaTTS env) as [d'|e']; cbn -[audioPathOf].
    + intros H; inversion H; subst; clear H. cbn -[audioPathOf].
      rewrite lookup_insert_ne by (intros E; apply Hne; symmetry; exact E).
      apply lookup_insert_eq.
    + destruct (silenceFfmpeg env) as [[]|e'']; cbn -[audioPathOf];
        intros H; inversion H; subst; clear H; cbn -[audioPathOf].
      * rewrite lookup_insert_ne by (intros E; apply Hne; symmetry; exact E).
        apply lookup_insert_eq.
      * apply lookup_insert_eq.
  - destruct (k2fsaTTS env) as [d'|e']; cbn -[audioPathOf].
    + intros H; inversion H; subst; clear H. cbn -[audioPathOf].
      apply lookup_insert_ne. intros E; apply Hne; symmetry; exact E.
    + destruct (silenceFfmpeg env) as [[]|e'']; cbn -[audioPathOf];
        intros H; inversion H; subst; clear H; cbn -[audioPathOf].
      * apply lookup_insert_ne. intros E; apply Hne; symmetry; exact E.
      * reflexivity.
Qed.

Lemma Qmax_same (x : Q) : Qmax x x = x.
Proof. unfold Qmax, GenericMinMax.gmax. destruct (x ?= x); reflexivity. Qed.

Lemma clipMedia_formatDuration (clip : Q) (sound : bool) :
  formatDuration (clipMedia clip sound) = Some clip.
Proof.
  unfold formatDuration, clipMedia; cbn [video audio].
  destruct sound; [rewrite Qmax_same|]; reflexivity.
Qed.

(** Which file the extension step hands on. *)
Lemma extension_path env pid clip sound measured target w p w' :
  fs w !! bgPathOf env pid = Some (MediaFile (clipMedia clip sound)) ->
  (if negb (Qle_bool (Math_max 0 (measured - target)) (1 # 10))
   then extendVideoToAudioLength env (bgPathOf env pid) measured None
   else ret (bgPathOf env pid)) w = (Ok p, w') ->
  if negb (Qle_bool (Qmax 0 (measured - target)) (1 # 10))
     && negb (Qle_bool measured clip)
  then p = bgExtendedPathOf env pid
  else p = bgPathOf env pid /\ w' = w.
Proof.
  intros Hbg. unfold Math_max.
  destruct (negb (Qle_bool (Qmax 0 (measured - target)) (1 # 10))); cbn [andb].
  - unfold extendVideoToAudioLength, bind, ffprobe, readMedia. rewrite Hbg.
    rewrite clipMedia_formatDuration.
    destruct (Qle_bool measured clip); cbn [negb]; cbn beta iota.
    + intros H; inversion H. split; reflexivity.
    + rewrite Hbg. cbn [clipMedia video]. cbn beta iota. unfold lift.
      destruct (extendFfmpeg env) as [[]|e]; [|discriminate].
      cbn [orElse]. rewrite bgExtendedPath_eq.
      intros H; inversion H. reflexivity.
  - intros H; inversion H. split; reflexivity.
Qed.

Lemma upload_block_projects env pid title content w w' :
  fs w !! finalPathOf env pid = Some content ->
  tryCatch
    (driveResult <- uploadVideoToDrive env (finalPathOf env pid) (driveFileName title pid) ;;
     updateProject (dbUpdateAfterUpload env) pid
       {| driveFileId := Some (fileId driveResult);
          driveWebViewLink := Some (webViewLink driveResult);
          videoUrl := Some (videoUrlOf pid) |} ;;
     cleanupTempFiles [finalPathOf env pid])
    (fun driveError =>
       updateProject (dbUpdateLocal env) pid
         {| driveFileId := None; driveWebViewLink := None;
            videoUrl := Some (videoUrlOf pid) |}) w = (Ok tt, w') ->
  projects w' = alter (recordedRow env pid) pid (projects w).
Proof.
  intros Hf. unfold recordedRow.
  unfold tryCatch. unfold bind at 1. unfold uploadVideoToDrive. rewrite Hf.
  unfold bind at 1. unfold modify at 1. cbn beta iota. unfold lift at 1.
  destruct (driveUpload env) as [result|e]; cbn beta iota.
  - unfold bind at 1. unfold updateProject at 1. unfold bind at 1. unfold lift at 1.
    destruct (dbUpdateAfterUpload env) as [[]|e]; cbn beta iota.
    + unfold modify at 1. cbn beta iota.
      match goal with
      | |- context [cleanupTempFiles ?fl ?w0] =>
          destruct (cleanupTempFiles_run fl w0) as (wc & Ec & _);
          pose proof (cleanupTempFiles_offDisk projects fl offDisk_projects _ _ _ Ec)
            as Hk;
          rewrite Ec
      end.
      intros H; inversion H; subst. exact Hk.
    + unfold updateProject, bind, lift.
      destruct (dbUpdateLocal env) as [[]|e']; [|discriminate].
      unfold modify. intros H; inversion H; subst. reflexivity.
  - unfold updateProject, bind, lift.
    destruct (dbUpdateLocal env) as [[]|e']; [|discriminate].
    unfold modify. intros H; inversion H; subst. reflexivity.
Qed.

Ltac pass_progress w1 Hf Hp :=
  unfold bind at 1; rewrite updateProgress_run; cbn beta iota;
  match goal with
  | |- context [notify ?s (setStatuses ?f ?w)] =>
      set (w1 := notify s (setStatuses f w));
      assert (Hf : fs w1 = fs w) by reflexivity;
      assert (Hp : projects w1 = projects w) by reflexivity;
      clearbody w1
  end.

(** What the stages of a job that completes leave of its temporary files
    and in its row. *)
Lemma runStages_leftovers env job sz w r w' :
  sizing env job = Some sz ->
  runStages env job w = (r, w') ->
  fs w' !! edgeMp3PathOf env (job_projectId job)
  = edgeMp3Left env (fs w !! edgeMp3PathOf env (job_projectId job))
  /\ fs w' !! bgPathOf env (job_projectId job)
     = (if stretched sz then Some (MediaFile (clipMedia (sz_clip sz) (sz_sound sz)))
        else None)
  /\ fs w' !! bgExtendedPathOf env (job_projectId job)
     = (if stretched sz then None
        else fs w !! bgExtendedPathOf env (job_projectId job))
  /\ fs w' !! subtitlePathOf env (job_projectId job)
     = (if sz_captions sz then None
        else fs w !! subtitlePathOf env (job_projectId job))
  /\ projects w'
     = alter (recordedRow env (job_projectId job)) (job_projectId job) (projects w).
Proof.
  intros Hsz. unfold runStages. set (pid := job_projectId job).
  unfold sizing in Hsz.
  assert (Hmp3_ne : forall sfx, List.length sfx <> 15%nat ->
                                edgeMp3PathOf env pid <> tempPath env (pid ++ sfx)).
  { intros sfx. apply edgeMp3Path_ne. }
  assert (Hsfx : forall a b, a <> b -> tempPath env (pid ++ a) <> tempPath env (pid ++ b)).
  { intros a b. apply tempPath_ne. }
  unfold bind at 1. unfold modify at 1. cbn beta iota.
  set (w0 := setActiveJobs _ w).
  assert (Hfs0 : fs w0 = fs w) by reflexivity.
  assert (Hp0 : projects w0 = projects w) by reflexivity.
  clearbody w0.
  pass_progress w1 Hfs1 Hp1. pass_progress w2 Hfs2 Hp2.
  (* speech *)
  unfold bind at 1.
  destruct (generateTTSPlaceholder env pid (script job) (emotions job) w2)
    as [r1 w3] eqn:E1.
  pose proof (generateTTSPlaceholder_offDisk projects env pid _ _ offDisk_projects
                _ _ _ E1) as Hp3.
  pose proof (fun q H1 H2 =>
                generateTTSPlaceholder_frame env pid (script job) (emotions job) q H1 H2
                  _ _ _ E1) as Hfr3.
  pose proof (generateTTSPlaceholder_mp3 _ _ _ _ _ _ _ E1) as Hmp3.
  apply generateTTSPlaceholder_spec in E1. destruct E1 as (_ & _ & Hs).
  destruct (speechOf env (script job)) as [speech|]; [|discriminate Hsz].
  destruct Hs as [-> Ha3]. cbn beta iota.
  (* measurement *)
  unfold bind at 1. rewrite (getAudioDuration_known env _ speech w3 Ha3).
  destruct (Qeq_bool speech 0); [discriminate Hsz|].
  cbn beta iota zeta. cbv zeta in Hsz.
  set (measured := roundUpDuration speech) in *.
  set (target := targetDuration (decideSoraDuration measured)) in *.
  pass_progress w4 Hfs4 Hp4.
  (* music *)
  unfold bind at 1. rewrite generateMusicPlaceholder_run.
  destruct (musicFfmpeg env) as [[]|e]; [|discriminate Hsz].
  cbn beta iota. fold (musicPathOf env pid).
  set (w5 := setFs _ w4).
  assert (Hm5 : fs w5 !! musicPathOf env pid = Some (audioOnly measured)).
  { subst w5. cbn. apply lookup_insert_eq. }
  assert (Hfr5 : forall q, q <> musicPathOf env pid -> fs w5 !! q = fs w4 !! q).
  { intros q Hq. subst w5. cbn. apply lookup_insert_ne. congruence. }
  assert (Hp5 : projects w5 = projects w4) by reflexivity.
  clearbody w5.
  pass_progress w6 Hfs6 Hp6.
  (* background video *)
  unfold bind at 1.
  destruct (generateVideoPlaceholder env pid (script job) (seconds target) w6)
    as [r7 w7] eqn:E7.
  pose proof (generateVideoPlaceholder_offDisk projects env pid _ _ offDisk_projects
                _ _ _ E7) as Hp7.
  apply generateVideoPlaceholder_spec in E7. destruct E7 as (Hfs7 & Hv).
  destruct (clipOf env (seconds target)) as [[clip sound]|]; [|discriminate Hsz].
  destruct Hv as (-> & Hbg7 & _). cbn beta iota.
  (* extension *)
  unfold bind at 1.
  match goal with
  | |- context [(if ?c then extendVideoToAudioLength env ?p ?m None else ret ?p) w7] =>
      destruct ((if c then extendVideoToAudioLength env p m None else ret p) w7)
        as [r8 w8] eqn:E8
  end.
  pose proof E8 as E8'.
  assert (Hp8 : projects w8 = projects w7).
  { revert E8. match goal with |- (if ?c then _ else _) _ = _ -> _ => destruct c end;
      intros E8.
    - apply (extendVideoToAudioLength_offDisk projects _ _ _ _ offDisk_projects _ _ _ E8).
    - inversion E8; reflexivity. }
  apply (extension_spec env pid clip sound measured (seconds target)) in E8;
    [|exact Hbg7].
  destruct E8 as (Hfs8 & _ & Hp).
  destruct (pictureOf env clip sound measured (seconds target)) as [picture|];
    [|discriminate Hsz].
  destruct Hp as (bgp & -> & Hbgp & Hbg8).
  apply (extension_path env pid clip sound measured (seconds target)) in E8';
    [|exact Hbg7].
  cbn beta iota.
  pass_progress w9 Hfs9 Hp9.
  (* captions *)
  unfold bind at 1.
  destruct (generateSubtitleFile env (script job) measured
              (tempPath env (pid ++ lit "_subtitles.ass")) w9) as [r10 w10] eqn:E10.
  pose proof (generateSubtitleFile_offDisk projects _ _ _ _ offDisk_projects
                _ _ _ E10) as Hp10.
  apply (generateSubtitleFile_spec env pid) in E10.
  destruct E10 as (Hfs10 & _ & Hcap).
  destruct (captionsOf env (script job) measured) as [captions|]; [|discriminate Hsz].
  set (sp := if captions then Some (subtitlePathOf env pid) else None).
  assert (Hr10 : r10 = Ok sp /\ (captions = false -> w10 = w9)).
  { subst sp. destruct captions.
    - destruct Hcap as [-> _]. split; [reflexivity | discriminate].
    - destruct Hcap as [-> ->]. split; reflexivity. }
  clear Hcap. destruct Hr10 as [-> Hw10].
  assert (Hsp : sp = None \/ sp = Some (subtitlePathOf env pid)).
  { subst sp. destruct captions; [right|left]; reflexivity. }
  cbn beta iota.
  (* compositing *)
  unfold bind at 1.
  match goal with
  | |- context [composeVideo env ?o w10] =>
      destruct (composeVideo env o w10) as [r11 w11] eqn:E11;
      pose proof (composeVideo_offDisk projects env o offDisk_projects _ _ _ E11) as Hp11;
      pose proof (fun q A B C D E => composeVideo_frame env o q A B C D E _ _ _ E11)
        as Hfr11
  end.
  cbn [c_projectId c_audioPath c_musicPath c_bgVideoPath c_subtitlePath] in Hfr11.
  assert (Hne_sub : forall q, q = audioPathOf env pid \/ q = musicPathOf env pid
                              \/ q = bgPathOf env pid \/ q = bgExtendedPathOf env pid ->
                              q <> subtitlePathOf env pid).
  { unfold audioPathOf, musicPathOf, bgPathOf, bgExtendedPathOf, subtitlePathOf.
    intros q [-> | [-> | [-> | ->]]]; apply tempPath_ne; discriminate. }
  assert (Hne_ext : forall q, q = audioPathOf env pid \/ q = musicPathOf env pid ->
                              q <> bgExtendedPathOf env pid).
  { unfold audioPathOf, musicPathOf, bgExtendedPathOf.
    intros q [-> | ->]; apply tempPath_ne; discriminate. }
  assert (Hne_bg : forall q, q = audioPathOf env pid \/ q = musicPathOf env pid ->
                             q <> bgPathOf env pid).
  { unfold audioPathOf, musicPathOf, bgPathOf.
    intros q [-> | ->]; apply tempPath_ne; discriminate. }
  apply (composeVideo_spec env pid bgp sp (script job) (title job) _ picture
           (audio (clipMedia clip sound)) speech measured) in E11.
  2:{ rewrite Hfs10, Hfs9; [exact Hbg8|].
      destruct Hbgp; subst bgp; apply Hne_sub; auto. }
  2:{ rewrite Hfs10, Hfs9, Hfs8, Hfs7, Hfs6
        by (first [apply Hne_sub | apply Hne_ext | apply Hne_bg]; auto).
      rewrite Hfr5 by (unfold audioPathOf, musicPathOf; apply tempPath_ne; discriminate).
      rewrite Hfs4. exact Ha3. }
  2:{ rewrite Hfs10, Hfs9, Hfs8, Hfs7, Hfs6
        by (first [apply Hne_sub | apply Hne_ext | apply Hne_bg]; auto).
      exact Hm5. }
  2:{ exact Hbgp. }
  2:{ exact Hsp. }
  destruct E11 as (_ & Hcomp).
  destruct (composeFfmpeg env) as [[]|e]; [|discriminate Hsz].
  destruct Hcomp as (-> & Hfin11 & _ & _ & Hbgp11 & Hsub11). cbn beta iota.
  pass_progress w12 Hfs12 Hp12. cbn zeta.
  (* upload *)
  unfold bind at 1.
  match goal with
  | |- context [tryCatch ?m ?h w12] =>
      destruct (tryCatch m h w12) as [r13 w13] eqn:E13
  end.
  pose proof E13 as E13'.
  apply (upload_block_spec env pid (title job)
           (MediaFile {| video := Some picture; audio := Some speech |})) in E13.
  2:{ rewrite Hfs12. exact Hfin11. }
  destruct E13 as (_ & Hfs13 & Hst).
  destruct (storeOk env); [|discriminate Hsz].
  destruct Hst as [-> _]. cbn beta iota.
  apply (upload_block_projects env pid (title job)
           (MediaFile {| video := Some picture; audio := Some speech |})) in E13'.
  2:{ rewrite Hfs12. exact Hfin11. }
  pass_progress w14 Hfs14 Hp14.
  unfold ret. intros X; inversion X; subst r w'; clear X.
  inversion Hsz; subst sz; clear Hsz.
  unfold stretched.
  cbn [sz_target sz_picture sz_speech sz_measured sz_clip sz_sound sz_captions].
  pose proof (finalPath_fresh env pid) as (F1 & F2 & F3 & F4 & F5).
  assert (Hfinal : forall q, q <> finalPathOf env pid -> fs w14 !! q = fs w11 !! q).
  { intros q Hq. rewrite Hfs14, Hfs13 by exact Hq. rewrite Hfs12. reflexivity. }
  assert (Hmp3_fin : edgeMp3PathOf env pid <> finalPathOf env pid).
  { apply Hmp3_ne. cbn. lia. }
  split; [|split; [|split; [|split]]].
  - (* the MP3 of Edge TTS *)
    rewrite Hfinal by exact Hmp3_fin.
    unfold fileAt in Hfr11. rewrite Hfr11.
    + rewrite Hfs10, Hfs9, Hfs8, Hfs7, Hfs6 by (apply Hmp3_ne; cbn; lia).
      rewrite Hfr5 by (apply Hmp3_ne; cbn; lia).
      rewrite Hfs4, Hmp3, Hfs2, Hfs1, Hfs0. reflexivity.
    + apply Hmp3_ne. cbn. lia.
    + apply Hmp3_ne. cbn. lia.
    + apply Hmp3_ne. cbn. lia.
    + destruct Hbgp as [-> | ->]; apply Hmp3_ne; cbn; lia.
    + destruct Hsp as [-> | ->]; [discriminate|].
      intros E. inversion E as [E']. symmetry in E'. revert E'. apply Hmp3_ne. cbn. lia.
  - (* the clip *)
    rewrite Hfinal by (intros E; apply F3; symmetry; exact E).
    destruct (negb (Qle_bool (Qmax 0 (measured - seconds target)) (1 # 10))
              && negb (Qle_bool measured clip)).
    + subst bgp. unfold fileAt in Hfr11. rewrite Hfr11.
      * rewrite Hfs10, Hfs9, Hfs8; [exact Hbg7 | | ].
        -- unfold bgPathOf, bgExtendedPathOf. apply tempPath_ne. discriminate.
        -- unfold bgPathOf, subtitlePathOf. apply tempPath_ne. discriminate.
      * intros E; apply F3; symmetry; exact E.
      * unfold bgPathOf, audioPathOf. apply tempPath_ne. discriminate.
      * unfold bgPathOf, musicPathOf. apply tempPath_ne. discriminate.
      * unfold bgPathOf, bgExtendedPathOf. apply tempPath_ne. discriminate.
      * destruct Hsp as [-> | ->]; [discriminate|].
        intros E. inversion E as [E']. revert E'.
        unfold bgPathOf, subtitlePathOf. apply tempPath_ne. discriminate.
    + destruct E8' as [-> _]. exact Hbgp11.
  - (* the extended clip *)
    rewrite Hfinal by (intros E; apply F4; symmetry; exact E).
    destruct (negb (Qle_bool (Qmax 0 (measured - seconds target)) (1 # 10))
              && negb (Qle_bool measured clip)).
    + subst bgp. exact Hbgp11.
    + destruct E8' as [-> ->]. unfold fileAt in Hfr11. rewrite Hfr11.
      * rewrite Hfs10, Hfs9, Hfs7, Hfs6.
        -- rewrite Hfr5, Hfs4.
           ++ unfold fileAt in Hfr3. rewrite Hfr3, Hfs2, Hfs1, Hfs0; [reflexivity | | ].
              ** unfold bgExtendedPathOf, audioPathOf. apply tempPath_ne. discriminate.
              ** intros E. symmetry in E. revert E. apply Hmp3_ne. cbn. lia.
           ++ unfold bgExtendedPathOf, musicPathOf. apply tempPath_ne. discriminate.
        -- unfold bgExtendedPathOf, bgPathOf. apply tempPath_ne. discriminate.
        -- unfold bgExtendedPathOf, subtitlePathOf. apply tempPath_ne. discriminate.
      * intros E; apply F4; symmetry; exact E.
      * unfold bgExtendedPathOf, audioPathOf. apply tempPath_ne. discriminate.
      * unfold bgExtendedPathOf, musicPathOf. apply tempPath_ne. discriminate.
      * unfold bgExtendedPathOf, bgPathOf. apply tempPath_ne. discriminate.
      * destruct Hsp as [-> | ->]; [discriminate|].
        intros E. inversion E as [E']. revert E'.
        unfold bgExtendedPathOf, subtitlePathOf. apply tempPath_ne. discriminate.
  - (* the caption track *)
    rewrite Hfinal by (intros E; apply F5; symmetry; exact E).
    subst sp. destruct captions.
    + apply Hsub11. reflexivity.
    + rewrite (Hw10 eq_refl) in *. unfold fileAt in Hfr11. rewrite Hfr11.
      * rewrite Hfs9.
        assert (Hsub8 : fs w8 !! subtitlePathOf env pid = fs w7 !! subtitlePathOf env pid).
        { apply Hfs8. unfold bgExtendedPathOf, subtitlePathOf. apply tempPath_ne.
          discriminate. }
        rewrite Hsub8, Hfs7, Hfs6.
        -- rewrite Hfr5, Hfs4.
           ++ unfold fileAt in Hfr3. rewrite Hfr3, Hfs2, Hfs1, Hfs0; [reflexivity | | ].
              ** unfold subtitlePathOf, audioPathOf. apply tempPath_ne. discriminate.
              ** intros E. symmetry in E. revert E. apply Hmp3_ne. cbn. lia.
           ++ unfold subtitlePathOf, musicPathOf. apply tempPath_ne. discriminate.
        -- unfold subtitlePathOf, bgPathOf. apply tempPath_ne. discriminate.
      * intros E; apply F5; symmetry; exact E.
      * unfold subtitlePathOf, audioPathOf. apply tempPath_ne. discriminate.
      * unfold subtitlePathOf, musicPathOf. apply tempPath_ne. discriminate.
      * destruct Hbgp as [-> | ->]; unfold subtitlePathOf, bgPathOf, bgExtendedPathOf;
          apply tempPath_ne; discriminate.
      * discriminate.
  - (* the row *)
    rewrite Hp14, E13', Hp12, Hp11, Hp10, Hp9, Hp8, Hp7, Hp6, Hp5, Hp4, Hp3, Hp2, Hp1, Hp0.
    reflexivity.
Qed.

End LeftoverFacts.

Section HousekeepingFacts.
Import Js Runtime DurationPolicy SubtitleUtils AudioUtils VideoUtils TTSService VideoProcessor.
Local Open Scope js_scope.

(** X17.  [cleanupTempFiles] never rejects, whether or not the files
    exist: afterwards none of the listed files is there, every other file
    is as before, and nothing but the file system has changed. *)
Theorem X17_cleanupTempFiles_total (files : list jsstring) (w : World) :
  exists w',
    cleanupTempFiles files w = (Ok tt, w')
    /\ (forall q, In q files -> fs w' !! q = None)
    /\ (forall q, ~ In q files -> fs w' !! q = fs w !! q)
    /\ calls w' = calls w
    /\ projects w' = projects w
    /\ processingStatuses w' = processingStatuses w
    /\ notifications w' = notifications w
    /\ activeJobs w' = activeJobs w.
Proof.
  destruct (cleanupTempFiles_run files w) as (w' & E & Hc & Hin & Hout).
  exists w'. split; [exact E|]. split; [exact Hin|]. split; [exact Hout|].
  split; [exact Hc|].
  split; [exact (cleanupTempFiles_offDisk projects files offDisk_projects _ _ _ E)|].
  destruct (quiet_cleanupTempFiles files _ _ _ E) as (Hn & Hs & Ha).
  split; [exact Hs|]. split; [exact Hn | exact Ha].
Qed.

Lemma cleanupProject_files env pid :
  cleanupProject env pid
  = cleanupTempFiles
      [audioPathOf env pid; tempPath env (pid ++ lit "_audio.mp3"); musicPathOf env pid;
       bgPathOf env pid; finalPathOf env pid; subtitlePathOf env pid].
Proof. reflexivity. Qed.

(** X18.  [cleanupProject] never rejects and removes the speech, the
    music, the clip, the final video and the caption track of the project
    (and [<id>_audio.mp3], which no stage writes).  It does not remove the
    extended clip [<id>_bg_extended.mp4] nor the MP3 that Edge TTS stores
    before its conversion: if they are there, they stay. *)
Theorem X18_cleanupProject_scope env pid w :
  exists w',
    cleanupProject env pid w = (Ok tt, w')
    /\ Forall (fun q => fs w' !! q = None)
         [audioPathOf env pid; tempPath env (pid ++ lit "_audio.mp3");
          musicPathOf env pid; bgPathOf env pid; finalPathOf env pid;
          subtitlePathOf env pid]
    /\ fs w' !! bgExtendedPathOf env pid = fs w !! bgExtendedPathOf env pid
    /\ fs w' !! edgeMp3PathOf env pid = fs w !! edgeMp3PathOf env pid
    /\ (forall q,
          ~ In q [audioPathOf env pid; tempPath env (pid ++ lit "_audio.mp3");
                  musicPathOf env pid; bgPathOf env pid; finalPathOf env pid;
                  subtitlePathOf env pid] ->
          fs w' !! q = fs w !! q).
Proof.
  rewrite cleanupProject_files.
  destruct (cleanupTempFiles_run
              [audioPathOf env pid; tempPath env (pid ++ lit "_audio.mp3");
               musicPathOf env pid; bgPathOf env pid; finalPathOf env pid;
               subtitlePathOf env pid] w) as (w' & E & _ & Hin & Hout).
  exists w'. split; [exact E|]. split; [|split; [|split; [|exact Hout]]].
  - rewrite Stdlib.Lists.List.Forall_forall. exact Hin.
  - apply Hout. unfold audioPathOf, musicPathOf, bgPathOf, finalPathOf, subtitlePathOf,
      bgExtendedPathOf. cbn [In].
    intros H. repeat match type of H with _ \/ _ => destruct H as [H|H] end;
      try contradiction; revert H; apply tempPath_ne; discriminate.
  - apply Hout. unfold audioPathOf, musicPathOf, bgPathOf, finalPathOf, subtitlePathOf.
    cbn [In].
    intros H. repeat match type of H with _ \/ _ => destruct H as [H|H] end;
      try contradiction; symmetry in H; revert H; apply edgeMp3Path_ne; cbn; lia.
Qed.

Lemma getVideoPath_run env pid w :
  getVideoPath env pid w
  = (Ok (match fs w !! finalPathOf env pid with
         | Some _ => Some (finalPathOf env pid)
         | None => None
         end), w).
Proof.
  unfold getVideoPath, tryCatch, bind, access, ret. fold (finalPathOf env pid).
  destruct (fs w !! finalPathOf env pid); reflexivity.
Qed.

Lemma completed_sizing env job w r :
  fst (executeJob env job w) = Ok r -> exists sz, sizing env job = Some sz.
Proof.
  intros H. destruct (executeJob env job w) as [r' w'] eqn:E. cbn in H. subst r'.
  apply executeJob_outcome in E.
  destruct (sizing env job) as [sz|]; [exists sz; reflexivity|].
  destruct E as (e & E & _). discriminate E.
Qed.

(** X19.  [getVideoPath] never rejects and changes nothing: it resolves
    with the path of the final video exactly when that file exists.  After
    a job that completed, the local copy exists exactly when the upload was
    not recorded: an upload that reached the drive and the database removes
    it, any failure of the upload or of its database update keeps it. *)
Theorem X19_local_copy_unless_uploaded env job w r :
  fst (executeJob env job w) = Ok r ->
  getVideoPath env (job_projectId job) (snd (executeJob env job w))
  = (Ok (if uploaded env then None else Some (finalPathOf env (job_projectId job))),
     snd (executeJob env job w))
  /\ forall pid w0,
       getVideoPath env pid w0
       = (Ok (match fs w0 !! finalPathOf env pid with
              | Some _ => Some (finalPathOf env pid)
              | None => None
              end), w0).
Proof.
  intros H. split; [|intros pid w0; apply getVideoPath_run].
  destruct (executeJob env job w) as [r' w'] eqn:E. cbn [fst snd] in *. subst r'.
  apply executeJob_outcome in E.
  destruct (sizing env job) as [sz|]; [|destruct E as (e & E & _); discriminate E].
  destruct E as (_ & _ & _ & _ & Hf & _).
  rewrite getVideoPath_run, Hf. destruct (uploaded env); reflexivity.
Qed.

(** A job whose upload is recorded: no local copy is left. *)
Lemma X19_local_copy_unless_uploaded_witness :
  fst (getVideoPath (sampleEnv (Ok 5) (Ok 5) exactSora (Ok sampleUpload)) (lit "p1")
         (snd (executeJob (sampleEnv (Ok 5) (Ok 5) exactSora (Ok sampleUpload))
                 (sampleJob (lit "Hello world, this is a test.")) emptyWorld)))
  = Ok None.
Proof.
  assert (H : fst (executeJob (sampleEnv (Ok 5) (Ok 5) exactSora (Ok sampleUpload))
                     (sampleJob (lit "Hello world, this is a test.")) emptyWorld)
              = Ok (lit "p1")) by (vm_compute; reflexivity).
  destruct (X19_local_copy_unless_uploaded _ _ _ _ H) as [E _].
  change (job_projectId (sampleJob (lit "Hello world, this is a test."))) with (lit "p1") in E.
  rewrite E. reflexivity.
Defined.

(** X20.  [executeJob] always removes the entry of its project from the
    active-job table, whether the job completes or a stage throws, and
    touches no other entry. *)
Theorem X20_active_entry_always_cleared env job w :
  activeJobs (snd (executeJob env job w)) = delete (job_projectId job) (activeJobs w).
Proof.
  set (pid := job_projectId job).
  assert (Hrun : forall r w1, runStages env job w = (r, w1) ->
                   delete pid (activeJobs w1) = delete pid (activeJobs w)).
  { intros r w1 E1.
    apply (runStages_offDisk (fun w => delete pid (activeJobs w))) in E1; try reflexivity.
    - exact E1.
    - split; reflexivity.
    - intros w0. cbn [activeJobs setActiveJobs]. fold pid.
      apply map_eq. intros k. destruct (decide (k = pid)) as [->|Hk].
      + rewrite !lookup_delete_eq. reflexivity.
      + rewrite !lookup_delete_ne, lookup_insert_ne by congruence. reflexivity. }
  destruct (executeJob env job w) as [r w'] eqn:E. cbn [snd].
  rewrite executeJob_run in E.
  destruct (runStages env job w) as [[a|e] w1] eqn:E1; inversion E; subst;
    cbn [activeJobs setActiveJobs]; exact (Hrun _ _ eq_refl).
Qed.

(** X21.  A job stays within its own project: of the files it touches
    only the seven temporary files of the project, and it leaves the row,
    the processing status and the active-job entry of every other project
    as they were, whatever the outcome of its stages. *)
Theorem X21_job_stays_within_its_project env job w :
  (forall q, ~ In q (jobFiles env (job_projectId job)) ->
             fs (snd (executeJob env job w)) !! q = fs w !! q)
  /\ (forall other, other <> job_projectId job ->
        projects (snd (executeJob env job w)) !! other = projects w !! other
        /\ processingStatuses (snd (executeJob env job w)) !! other
           = processingStatuses w !! other
        /\ activeJobs (snd (executeJob env job w)) !! other = activeJobs w !! other).
Proof.
  split.
  - intros q Hq.
    assert (F : frames (fileAt q) (executeJob env job)).
    { apply executeJob_frames; try reflexivity. apply runStages_frame. exact Hq. }
    destruct (executeJob env job w) as [r w'] eqn:E. exact (F _ _ _ E).
  - intros other Hother.
    assert (F1 : frames (fun w => projects w !! other) (executeJob env job)).
    { apply executeJob_frames; try reflexivity.
      apply runStages_offDisk; try reflexivity; [split; reflexivity|].
      intros f w0. cbn [projects setProjects]. apply lookup_alter_ne. congruence. }
    assert (F2 : frames (fun w => processingStatuses w !! other) (executeJob env job)).
    { apply executeJob_frames; try reflexivity.
      - apply runStages_offDisk; try reflexivity; [split; reflexivity|].
        intros s w0. cbn [processingStatuses setStatuses]. apply lookup_insert_ne. congruence.
      - intros s w0. cbn [processingStatuses setStatuses]. apply lookup_insert_ne. congruence. }
    assert (F3 : frames (fun w => activeJobs w !! other) (executeJob env job)).
    { apply executeJob_frames; try reflexivity.
      - apply runStages_offDisk; try reflexivity; [split; reflexivity|].
        intros w0. cbn [activeJobs setActiveJobs]. apply lookup_insert_ne. congruence.
      - intros w0. cbn [activeJobs setActiveJobs]. apply lookup_delete_ne. congruence. }
    destruct (executeJob env job w) as [r w'] eqn:E.
    split; [exact (F1 _ _ _ E)|]. split; [exact (F2 _ _ _ E) | exact (F3 _ _ _ E)].
Qed.

(** X22.  The temporary files after a job that completed.  The speech and
    the music are removed, and so is the caption track when one was
    written.  The clip from Sora is removed when it went into the final
    video as delivered; when it was extended, the extended copy is removed
    and the clip itself is left behind.  The MP3 of Edge TTS is left behind
    when its conversion failed.  The final video is left exactly when the
    upload was not recorded. *)
Theorem X22_files_left_by_a_completed_job env job w r :
  fst (executeJob env job w) = Ok r ->
  let pid := job_projectId job in
  let w' := snd (executeJob env job w) in
  exists sz,
    sizing env job = Some sz
    /\ fs w' !! audioPathOf env pid = None
    /\ fs w' !! musicPathOf env pid = None
    /\ fs w' !! subtitlePathOf env pid
       = (if sz_captions sz then None else fs w !! subtitlePathOf env pid)
    /\ fs w' !! bgPathOf env pid
       = (if stretched sz
          then Some (MediaFile (clipMedia (sz_clip sz) (sz_sound sz))) else None)
    /\ fs w' !! bgExtendedPathOf env pid
       = (if stretched sz then None else fs w !! bgExtendedPathOf env pid)
    /\ fs w' !! edgeMp3PathOf env pid
       = edgeMp3Left env (fs w !! edgeMp3PathOf env pid)
    /\ fs w' !! finalPathOf env pid
       = (if uploaded env then None else Some (finalAsset sz))
    /\ (stretched sz = true <->
        1 # 10 < sz_measured sz - seconds (sz_target sz) /\ sz_clip sz < sz_measured sz).
Proof.
  intros H pid w'. subst w'.
  destruct (completed_sizing env job w r H) as [sz Hsz]. exists sz.
  destruct (executeJob env job w) as [r' w'] eqn:E. cbn [fst snd] in *. subst r'.
  pose proof E as E'. apply executeJob_outcome in E'. rewrite Hsz in E'.
  destruct E' as (_ & _ & _ & _ & Hfin & Ha & Hm).
  rewrite executeJob_run in E.
  destruct (runStages env job w) as [[a|e] w1] eqn:E1; inversion E; subst; clear E.
  apply (runStages_leftovers env job sz) in E1; [|exact Hsz].
  destruct E1 as (Hmp3 & Hbg & Hext & Hsub & _).
  cbn [fs setActiveJobs] in *.
  split; [exact Hsz|]. split; [exact Ha|]. split; [exact Hm|]. split; [exact Hsub|].
  split; [exact Hbg|]. split; [exact Hext|]. split; [exact Hmp3|]. split; [exact Hfin|].
  unfold stretched. rewrite Bool.andb_true_iff, !Bool.negb_true_iff, !Qle_bool_false_iff.
  split; intros [H1 H2]; (split; [|exact H2]).
  - destruct (Q.max_spec 0 (sz_measured sz - seconds (sz_target sz))) as [[_ Em]|[_ Em]];
      rewrite Em in H1; [exact H1|].
    exfalso. revert H1. apply Qle_not_lt. unfold Qle. simpl. lia.
  - apply Qlt_le_trans with (sz_measured sz - seconds (sz_target sz)); [exact H1|].
    apply Q.le_max_r.
Qed.

(** A speech of 13 s: the clip of 12 s is extended and left behind. *)
Lemma X22_files_left_by_a_completed_job_witness :
  fs (snd (executeJob (sampleEnv (Ok 13) (Ok 13) exactSora (Ok sampleUpload))
             (sampleJob (lit "Hello world, this is a test.")) emptyWorld))
    !! lit "/app/temp_videos/p1_bg.mp4"
  = Some (MediaFile (clipMedia 12 false)).
Proof.
  assert (H : fst (executeJob (sampleEnv (Ok 13) (Ok 13) exactSora (Ok sampleUpload))
                     (sampleJob (lit "Hello world, this is a test.")) emptyWorld)
              = Ok (lit "p1")) by (vm_compute; reflexivity).
  destruct (X22_files_left_by_a_completed_job _ _ _ _ H)
    as (sz & Hsz & _ & _ & _ & Hbg & _).
  assert (E : Some sz = sizing (sampleEnv (Ok 13) (Ok 13) exactSora (Ok sampleUpload))
                          (sampleJob (lit "Hello world, this is a test.")))
    by (symmetry; exact Hsz).
  vm_compute in E. injection E as ->.
  exact Hbg.
Defined.





End HousekeepingFacts.

Section QueueConservation.
Import Js Runtime VideoProcessor JobQueue.

(** X26.  The queue loses no job: in every reachable state each job
    submitted so far has finished (its [complete] or [error] notification
    has been made), is the one being executed, or is still waiting; and a
    job that is waiting has made no notification yet. *)
Theorem X26_no_job_is_lost (s : State) :
  reachable s ->
  (forall t, (t < nextTicket s)%nat ->
     finishedIn (trace s) t
     \/ (exists e, In e (executing s) /\ ticket (exec_job e) = t)
     \/ In t (List.map ticket (jobQueue s)))
  /\ (forall e, In e (trace s) -> ~ In (ev_ticket e) (List.map ticket (jobQueue s))).
Proof.
  intros Hr. destruct (reachable_inv s Hr) as [Inv _].
  destruct Inv as [Hone Hflag Hbound Hfifo Hcur Hact Hev Hsorted Hfin Hend].
  split.
  - intros t Ht.
    destruct (Nat.lt_ge_cases t (started s)) as [Hlt|Hge].
    + destruct (Nat.lt_ge_cases t (started s - List.length (executing s))) as [Hf|Hx].
      * left. apply Hfin. exact Hf.
      * right. left.
        destruct (executing s) as [|e l] eqn:Ee; [cbn in Hx; lia|].
        exists e. split; [left; reflexivity|].
        specialize (Hcur e (or_introl eq_refl)).
        cbn [List.length] in Hone, Hx. lia.
    + right. right. rewrite Hfifo. apply in_seq. unfold started in *. lia.
  - intros e He Hin. rewrite Hfifo in Hin. apply in_seq in Hin.
    rewrite Stdlib.Lists.List.Forall_forall in Hev. specialize (Hev e He). lia.
Qed.

(** Two jobs submitted to an idle processor: the first runs, the second
    waits. *)
Lemma X26_no_job_is_lost_witness :
  In 1%nat
     (List.map ticket
        (jobQueue (processVideo (sampleJob (lit "second script"))
                     (processVideo (sampleJob (lit "first script")) init)))).
Proof.
  assert (Hr : reachable (processVideo (sampleJob (lit "second script"))
                            (processVideo (sampleJob (lit "first script")) init))).
  { eapply reach_step; [eapply reach_step; [apply reach_init|]|]; apply step_submit. }
  destruct (X26_no_job_is_lost _ Hr) as [H _].
  destruct (H 1%nat) as [Hf|[He|Hq]].
  - vm_compute. lia.
  - exfalso. destruct Hf as (e & Hin & Ht & Hterm).
    vm_compute in Hin. destruct Hin as [<-|[]]. discriminate Hterm.
  - exfalso. destruct He as (e & Hin & Ht).
    vm_compute in Hin. destruct Hin as [<-|[]]. discriminate Ht.
  - exact Hq.
Defined.

End QueueConservation.

Section OverlapFacts.
Import Js SubtitleUtils.

Lemma timeLoop_head T eb n rest i ct s tl :
  timeLoop T eb n i ct rest = s :: tl -> startTime s = ct.
Proof.
  destruct rest as [|[seg d] rest]; cbn [timeLoop]; [discriminate|].
  intros H. inversion H. reflexivity.
Qed.

Lemma timeLoop_overlap T eb n rest :
  forall i ct k a b,
    nth_error (timeLoop T eb n i ct rest) k = Some a ->
    nth_error (timeLoop T eb n i ct rest) (S k) = Some b ->
    endTime a <= startTime b + (1 # 10).
Proof.
  induction rest as [|[seg d] rest IH]; intros i ct k a b Ha Hb.
  - destruct k; discriminate Ha.
  - cbn [timeLoop] in Ha, Hb. destruct k as [|k].
    + cbn [nth_error] in Ha, Hb. inversion Ha; subst a; clear Ha. cbn [endTime].
      destruct (timeLoop T eb n (S i) (ct + d) rest) as [|s tl] eqn:E; [discriminate Hb|].
      cbn [nth_error] in Hb. inversion Hb; subst b; clear Hb.
      rewrite (timeLoop_head _ _ _ _ _ _ _ _ E).
      pose proof (overlap_bounds n i) as [_ Hov].
      unfold Math_min.
      apply Qle_trans with (ct + d + (if (i <? n - 1)%nat then 1 # 10 else 0));
        [apply Q.le_min_l | lra].
    + cbn [nth_error] in Ha, Hb. exact (IH _ _ _ _ _ Ha Hb).
Qed.

Lemma StronglySorted_nth {A} (R : A -> A -> Prop) (l : list A) :
  StronglySorted R l ->
  forall i j a b, (i < j)%nat -> nth_error l i = Some a -> nth_error l j = Some b -> R a b.
Proof.
  induction 1 as [|x l Hs IH Hx]; intros i j a b Hij Ha Hb.
  - destruct i; discriminate Ha.
  - destruct j as [|j]; [lia|]. cbn [nth_error] in Hb.
    destruct i as [|i]; cbn [nth_error] in Ha.
    + inversion Ha; subst a.
      rewrite Stdlib.Lists.List.Forall_forall in Hx. apply Hx.
      apply nth_error_In with j. exact Hb.
    + apply (IH i j); [lia | exact Ha | exact Hb].
Qed.

(** X27.  At most two captions are on screen at a time: a caption ends at
    most a tenth of a second after the next one has started, and before
    the one after that starts. *)
Theorem X27_captions_overlap_in_pairs (segments : list jsstring) (totalDuration : Q)
        (k : nat) (a b : SubtitleSegment) :
  nth_error (calculateTiming segments totalDuration) k = Some a ->
  nth_error (calculateTiming segments totalDuration) (S k) = Some b ->
  endTime a <= startTime b + (1 # 10)
  /\ forall j c, (k + 2 <= j)%nat ->
                 nth_error (calculateTiming segments totalDuration) j = Some c ->
                 endTime a < startTime c.
Proof.
  intros Ha Hb.
  destruct segments as [|s0 segments].
  { cbn in Ha. destruct k; discriminate Ha. }
  destruct (Qlt_le_dec 0 totalDuration) as [Hpos|Hneg].
  2:{ rewrite calculateTiming_none in Ha by exact Hneg. destruct k; discriminate Ha. }
  destruct (calculateTiming_loop (s0 :: segments) totalDuration) as (durs & Hlen & Hmin & E);
    [discriminate | exact Hpos|].
  rewrite E in Ha, Hb |- *.
  assert (Hrest : Forall (fun p : jsstring * Q => 4 # 5 <= snd p)
                         (combine (s0 :: segments) durs)).
  { apply Forall_combine_snd. exact Hmin. }
  pose proof (timeLoop_overlap _ _ _ _ _ _ _ _ _ Ha Hb) as H1.
  split; [exact H1|].
  intros j c Hj Hc.
  pose proof (timeLoop_sorted_start totalDuration (1 # 5)
                (List.length (s0 :: segments)) _ Hrest 0%nat (1 # 2)) as Hs.
  pose proof (StronglySorted_nth _ _ Hs (S k) j b c ltac:(lia) Hb Hc) as H2.
  cbv beta in H2. lra.
Qed.

(** Three sentences over ten seconds. *)
Lemma X27_captions_overlap_in_pairs_witness :
  exists a b,
    nth_error (calculateTiming (splitIntoSegments (lit "One two. Three four. Five six."))
                 10) 0 = Some a
    /\ nth_error (calculateTiming
                    (splitIntoSegments (lit "One two. Three four. Five six.")) 10) 1
       = Some b
    /\ endTime a <= startTime b + (1 # 10).
Proof.
  destruct (nth_error (calculateTiming
                         (splitIntoSegments (lit "One two. Three four. Five six.")) 10) 0)
    as [a|] eqn:Ea; [|vm_compute in Ea; discriminate Ea].
  destruct (nth_error (calculateTiming
                         (splitIntoSegments (lit "One two. Three four. Five six.")) 10) 1)
    as [b|] eqn:Eb; [|vm_compute in Eb; discriminate Eb].
  exists a, b. split; [reflexivity|]. split; [reflexivity|].
  exact (proj1 (X27_captions_overlap_in_pairs _ _ _ _ _ Ea Eb)).
Defined.

End OverlapFacts.

Section SoraHeaders.
Import Js SoraApi.

Lemma startsWith_prefix (pat s : jsstring) :
  startsWith pat s = true -> exists rest, s = pat ++ rest.
Proof.
  revert s. induction pat as [|p pat IH]; intros s H.
  - exists s. reflexivity.
  - destruct s as [|c s]; [discriminate H|]. cbn in H.
    apply Bool.andb_true_iff in H. destruct H as [Hc Hs].
    apply N.eqb_eq in Hc. subst c.
    destruct (IH s Hs) as [rest ->]. exists rest. reflexivity.
Qed.

Lemma includes_app (pat pre post : jsstring) : includes pat (pre ++ pat ++ post) = true.
Proof.
  induction pre as [|c pre IH].
  - cbn [app]. destruct (pat ++ post) eqn:E; cbn [includes];
      rewrite <- E, startsWith_app; reflexivity.
  - cbn [app includes]. rewrite IH. apply Bool.orb_true_r.
Qed.

(** X28.  The credentials that [SoraVideoService] sends.  [getHeaders]
    always sends the key with exactly one [Bearer] prefix, whether or not
    the configured key already carries it.  [downloadVideo] puts the prefix
    in front of the key as configured, so the two differ exactly when the
    key is configured with the prefix; and it sends the key to every
    address that contains the text [cometapi.com] anywhere, and to no
    other. *)
Theorem X28_sora_credentials (apiKey : jsstring) :
  (exists rest, authorization (getHeaders apiKey) = Some (lit "Bearer " ++ rest)
                /\ (apiKey = rest \/ apiKey = lit "Bearer " ++ rest))
  /\ (forall h, authorization (getHeaders apiKey) = Some h ->
                authorization (getHeaders h) = Some h)
  /\ (forall pre post,
        authorization (downloadVideo_headers apiKey (pre ++ lit "cometapi.com" ++ post))
        = Some (lit "Bearer " ++ apiKey))
  /\ (forall url, includes (lit "cometapi.com") url = false ->
                  authorization (downloadVideo_headers apiKey url) = None)
  /\ (forall url, includes (lit "cometapi.com") url = true ->
        (authorization (downloadVideo_headers apiKey url)
         = authorization (getHeaders apiKey)
         <-> startsWith (lit "Bearer ") apiKey = false)).
Proof.
  unfold getHeaders, downloadVideo_headers; cbn [authorization].
  split; [|split; [|split; [|split]]].
  - destruct (startsWith (lit "Bearer ") apiKey) eqn:E.
    + destruct (startsWith_prefix _ _ E) as [rest ->]. exists rest.
      split; [reflexivity | right; reflexivity].
    + exists apiKey. split; [reflexivity | left; reflexivity].
  - intros h Hh.
    assert (Hh' : h = if startsWith (lit "Bearer ") apiKey then apiKey
                      else lit "Bearer " ++ apiKey) by congruence.
    subst h. destruct (startsWith (lit "Bearer ") apiKey) eqn:E.
    + rewrite E. reflexivity.
    + rewrite startsWith_app. reflexivity.
  - intros pre post. rewrite includes_app. reflexivity.
  - intros url H. rewrite H. reflexivity.
  - intros url H. rewrite H.
    destruct (startsWith (lit "Bearer ") apiKey) eqn:E.
    + split; [|discriminate]. intros X.
      assert (X' : lit "Bearer " ++ apiKey = apiKey) by congruence.
      apply (f_equal (@List.length _)) in X'. rewrite length_app in X'.
      change (List.length (lit "Bearer ")) with 7%nat in X'. lia.
    + split; reflexivity.
Qed.

End SoraHeaders.
